(** * BrowserHunter: forensic browser-history core, embedded in Rocq

    A shallow embedding of the correctness-sensitive parts of the
    BrowserHunter sources:

    - [src/core/timezone_utils.py]   (module [TimezoneConverter])
    - [src/core/models.py]           (modules [Models], [Hashing])
    - [src/core/search.py]           (module [Search])
    - [src/core/analytics.py]        (module [Analytics])
    - [src/utils/security.py]        (module [Security])
    - [src/core/parsers/base_parser.py]    (module [BaseParser])
    - [src/core/parsers/generic_parser.py] (module [GenericSQLiteParser])

    Python values are modelled as follows.  [str] is [string]; the
    characters are the code points below 256 (Latin-1).  [int] is [Z].
    [float] is an IEEE-754 binary64 number, written as a [spec_float]
    and computed with the Standard Library's [SpecFloat] operations at
    precision 53 and maximal exponent 1024.  An aware UTC [datetime] is the
    number of microseconds since 1970-01-01T00:00:00Z.  A call that may
    raise returns a [pyresult].  The file system is a finite map from
    paths to files together with the list of requests made to it
    (module [Files]); a SQLite database is the list of its tables.

    The definitions come first, then the predicates and sample inputs the
    statements use, then the properties. *)

From Stdlib Require Import ZArith List String Ascii Bool Lia DecimalString.
From Stdlib Require Import Sorting.Sorted Sorting.Permutation.
From Stdlib Require Import Floats.SpecFloat.
From stdpp Require Import base option list gmap strings.

Local Open Scope string_scope.
Local Open Scope list_scope.
Local Open Scope nat_scope.

(** ** Python runtime: exceptions and results *)

Module Py.

(** The exception classes the modelled code raises or catches. *)
Inductive pyexc : Type :=
| ValueError (msg : string)
| OSError (msg : string)
| PermissionError (msg : string)
| FileExistsError (msg : string)
| OverflowError (msg : string)
| IndexError (msg : string)
| RuntimeError (msg : string)
| OperationalError (msg : string).

Inductive pyresult (A : Type) : Type :=
| Ok (a : A)
| Raise (e : pyexc).
Arguments Ok {A} a.
Arguments Raise {A} e.

Definition bind {A B} (m : pyresult A) (k : A -> pyresult B) : pyresult B :=
  match m with
  | Ok a => k a
  | Raise e => Raise e
  end.

(** [PermissionError] and [FileExistsError] are subclasses of [OSError];
    [OverflowError] derives from [ArithmeticError] and is neither a
    [ValueError] nor an [OSError]. *)
Definition is_ValueError (e : pyexc) : bool :=
  match e with ValueError _ => true | _ => false end.

Definition is_OSError (e : pyexc) : bool :=
  match e with
  | OSError _ | PermissionError _ | FileExistsError _ => true
  | _ => false
  end.

(** [str(e)] *)
Definition exc_str (e : pyexc) : string :=
  match e with
  | ValueError m | OSError m | PermissionError m | FileExistsError m
  | OverflowError m | IndexError m | RuntimeError m | OperationalError m => m
  end.

End Py.
Export Py.

(** ** Python [str] methods used by the sources *)

Module PyStr.

Definition code (c : ascii) : nat := nat_of_ascii c.

(** [c.isspace()] on the code points below 256. *)
Definition isspace (c : ascii) : bool :=
  let n := code c in
  ((9 <=? n) && (n <=? 13)) || ((28 <=? n) && (n <=? 32))
  || (n =? 133) || (n =? 160).

(** [c.lower()] on the code points below 256. *)
Definition lower_char (c : ascii) : ascii :=
  let n := code c in
  if ((65 <=? n) && (n <=? 90))
     || ((192 <=? n) && (n <=? 222) && negb (n =? 215))
  then ascii_of_nat (n + 32) else c.

Fixpoint lower (s : string) : string :=
  match s with
  | EmptyString => EmptyString
  | String c s' => String (lower_char c) (lower s')
  end.

(** [s.count(c)] for a one-character [c]. *)
Fixpoint count (c : ascii) (s : string) : nat :=
  match s with
  | EmptyString => 0
  | String d s' => (if Ascii.eqb d c then 1 else 0) + count c s'
  end.

Definition startswith (p s : string) : bool := String.prefix p s.

Definition endswith (suf s : string) : bool :=
  let n := String.length s in
  let m := String.length suf in
  (m <=? n) && String.eqb (substring (n - m) m s) suf.

(** [needle in hay] *)
Fixpoint contains (needle hay : string) : bool :=
  String.prefix needle hay
  || match hay with
     | EmptyString => false
     | String _ hay' => contains needle hay'
     end.

Fixpoint lstrip (s : string) : string :=
  match s with
  | EmptyString => EmptyString
  | String c s' => if isspace c then lstrip s' else s
  end.

(** Drops trailing white space: a character is kept when it is not white
    space or something after it is kept. *)
Fixpoint rstrip (s : string) : string :=
  match s with
  | EmptyString => EmptyString
  | String c s' =>
      match rstrip s' with
      | EmptyString => if isspace c then EmptyString else String c EmptyString
      | r => String c r
      end
  end.

(** [s.strip()] *)
Definition strip (s : string) : string := rstrip (lstrip s).

(** [s[1:-1]] *)
Definition slice_1_m1 (s : string) : string :=
  substring 1 (String.length s - 2) s.

(** [s[:n]] *)
Definition take (n : nat) (s : string) : string := substring 0 n s.

(** [sep.join(l)] *)
Definition join (sep : string) (l : list string) : string :=
  String.concat sep l.

(** [str(x)] for an [Optional[str]]. *)
Definition str_opt (o : option string) : string :=
  match o with
  | Some s => s
  | None => "None"
  end.

End PyStr.

(** ** Python numbers: [int], [float] and [datetime.fromtimestamp] *)

Module PyNum.

Local Open Scope Z_scope.

Definition prec : Z := 53.
Definition emax : Z := 1024.

(** An integer read as a binary floating-point number, not yet rounded. *)
Definition exact_of_int (n : Z) : spec_float :=
  match n with
  | Z0 => S754_zero false
  | Zpos p => S754_finite false p 0
  | Zneg p => S754_finite true p 0
  end.

(** [float(n)]: the nearest double. *)
Definition float_of_int (n : Z) : pyresult spec_float :=
  match binary_normalize prec emax n 0 false with
  | S754_infinity _ => Raise (OverflowError "int too large to convert to float")
  | r => Ok r
  end.

(** [a / b] on two [int]s, [b] non-zero: the exact quotient, rounded once. *)
Definition int_truediv (a b : Z) : pyresult spec_float :=
  match SFdiv prec emax (exact_of_int a) (exact_of_int b) with
  | S754_infinity _ =>
      Raise (OverflowError "integer division result too large for a float")
  | r => Ok r
  end.

(** [x - n] and [x / n] for a [float] [x] and an [int] [n] that converts to
    a double exactly (below [2^53], as every constant of the sources is). *)
Definition float_sub_int (x : spec_float) (n : Z) : spec_float :=
  SFsub prec emax x (exact_of_int n).

Definition float_div_int (x : spec_float) (n : Z) : spec_float :=
  SFdiv prec emax x (exact_of_int n).

(** Round to the nearest integer, ties to even; [None] on infinities and
    NaN. *)
Definition round_half_even (x : spec_float) : option Z :=
  match x with
  | S754_zero _ => Some 0
  | S754_finite s m e =>
      let v :=
        match e with
        | Zneg p =>
            let d := Z.pow_pos 2 p in
            let q := Z.pos m / d in
            let r := Z.pos m mod d in
            match 2 * r ?= d with
            | Lt => q
            | Gt => q + 1
            | Eq => if Z.even q then q else q + 1
            end
        | _ => Z.pos m * 2 ^ e
        end in
      Some (if s then - v else v)
  | _ => None
  end.

(** [x <= n] for a [float] [x] and an [int] [n]; Python compares the two
    exactly. *)
Definition float_le_int (x : spec_float) (n : Z) : bool :=
  match x with
  | S754_zero _ => 0 <=? n
  | S754_infinity s => s
  | S754_nan => false
  | S754_finite s m e =>
      let sm := if s then Z.neg m else Z.pos m in
      match e with
      | Zneg p => sm <=? n * Z.pow_pos 2 p
      | _ => sm * 2 ^ e <=? n
      end
  end.

(** [x == 0] *)
Definition float_is_zero (x : spec_float) : bool :=
  match x with
  | S754_zero _ => true
  | _ => false
  end.

(** [round(x, 2)] on a finite [x >= 0] or zero: the decimal with two
    places nearest to the exact value of [x] (ties to even), read back as
    the nearest double. *)
Definition round2 (x : spec_float) : spec_float :=
  match x with
  | S754_finite s m e =>
      let k :=
        match round_half_even (S754_finite s (m * 100) e) with
        | Some k => k
        | None => 0
        end in
      if k =? 0 then S754_zero s
      else SFdiv prec emax (exact_of_int k) (exact_of_int 100)
  | _ => x
  end.

(** A timestamp argument: Python passes an [int] or a [float]. *)
Inductive pynum : Type :=
| PyInt (n : Z)
| PyFloat (x : spec_float).

Definition num_is_zero (v : pynum) : bool :=
  match v with
  | PyInt n => n =? 0
  | PyFloat x => float_is_zero x
  end.

(** An aware UTC [datetime]: microseconds since 1970-01-01T00:00:00Z. *)
Definition datetime : Type := Z.

(** The platform is CPython on 64-bit Linux: [time_t] is a signed 64-bit
    integer and [gmtime] succeeds while the year fits a C [int]. *)
Definition TIME_T_MIN : Z := - 2 ^ 63.
Definition TIME_T_MAX : Z := 2 ^ 63 - 1.
Definition GMTIME_MIN : Z := -67768040609740800.
Definition GMTIME_MAX : Z := 67768036191676799.
(** 0001-01-01T00:00:00Z and 9999-12-31T23:59:59Z in seconds. *)
Definition MIN_SECONDS : Z := -62135596800.
Definition MAX_SECONDS : Z := 253402300799.

(** [datetime_from_timet_and_us] with [gmtime]: the broken-down time of
    [sec], then the [datetime] constructor's year check. *)
Definition from_timet_and_us (sec us : Z) : pyresult datetime :=
  if (sec <? TIME_T_MIN) || (TIME_T_MAX <? sec) then
    Raise (OverflowError "timestamp out of range for platform time_t")
  else if (sec <? GMTIME_MIN) || (GMTIME_MAX <? sec) then
    Raise (OSError "[Errno 75] Value too large for defined data type")
  else if (sec <? MIN_SECONDS) || (MAX_SECONDS <? sec) then
    Raise (ValueError "year is out of range")
  else Ok (sec * 1000000 + us).

(** [modf]: the integral part and the fractional part, both with the sign
    of the argument. *)
Definition modf (s : bool) (m : positive) (e : Z) : Z * spec_float :=
  match e with
  | Zneg p =>
      let d := Z.pow_pos 2 p in
      let q := Z.pos m / d in
      let r := Z.pos m mod d in
      (if s then - q else q,
       match r with
       | Zpos rp => S754_finite s rp e
       | _ => S754_zero s
       end)
  | _ => (let v := Z.pos m * 2 ^ e in if s then - v else v, S754_zero s)
  end.

(** [datetime.fromtimestamp(v, tz=timezone.utc)].  An [int] is taken as
    whole seconds.  A [float] is split by [modf]; the fraction is scaled by
    [1e6] and rounded half-even to microseconds, carrying into the seconds. *)
Definition fromtimestamp (v : pynum) : pyresult datetime :=
  match v with
  | PyInt n => from_timet_and_us n 0
  | PyFloat S754_nan => Raise (ValueError "Invalid value NaN (not a number)")
  | PyFloat (S754_infinity _) =>
      Raise (OverflowError "timestamp out of range for platform time_t")
  | PyFloat (S754_zero _) => from_timet_and_us 0 0
  | PyFloat (S754_finite s m e) =>
      let '(intpart, frac) := modf s m e in
      let us :=
        match round_half_even (SFmul prec emax frac (exact_of_int 1000000)) with
        | Some us => us
        | None => 0
        end in
      if 1000000 <=? us then from_timet_and_us (intpart + 1) (us - 1000000)
      else if us <? 0 then from_timet_and_us (intpart - 1) (us + 1000000)
      else from_timet_and_us intpart us
  end.

(** [(a - b).total_seconds()]: the difference in microseconds over
    [10**6].  A [timedelta] is bounded, so the quotient is finite. *)
Definition total_seconds (delta_us : Z) : spec_float :=
  SFdiv prec emax (exact_of_int delta_us) (exact_of_int (10 ^ 6)).

End PyNum.

(** ** [src/core/timezone_utils.py] *)

Module TimezoneConverter.

Import PyNum.
Local Open Scope Z_scope.

(** [try: body except (ValueError, OSError): handler] *)
Definition try_except_ValueError_OSError {A}
  (body handler : pyresult A) : pyresult A :=
  match body with
  | Raise e => if is_ValueError e || is_OSError e then handler else Raise e
  | Ok a => Ok a
  end.

(** [datetime.fromtimestamp(0, tz=timezone.utc)] *)
Definition epoch_sentinel : pyresult datetime := fromtimestamp (PyInt 0).

Definition EPOCH_DIFF : Z := 11644473600.

(** [(chrome_timestamp / 1000000) - EPOCH_DIFF] *)
Definition chrome_seconds (chrome_timestamp : Z) : pyresult spec_float :=
  bind (int_truediv chrome_timestamp 1000000)
       (fun q => Ok (float_sub_int q EPOCH_DIFF)).

Definition chrome_timestamp_to_datetime (chrome_timestamp : Z)
  : pyresult datetime :=
  if chrome_timestamp =? 0 then epoch_sentinel
  else
    try_except_ValueError_OSError
      (bind (chrome_seconds chrome_timestamp)
            (fun timestamp_seconds => fromtimestamp (PyFloat timestamp_seconds)))
      epoch_sentinel.

Definition firefox_timestamp_to_datetime (firefox_timestamp : Z)
  : pyresult datetime :=
  if firefox_timestamp =? 0 then epoch_sentinel
  else
    try_except_ValueError_OSError
      (bind (int_truediv firefox_timestamp 1000000)
            (fun timestamp_seconds => fromtimestamp (PyFloat timestamp_seconds)))
      epoch_sentinel.

(** The annotation says [int]; Python hands the argument over as it is, so
    the function also runs on a [float]. *)
Definition unix_timestamp_to_datetime (unix_timestamp : pynum)
  : pyresult datetime :=
  if num_is_zero unix_timestamp then epoch_sentinel
  else
    try_except_ValueError_OSError (fromtimestamp unix_timestamp) epoch_sentinel.

End TimezoneConverter.


(** ** [src/core/models.py]: the history entry *)

Module Models.

Import PyNum.

(** The fields of [HistoryEntry] the modelled code reads.  [domain] is set
    from the URL by [__post_init__]. *)
Record HistoryEntry : Type := {
  id : Z;
  url : string;
  title : option string;
  visit_time : datetime;
  visit_count : Z;
  browser : string;
  typed_count : Z;
  domain : string;
  source_file : string;
  source_file_hash : string;
  notes : string;
  bookmarked : bool
}.

End Models.

(** ** [src/core/search.py] *)

Module Search.

Import PyNum Models.

Definition MAX_REGEX_LENGTH : nat := 500.

(** The four [pattern.count] calls of [validate_regex_pattern]. *)
Definition complexity_score (pattern : string) : nat :=
  PyStr.count "(" pattern + PyStr.count "*" pattern
  + PyStr.count "+" pattern + PyStr.count "|" pattern.

Definition validate_regex_pattern (pattern : string) : bool :=
  if MAX_REGEX_LENGTH <? String.length pattern then false
  else if 50 <? complexity_score pattern then false
  else true.

(** The [re] module: compiled patterns, [re.compile(pattern, flags)] where
    the flag is [re.IGNORECASE] or [0], and [pattern.search(text)]. *)
Class ReEngine : Type := {
  Pattern : Type;
  Match : Type;
  re_compile : string -> forall ignorecase : bool, pyresult Pattern;
  Pattern_search : Pattern -> string -> pyresult (option Match)
}.

Section WithRe.
Context {RE : ReEngine}.

Definition safe_regex_compile (pattern : string) (ignorecase : bool)
  : option Pattern :=
  if negb (validate_regex_pattern pattern) then None
  else
    match re_compile pattern ignorecase with
    | Ok compiled => Some compiled
    | Raise _ => None
    end.

Definition MAX_TEXT_LENGTH : nat := Z.to_nat 1000000.

Definition safe_regex_search (pattern : Pattern) (text : string)
  : option Match :=
  let text :=
    if MAX_TEXT_LENGTH <? String.length text
    then PyStr.take MAX_TEXT_LENGTH text else text in
  match Pattern_search pattern text with
  | Ok result => result
  | Raise _ => None
  end.

(** What [SearchFilter.filters] holds: one closure per [add_*_filter]
    call, named by the call and its arguments. *)
Inductive filter : Type :=
| KeywordFilter (keyword : string) (case_sensitive use_regex : bool)
| UrlFilter (url_pattern : string) (use_regex : bool)
| DomainFilter (domains : list string)
| DateRangeFilter (start_date end_date : option datetime)
| VisitCountFilter (min_count max_count : option Z)
| BrowserFilter (browsers : list string)
| BookmarkedFilter (bookmarked : bool)
| CustomFilter (filter_func : HistoryEntry -> bool).

Definition in_list (x : string) (l : list string) : bool :=
  existsb (String.eqb x) l.

(** The body of the closure [filter_func] of each [add_*_filter]. *)
Definition filter_func (f : filter) (entry : HistoryEntry) : bool :=
  match f with
  | KeywordFilter keyword case_sensitive use_regex =>
      let searchable_fields :=
        [url entry; PyStr.str_opt (title entry); domain entry; notes entry] in
      let search_text := PyStr.join " " searchable_fields in
      if use_regex then
        match safe_regex_compile keyword (negb case_sensitive) with
        | None => false
        | Some pattern =>
            match safe_regex_search pattern search_text with
            | Some _ => true
            | None => false
            end
        end
      else if negb case_sensitive then
        PyStr.contains (PyStr.lower keyword) (PyStr.lower search_text)
      else PyStr.contains keyword search_text
  | UrlFilter url_pattern use_regex =>
      if use_regex then
        match safe_regex_compile url_pattern true with
        | None => false
        | Some pattern =>
            match safe_regex_search pattern (url entry) with
            | Some _ => true
            | None => false
            end
        end
      else PyStr.contains (PyStr.lower url_pattern) (PyStr.lower (url entry))
  | DomainFilter domains => in_list (domain entry) domains
  | DateRangeFilter start_date end_date =>
      match start_date with
      | Some s => if (visit_time entry <? s)%Z then false
                  else match end_date with
                       | Some e => negb (e <? visit_time entry)%Z
                       | None => true
                       end
      | None => match end_date with
                | Some e => negb (e <? visit_time entry)%Z
                | None => true
                end
      end
  | VisitCountFilter min_count max_count =>
      let below :=
        match min_count with
        | Some m => negb (m =? 0)%Z && (visit_count entry <? m)%Z
        | None => false
        end in
      let above :=
        match max_count with
        | Some m => negb (m =? 0)%Z && (m <? visit_count entry)%Z
        | None => false
        end in
      if below then false else if above then false else true
  | BrowserFilter browsers => in_list (browser entry) browsers
  | BookmarkedFilter b => Bool.eqb (bookmarked entry) b
  | CustomFilter f => f entry
  end.

(** [SearchFilter]: the list [self.filters], in the order of the calls. *)
Definition SearchFilter : Type := list filter.

Definition add_keyword_filter (self : SearchFilter) (keyword : string)
  (case_sensitive use_regex : bool) : SearchFilter :=
  self ++ [KeywordFilter keyword case_sensitive use_regex].

Definition add_url_filter (self : SearchFilter) (url_pattern : string)
  (use_regex : bool) : SearchFilter :=
  self ++ [UrlFilter url_pattern use_regex].

Definition add_custom_filter (self : SearchFilter)
  (f : HistoryEntry -> bool) : SearchFilter :=
  self ++ [CustomFilter f].

(** [SearchFilter.apply]: one list comprehension per filter, in order. *)
Definition apply (self : SearchFilter) (entries : list HistoryEntry)
  : list HistoryEntry :=
  match self with
  | [] => entries
  | _ =>
      fold_left
        (fun filtered f => List.filter (filter_func f) filtered)
        self entries
  end.

End WithRe.

(** *** [QueryParser] *)

(** The double-quote character (code 34), the slash, and a
    one-character string. *)
Definition dquote : ascii := ascii_of_nat 34.
Definition slash : ascii := ascii_of_nat 47.
Definition str1 (c : ascii) : string := String c EmptyString.

(** The local variables of [_tokenize]. *)
Record tokenizer : Type := {
  tokens : list string;
  current_token : string;
  in_quotes : bool;
  in_regex : bool
}.

(** One turn of the loop [for char in query]. *)
Definition tokenize_step (st : tokenizer) (char : ascii) : tokenizer :=
  if Ascii.eqb char dquote && negb (in_regex st) then
    {| tokens := tokens st;
       current_token := current_token st +:+ str1 char;
       in_quotes := negb (in_quotes st);
       in_regex := in_regex st |}
  else if Ascii.eqb char slash && negb (in_quotes st) then
    {| tokens := tokens st;
       current_token := current_token st +:+ str1 char;
       in_quotes := in_quotes st;
       in_regex := negb (in_regex st) |}
  else if PyStr.isspace char && negb (in_quotes st) && negb (in_regex st) then
    if String.eqb (current_token st) "" then st
    else
      {| tokens := tokens st ++ [current_token st];
         current_token := "";
         in_quotes := in_quotes st;
         in_regex := in_regex st |}
  else
    {| tokens := tokens st;
       current_token := current_token st +:+ str1 char;
       in_quotes := in_quotes st;
       in_regex := in_regex st |}.

Fixpoint tokenize_loop (st : tokenizer) (query : string) : tokenizer :=
  match query with
  | EmptyString => st
  | String char rest => tokenize_loop (tokenize_step st char) rest
  end.

Definition _tokenize (query : string) : list string :=
  let st :=
    tokenize_loop
      {| tokens := []; current_token := ""; in_quotes := false;
         in_regex := false |} query in
  if String.eqb (current_token st) "" then tokens st
  else tokens st ++ [current_token st].

Definition is_operator (token : string) : bool :=
  in_list token ["AND"; "OR"; "NOT"].

(** One turn of the loop [for token in tokens] of [parse_query]. *)
Definition parse_token (search_filter : SearchFilter) (token : string)
  : SearchFilter :=
  let token := PyStr.strip token in
  if PyStr.startswith "/" token && PyStr.endswith "/" token then
    add_keyword_filter search_filter (PyStr.slice_1_m1 token) false true
  else if PyStr.startswith (str1 dquote) token
          && PyStr.endswith (str1 dquote) token then
    add_keyword_filter search_filter (PyStr.slice_1_m1 token) true false
  else if negb (String.eqb token "") && negb (is_operator token) then
    add_keyword_filter search_filter token false false
  else search_filter.

Definition parse_query (query : string) : SearchFilter :=
  if String.eqb (PyStr.strip query) "" then []
  else fold_left parse_token (_tokenize query) [].

End Search.

(** ** [src/core/analytics.py]: [BrowserStatistics.calculate_session_duration] *)

Module Analytics.

Import PyNum Models.
Local Open Scope Z_scope.

(** [sorted(entries, key=lambda x: x.visit_time)]: a stable sort, written
    as insertion from the right; an entry goes before the first entry whose
    key is not smaller. *)
Fixpoint insert_by_time (x : HistoryEntry) (l : list HistoryEntry)
  : list HistoryEntry :=
  match l with
  | [] => [x]
  | y :: l' =>
      if visit_time x <=? visit_time y then x :: y :: l'
      else y :: insert_by_time x l'
  end.

Fixpoint sorted_by_visit_time (entries : list HistoryEntry)
  : list HistoryEntry :=
  match entries with
  | [] => []
  | x :: l => insert_by_time x (sorted_by_visit_time l)
  end.

(** [(entry.visit_time - prev_entry.visit_time).total_seconds() / 60] *)
Definition time_gap (prev_entry entry : HistoryEntry) : spec_float :=
  float_div_int (total_seconds (visit_time entry - visit_time prev_entry)) 60.

(** [time_gap <= session_gap_minutes] *)
Definition same_session (session_gap_minutes : Z)
  (prev_entry entry : HistoryEntry) : bool :=
  float_le_int (time_gap prev_entry entry) session_gap_minutes.

(** The dictionary [current_session] while the loop runs. *)
Record open_session : Type := {
  o_start : datetime;
  o_end : datetime;
  o_entries : list HistoryEntry;
  o_domains : gset string
}.

Definition new_session (entry : HistoryEntry) : open_session :=
  {| o_start := visit_time entry;
     o_end := visit_time entry;
     o_entries := [entry];
     o_domains := {[ domain entry ]} |}.

Definition extend_session (current_session : open_session)
  (entry : HistoryEntry) : open_session :=
  {| o_start := o_start current_session;
     o_end := visit_time entry;
     o_entries := o_entries current_session ++ [entry];
     o_domains := o_domains current_session ∪ {[ domain entry ]} |}.

(** The loop [for i in range(1, len(sorted_entries))] and the final
    [sessions.append(current_session)]; [prev_entry] is
    [sorted_entries[i - 1]] and [rest] is [sorted_entries[i:]]. *)
Fixpoint session_loop (session_gap_minutes : Z)
  (sessions : list open_session) (current_session : open_session)
  (prev_entry : HistoryEntry) (rest : list HistoryEntry)
  : list open_session :=
  match rest with
  | [] => sessions ++ [current_session]
  | entry :: rest' =>
      if same_session session_gap_minutes prev_entry entry then
        session_loop session_gap_minutes sessions
          (extend_session current_session entry) entry rest'
      else
        session_loop session_gap_minutes (sessions ++ [current_session])
          (new_session entry) entry rest'
  end.

(** A session dictionary as returned; [domains] is [list(set)], whose order
    Python leaves open, so it stays a set here. *)
Record session : Type := {
  start : datetime;
  end_ : datetime;
  entries : list HistoryEntry;
  domains : gset string;
  duration_minutes : spec_float;
  entry_count : nat;
  unique_domains : nat
}.

(** The loop [for session in sessions] that computes the durations. *)
Definition close_session (s : open_session) : session :=
  let duration := float_div_int (total_seconds (o_end s - o_start s)) 60 in
  {| start := o_start s;
     end_ := o_end s;
     entries := o_entries s;
     domains := o_domains s;
     duration_minutes := round2 duration;
     entry_count := length (o_entries s);
     unique_domains := size (o_domains s) |}.

Definition calculate_session_duration (entries : list HistoryEntry)
  (session_gap_minutes : Z) : list session :=
  match entries with
  | [] => []
  | _ :: _ =>
      match sorted_by_visit_time entries with
      | [] => []
      | first :: rest =>
          map close_session
            (session_loop session_gap_minutes [] (new_session first) first rest)
      end
  end.

End Analytics.

(** ** The file system the parsers run on *)

Module Files.

Local Open Scope Z_scope.

Inductive kind : Type := Regular | Directory.

(** A file or a directory under its path.  [n_readable] is the answer of
    [os.access(path, os.R_OK)].  [n_read_error] is the error a read of the
    data ends in, if any: a sharing violation while another process holds
    the file, a failing medium. *)
Record node : Type := {
  n_kind : kind;
  n_mode : Z;
  n_data : list Byte.byte;
  n_readable : bool;
  n_read_error : option pyexc
}.

Inductive access : Type := ReadOnly | ReadWrite.

(** What the program asks of the operating system, in order. *)
Inductive event : Type :=
| EvOpen (path : string) (a : access)
| EvMkdir (path : string)
| EvChmod (path : string) (mode : Z)
| EvUnlink (path : string).

(** Paths are the names of the files: one name per file, no links.
    [names] are the random names [tempfile] will draw, [tmpdir] is
    [tempfile.gettempdir()]. *)
Record world : Type := {
  files : gmap string node;
  names : list string;
  tmpdir : string;
  trace : list event
}.

Definition set_files (w : world) (fs : gmap string node) : world :=
  {| files := fs; names := names w; tmpdir := tmpdir w; trace := trace w |}.

Definition log (w : world) (ev : event) : world :=
  {| files := files w; names := names w; tmpdir := tmpdir w;
     trace := trace w ++ [ev] |}.

(** A computation on the world that returns or raises. *)
Definition M (A : Type) : Type := world -> pyresult A * world.

Definition ret {A} (a : A) : M A := fun w => (Ok a, w).
Definition raise {A} (e : pyexc) : M A := fun w => (Raise e, w).

Definition bindM {A B} (m : M A) (k : A -> M B) : M B :=
  fun w =>
    match m w with
    | (Ok a, w') => k a w'
    | (Raise e, w') => (Raise e, w')
    end.

(** [try: m except Exception as e: h e] *)
Definition try_except {A} (m : M A) (h : pyexc -> M A) : M A :=
  fun w =>
    match m w with
    | (Ok a, w') => (Ok a, w')
    | (Raise e, w') => h e w'
    end.

(** [try: m finally: f] *)
Definition try_finally {A} (m : M A) (f : M unit) : M A :=
  fun w =>
    match m w with
    | (r, w') =>
        match f w' with
        | (Ok _, w'') => (r, w'')
        | (Raise e, w'') => (Raise e, w'')
        end
    end.

#[global] Instance M_ret : MRet M := @ret.
#[global] Instance M_bind : MBind M := fun A B k m => bindM m k.

Definition lookup_node (path : string) : M (option node) :=
  fun w => (Ok (files w !! path), w).

(** [os.path.exists], [Path.is_file], [os.access(path, os.R_OK)],
    [Path.stat().st_size] and [stat.S_IMODE(Path.stat().st_mode)] *)
Definition exists_ (path : string) : M bool :=
  o ← lookup_node path;
  ret (match o with Some _ => true | None => false end).

Definition is_file (path : string) : M bool :=
  o ← lookup_node path;
  ret (match o with
       | Some n => match n_kind n with Regular => true | Directory => false end
       | None => false
       end).

Definition access_R_OK (path : string) : M bool :=
  o ← lookup_node path;
  ret (match o with Some n => n_readable n | None => false end).

Definition st_size (path : string) : M Z :=
  o ← lookup_node path;
  match o with
  | Some n => ret (Z.of_nat (length (n_data n)))
  | None => raise (OSError "[Errno 2] No such file or directory")
  end.

Definition st_mode (path : string) : M Z :=
  o ← lookup_node path;
  match o with
  | Some n => ret (n_mode n)
  | None => raise (OSError "[Errno 2] No such file or directory")
  end.

Definition emit (ev : event) : M unit := fun w => (Ok tt, log w ev).

Definition put_node (path : string) (n : node) : M unit :=
  fun w => (Ok tt, set_files w (<[path := n]> (files w))).

Definition delete_node (path : string) : M unit :=
  fun w => (Ok tt, set_files w (delete path (files w))).

(** [open(path, 'rb')] and reading the file to its end. *)
Definition read_file (path : string) : M (list Byte.byte) :=
  emit (EvOpen path ReadOnly);;
  o ← lookup_node path;
  match o with
  | None => raise (OSError "[Errno 2] No such file or directory")
  | Some n =>
      match n_kind n with
      | Directory => raise (OSError "[Errno 21] Is a directory")
      | Regular =>
          if negb (n_readable n) then
            raise (PermissionError "[Errno 13] Permission denied")
          else
            match n_read_error n with
            | Some e => raise e
            | None => ret (n_data n)
            end
      end
  end.

Definition empty_file (mode : Z) : node :=
  {| n_kind := Regular; n_mode := mode; n_data := [];
     n_readable := true; n_read_error := None |}.

(** [os.open(path, O_RDWR | O_CREAT | O_EXCL, 0o600)] *)
Definition create_exclusive (path : string) : M unit :=
  emit (EvOpen path ReadWrite);;
  o ← lookup_node path;
  match o with
  | Some _ => raise (FileExistsError "[Errno 17] File exists")
  | None => put_node path (empty_file 384)
  end.

(** Writing [data] through a descriptor that is open on [path]. *)
Definition write_data (path : string) (data : list Byte.byte) : M unit :=
  o ← lookup_node path;
  match o with
  | Some n =>
      put_node path
        {| n_kind := n_kind n; n_mode := n_mode n; n_data := data;
           n_readable := n_readable n; n_read_error := n_read_error n |}
  | None => put_node path
              {| n_kind := Regular; n_mode := 384; n_data := data;
                 n_readable := true; n_read_error := None |}
  end.

(** [os.chmod(path, mode)] *)
Definition chmod (path : string) (mode : Z) : M unit :=
  emit (EvChmod path mode);;
  o ← lookup_node path;
  match o with
  | None => raise (OSError "[Errno 2] No such file or directory")
  | Some n =>
      put_node path
        {| n_kind := n_kind n; n_mode := mode; n_data := n_data n;
           n_readable := n_readable n; n_read_error := n_read_error n |}
  end.

(** [Path.mkdir(mode=mode, exist_ok=True)] *)
Definition mkdir (path : string) (mode : Z) : M unit :=
  emit (EvMkdir path);;
  o ← lookup_node path;
  match o with
  | Some n =>
      match n_kind n with
      | Directory => ret tt
      | Regular => raise (FileExistsError "[Errno 17] File exists")
      end
  | None =>
      put_node path
        {| n_kind := Directory; n_mode := mode; n_data := [];
           n_readable := true; n_read_error := None |}
  end.

(** [os.unlink(path)] *)
Definition unlink (path : string) : M unit :=
  emit (EvUnlink path);;
  o ← lookup_node path;
  match o with
  | None => raise (OSError "[Errno 2] No such file or directory")
  | Some n =>
      match n_kind n with
      | Directory => raise (OSError "[Errno 21] Is a directory")
      | Regular => delete_node path
      end
  end.

(** [os.path.basename]: what follows the last slash. *)
Fixpoint basename_from (acc s : string) : string :=
  match s with
  | EmptyString => acc
  | String c s' =>
      if Ascii.eqb c "/" then basename_from "" s'
      else basename_from (acc +:+ String c EmptyString) s'
  end.

Definition basename (s : string) : string := basename_from "" s.

(** [shutil.copy2(src, dst)]: into the directory [dst] when it is one;
    the data and the permission bits are copied. *)
Definition copy2 (src dst : string) : M unit :=
  d ← lookup_node dst;
  let target :=
    match d with
    | Some n =>
        match n_kind n with
        | Directory => dst +:+ "/" +:+ basename src
        | Regular => dst
        end
    | None => dst
    end in
  if String.eqb src target then raise (OSError "are the same file")
  else
    data ← read_file src;
    emit (EvOpen target ReadWrite);;
    t ← lookup_node target;
    match t with
    | Some n =>
        match n_kind n with
        | Directory => raise (OSError "[Errno 21] Is a directory")
        | Regular => ret tt
        end
    | None => ret tt
    end;;
    write_data target data;;
    m ← st_mode src;
    o ← lookup_node target;
    match o with
    | Some n =>
        put_node target
          {| n_kind := n_kind n; n_mode := m; n_data := n_data n;
             n_readable := n_readable n; n_read_error := n_read_error n |}
    | None => ret tt
    end.

(** [tempfile.NamedTemporaryFile(mode='w+b', delete=False, dir=dir,
    suffix=suffix, prefix=prefix)]: the first drawn name that is free is
    created exclusively; a taken name is skipped. *)
Fixpoint first_free (fs : gmap string node) (dir prefix suffix : string)
  (candidates : list string) : option string * list string :=
  match candidates with
  | [] => (None, [])
  | name :: rest =>
      let file := dir +:+ "/" +:+ prefix +:+ name +:+ suffix in
      match fs !! file with
      | None => (Some file, rest)
      | Some _ => first_free fs dir prefix suffix rest
      end
  end.

Definition draw_name (dir prefix suffix : string) : M (option string) :=
  fun w =>
    let '(file, rest) :=
      first_free (files w) dir prefix suffix (names w) in
    (Ok file,
     {| files := files w; names := rest; tmpdir := tmpdir w;
        trace := trace w |}).

Definition NamedTemporaryFile (dir prefix suffix : string) : M string :=
  d ← lookup_node dir;
  match d with
  | Some {| n_kind := Directory |} =>
      file ← draw_name dir prefix suffix;
      match file with
      | Some file => create_exclusive file;; ret file
      | None =>
          raise (FileExistsError "No usable temporary file name found")
      end
  | _ => raise (OSError "[Errno 2] No such file or directory")
  end.

End Files.

(** ** [src/utils/security.py]: [validate_database_path] *)

Module Security.

Import Files.
Local Open Scope Z_scope.

Definition MAX_DB_SIZE : Z := 10 * 1024 * 1024 * 1024.

Definition dangerous_prefixes : list string :=
  ["/etc"; "/sys"; "/proc"; "/dev"; "/boot"].

Definition allowed_extensions : list string := [".db"; ".sqlite"; ".sqlite3"].

(** [any(str(path).lower().endswith(ext) for ext in allowed_extensions)] *)
Definition has_allowed_extension (path : string) : bool :=
  existsb (fun ext => PyStr.endswith ext (PyStr.lower path)) allowed_extensions.

(** The system is Unix-like ([os.name != 'nt']); [Path.resolve] returns the
    path, which is already the name of the file. *)
Definition validate_database_path (db_path : string) : M bool :=
  try_except
    (e ← exists_ db_path;
     if negb e then ret false
     else
       f ← is_file db_path;
       if negb f then ret false
       else if existsb (fun prefix => PyStr.startswith prefix db_path)
                 dangerous_prefixes
       then ret false
       else
         size ← st_size db_path;
         if MAX_DB_SIZE <? size then ret false
         else if negb (has_allowed_extension db_path) then ret false
         else ret true)
    (fun _ => ret false).

End Security.

(** ** [src/core/models.py]: [calculate_file_hash] *)

Module Hashing.

Import Files.

(** [hashlib.sha256]: the hexadecimal digest of a byte string. *)
Class Hashlib : Type := {
  sha256_hexdigest : list Byte.byte -> string
}.

(** The blocks of 4096 bytes are fed to one digest, so the result is the
    digest of the whole file; any exception of the read is turned into a
    string. *)
Definition calculate_file_hash `{Hashlib} (file_path : string) : M string :=
  try_except
    (data ← read_file file_path;
     ret (sha256_hexdigest data))
    (fun e => ret ("ERROR: " +:+ exc_str e)).

(** A SHA-256 digest in hexadecimal: 64 characters of [0-9a-f]. *)
Definition is_hex_char (c : ascii) : bool :=
  let n := nat_of_ascii c in
  (((48 <=? n) && (n <=? 57)) || ((97 <=? n) && (n <=? 102)))%nat.

Fixpoint all_hex (s : string) : bool :=
  match s with
  | EmptyString => true
  | String c s' => is_hex_char c && all_hex s'
  end.

Definition is_sha256_hex (s : string) : bool :=
  (String.length s =? 64)%nat && all_hex s.

End Hashing.

(** ** [src/core/parsers/base_parser.py] *)

Module BaseParser.

Import Files Security Hashing.
Local Open Scope Z_scope.

(** The attributes of a [BaseParser]; [_conn] holds the path the
    connection is open on. *)
Record parser : Type := {
  db_path : string;
  file_hash : string;
  temp_db_path : option string;
  _conn : option string
}.

Definition set_temp_db_path (self : parser) (t : option string) : parser :=
  {| db_path := db_path self; file_hash := file_hash self;
     temp_db_path := t; _conn := _conn self |}.

Definition set_conn (self : parser) (c : option string) : parser :=
  {| db_path := db_path self; file_hash := file_hash self;
     temp_db_path := temp_db_path self; _conn := c |}.

Section WithHash.
Context `{Hashlib}.

Definition __init__ (db_path : string) : M parser :=
  v ← validate_database_path db_path;
  if negb v then
    raise (ValueError
      "Invalid or unsafe database path. File must be a regular database file.")
  else
    f ← is_file db_path;
    if negb f then raise (ValueError "Database path must be a regular file")
    else
      a ← access_R_OK db_path;
      if negb a then raise (PermissionError "Database file is not readable")
      else
        h ← try_except (calculate_file_hash db_path)
              (fun _ => raise (ValueError "Failed to verify file integrity"));
        ret {| db_path := db_path; file_hash := h;
               temp_db_path := None; _conn := None |}.

End WithHash.

Definition gettempdir : M string := fun w => (Ok (tmpdir w), w).

(** One turn of the loop [for ext in ['-wal', '-shm']] of
    [_create_temp_copy]. *)
Definition copy_sidecar (self : parser) (temp_path ext : string) : M unit :=
  let wal_path := db_path self +:+ ext in
  e ← exists_ wal_path;
  if negb e then ret tt
  else
    try_except
      (let wal_temp_path := temp_path +:+ ext in
       copy2 wal_path wal_temp_path;;
       chmod wal_temp_path 384)
      (fun _ => ret tt).

(** Modes: [0o700 = 448], [0o600 = 384]. *)
Definition _create_temp_copy (self : parser) : M string :=
  try_except
    (tmp ← gettempdir;
     let temp_dir := tmp +:+ "/" +:+ "BrowserHunter" in
     e ← exists_ temp_dir;
     (if negb e then mkdir temp_dir 448
      else
        current_mode ← st_mode temp_dir;
        if negb (current_mode =? 448) then chmod temp_dir 448 else ret tt);;
     temp_path ← NamedTemporaryFile temp_dir "bhh_" ".db";
     data ← read_file (db_path self);
     write_data temp_path data;;
     chmod temp_path 384;;
     copy_sidecar self temp_path "-wal";;
     copy_sidecar self temp_path "-shm";;
     ret temp_path)
    (fun _ => raise (RuntimeError "Failed to create temporary database copy")).

(** [sqlite3.connect(f'file:{path}?mode=ro', uri=True)] *)
Definition sqlite3_connect_ro (path : string) : M string :=
  emit (EvOpen path ReadOnly);;
  e ← is_file path;
  if negb e then raise (OperationalError "unable to open database file")
  else ret path.

(** [connect] changes the object before it may raise, so the object comes
    back next to the outcome. *)
Definition connect (self : parser) : M (parser * pyresult string) :=
  match _conn self with
  | Some conn => ret (self, Ok conn)
  | None =>
      try_except
        (temp ← _create_temp_copy self;
         let self := set_temp_db_path self (Some temp) in
         try_except
           (conn ← sqlite3_connect_ro temp;
            ret (set_conn self (Some conn), Ok conn))
           (fun e => ret (self, Raise e)))
        (fun e => ret (self, Raise e))
  end.

(** One turn of the loop [for ext in ['-wal', '-shm']] of [close]. *)
Definition remove_sidecar (temp_db_path ext : string) : M unit :=
  let wal_path := temp_db_path +:+ ext in
  e ← exists_ wal_path;
  if negb e then ret tt else try_except (unlink wal_path) (fun _ => ret tt).

(** Closing the connection touches no file: it was opened read-only. *)
Definition close (self : parser) : M parser :=
  let self := match _conn self with
              | Some _ => set_conn self None
              | None => self
              end in
  match temp_db_path self with
  | Some temp =>
      if String.eqb temp "" then ret self
      else
        e ← exists_ temp;
        if negb e then ret self
        else
          try_except (unlink temp) (fun _ => ret tt);;
          remove_sidecar temp "-wal";;
          remove_sidecar temp "-shm";;
          ret self
  | None => ret self
  end.

Section WithHash.
Context `{Hashlib}.

(** [with Parser(db_path) as p: pass]: the constructor, [__enter__] and,
    when that returned, [__exit__]. *)
Definition acquire_then_close (db_path : string) : M unit :=
  self ← __init__ db_path;
  '(self, entered) ← connect self;
  match entered with
  | Ok _ => close self;; ret tt
  | Raise e => raise e
  end.

End WithHash.

End BaseParser.

(** ** [src/core/parsers/generic_parser.py] *)

Module GenericSQLiteParser.

Import PyNum.
Local Open Scope Z_scope.

(** *** The database behind the connection *)

(** A value of a row, as the [sqlite3] module hands it over. *)
Inductive value : Type :=
| Null
| Integer (n : Z)
| Real (x : spec_float)
| Text (s : string)
| Blob (b : list Byte.byte).

(** A row of [PRAGMA table_info]. *)
Record column_info : Type := {
  cid : Z;
  name : string;
  type : string;
  notnull : Z;
  dflt_value : value;
  pk : Z
}.

Record table : Type := {
  t_name : string;
  t_columns : list column_info;
  t_rows : list (list value)
}.

(** Every table of the file, the internal ones ([sqlite_sequence], ...)
    included.  The connection is open, read-only, on this snapshot. *)
Definition database : Type := list table.

(** What the [sqlite3] and [bytes] libraries compute: [v LIKE pattern],
    [b.decode('utf-8')] ([None] when it raises), [str(b)], and
    [sqlite_other], the answer of [cursor.execute(text, params)] with
    [fetchall()] to a text that names something else than a table or a
    column of the snapshot. *)
Class Externals : Type := {
  sql_like : value -> string -> bool;
  decode_utf8 : list Byte.byte -> option string;
  bytes_str : list Byte.byte -> string;
  sqlite_other : database -> string -> list value
                 -> pyresult (list (list value))
}.

(** The statements the parser sends.  The strings are the table and column
    names that the f-strings put into the SQL text. *)
Inductive sql : Type :=
| SelectTableNames
| PragmaTableInfo (table_name : string)
| SelectAll (table_name : string) (limit_offset : option (Z * Z))
| SelectCount (table_name : string)
| SelectLike (table_name : string) (columns : list string).

Definition str_int (n : Z) : string := NilZero.string_of_int (Z.to_int n).

(** The SQL text of a statement, as the f-strings build it (the fixed
    [sqlite_master] query on one line). *)
Definition sql_text (q : sql) : string :=
  match q with
  | SelectTableNames =>
      "SELECT name FROM sqlite_master WHERE type='table' "
      +:+ "AND name NOT LIKE 'sqlite_%' ORDER BY name"
  | PragmaTableInfo table_name => "PRAGMA table_info(" +:+ table_name +:+ ")"
  | SelectAll table_name limit_offset =>
      "SELECT * FROM " +:+ table_name
      +:+ match limit_offset with
          | Some (limit, offset) =>
              " LIMIT " +:+ str_int limit +:+ " OFFSET " +:+ str_int offset
          | None => ""
          end
  | SelectCount table_name =>
      "SELECT COUNT(" +:+ "*" +:+ ") FROM " +:+ table_name
  | SelectLike table_name columns =>
      "SELECT * FROM " +:+ table_name +:+ " WHERE "
      +:+ PyStr.join " OR " (map (fun col => col +:+ " LIKE ?") columns)
  end.

(** The table and column names written into the text of a statement. *)
Definition interpolated_tables (q : sql) : list string :=
  match q with
  | SelectTableNames => []
  | PragmaTableInfo t | SelectAll t _ | SelectCount t | SelectLike t _ => [t]
  end.

Definition interpolated_columns (q : sql) : list string :=
  match q with
  | SelectLike _ columns => columns
  | _ => []
  end.

(** *** How SQLite reads a name written into a statement

    The f-strings write a name as it is, without quotes, so SQLite reads
    it as SQL. *)

(** The keywords of SQLite. *)
Definition keywords : list string :=
  ["abort"; "action"; "add"; "after"; "all"; "alter"; "always"; "analyze";
   "and"; "as"; "asc"; "attach"; "autoincrement"; "before"; "begin";
   "between"; "by"; "cascade"; "case"; "cast"; "check"; "collate";
   "column"; "commit"; "conflict"; "constraint"; "create"; "cross";
   "current"; "current_date"; "current_time"; "current_timestamp";
   "database"; "default"; "deferrable"; "deferred"; "delete"; "desc";
   "detach"; "distinct"; "do"; "drop"; "each"; "else"; "end"; "escape";
   "except"; "exclude"; "exclusive"; "exists"; "explain"; "fail";
   "filter"; "first"; "following"; "for"; "foreign"; "from"; "full";
   "generated"; "glob"; "group"; "groups"; "having"; "if"; "ignore";
   "immediate"; "in"; "index"; "indexed"; "initially"; "inner"; "insert";
   "instead"; "intersect"; "into"; "is"; "isnull"; "join"; "key"; "last";
   "left"; "like"; "limit"; "match"; "materialized"; "natural"; "no";
   "not"; "nothing"; "notnull"; "null"; "nulls"; "of"; "offset"; "on";
   "or"; "order"; "others"; "outer"; "over"; "partition"; "plan";
   "pragma"; "preceding"; "primary"; "query"; "raise"; "range";
   "recursive"; "references"; "regexp"; "reindex"; "release"; "rename";
   "replace"; "restrict"; "returning"; "right"; "rollback"; "row"; "rows";
   "savepoint"; "select"; "set"; "table"; "temp"; "temporary"; "then";
   "ties"; "to"; "transaction"; "trigger"; "unbounded"; "union"; "unique";
   "update"; "using"; "vacuum"; "values"; "view"; "virtual"; "when";
   "where"; "window"; "with"; "without"].

(** The keywords that are no name anywhere: where one of them stands for
    the table of [PRAGMA table_info(...)] or of [FROM], or for a column
    before [LIKE], the statement is not SQL. *)
Definition reserved_words : list string :=
  ["add"; "all"; "alter"; "and"; "as"; "autoincrement"; "between";
   "check"; "collate"; "commit"; "constraint"; "create"; "deferrable";
   "distinct"; "drop"; "else"; "escape"; "except"; "foreign"; "from";
   "group"; "having"; "in"; "index"; "insert"; "intersect"; "into"; "is";
   "isnull"; "join"; "limit"; "notnull"; "or"; "order"; "primary";
   "references"; "select"; "set"; "table"; "then"; "to"; "transaction";
   "union"; "unique"; "update"; "using"; "values"; "when"; "where"].

Definition identifier_start (c : ascii) : bool :=
  let n := PyStr.code c in
  (((65 <=? n) && (n <=? 90)) || ((97 <=? n) && (n <=? 122))
   || (n =? 95))%nat.

Definition identifier_char (c : ascii) : bool :=
  let n := PyStr.code c in
  identifier_start c || ((48 <=? n) && (n <=? 57))%nat.

(** A name SQLite reads as one identifier: ASCII letters, digits and
    underscores, no digit first, and no keyword in any case of the
    letters. *)
Definition plain_identifier (s : string) : bool :=
  match s with
  | EmptyString => false
  | String c s' =>
      identifier_start c
      && forallb identifier_char (list_ascii_of_string s')
      && negb (Search.in_list (PyStr.lower s) keywords)
  end.

Definition reserved (s : string) : bool :=
  Search.in_list (PyStr.lower s) reserved_words.

(** [near "w": syntax error] *)
Definition syntax_error_near (w : string) : pyexc :=
  OperationalError
    ("near " +:+ String Search.dquote w +:+ String Search.dquote ": syntax error").

Fixpoint find_table (db : database) (table_name : string) : option table :=
  match db with
  | [] => None
  | t :: db' =>
      if String.eqb (t_name t) table_name then Some t
      else find_table db' table_name
  end.

(** [name NOT LIKE 'sqlite_%']: [_] stands for any one character and
    [LIKE] ignores the case of ASCII letters. *)
Definition like_sqlite_ (name : string) : bool :=
  (7 <=? String.length name)%nat
  && String.eqb (PyStr.lower (substring 0 6 name)) "sqlite".

Fixpoint insert_name (x : string) (l : list string) : list string :=
  match l with
  | [] => [x]
  | y :: l' => if String.leb x y then x :: y :: l' else y :: insert_name x l'
  end.

(** The answer to the [sqlite_master] query: the names of the user tables,
    ordered. *)
Definition user_tables (db : database) : list string :=
  fold_right insert_name []
    (map t_name (List.filter (fun t => negb (like_sqlite_ (t_name t))) db)).

Definition column_row (c : column_info) : list value :=
  [Integer (cid c); Text (name c); Text (type c); Integer (notnull c);
   dflt_value c; Integer (pk c)].

Fixpoint column_index (cols : list column_info) (col : string) : option nat :=
  match cols with
  | [] => None
  | c :: cols' =>
      if String.eqb (name c) col then Some 0%nat
      else option_map S (column_index cols' col)
  end.

Section WithExternals.
Context `{Externals}.

(** [col LIKE ?] on a row, with the bound parameter. *)
Definition like_condition (t : table) (row : list value)
  (col : string) (param : value) : pyresult bool :=
  match column_index (t_columns t) col, param with
  | Some i, Text pattern => Ok (sql_like (nth i row Null) pattern)
  | Some _, _ => Ok false
  | None, _ => Raise (OperationalError ("no such column: " +:+ col))
  end.

Fixpoint any_like (t : table) (row : list value)
  (conds : list (string * value)) : pyresult bool :=
  match conds with
  | [] => Ok false
  | (col, param) :: conds' =>
      bind (like_condition t row col param)
        (fun b => if b then Ok true else any_like t row conds')
  end.

Fixpoint select_like (t : table) (rows : list (list value))
  (conds : list (string * value)) : pyresult (list (list value)) :=
  match rows with
  | [] => Ok []
  | row :: rows' =>
      bind (any_like t row conds)
        (fun b =>
           bind (select_like t rows' conds)
             (fun rest => Ok (if b then row :: rest else rest)))
  end.

(** A statement whose names are all plain identifiers.  A name that is
    written like a table or a column of the snapshot stands for it; the
    bound parameters are as many as the [?] of the text.  A negative
    [LIMIT] means no limit.  Any other name (a view, the schema table, a
    name in other letter case, ...) is left to [sqlite_other]. *)
Definition run_plain (db : database) (q : sql) (params : list value)
  : pyresult (list (list value)) :=
  match q with
  | SelectTableNames => Ok (map (fun n => [Text n]) (user_tables db))
  | PragmaTableInfo table_name =>
      match find_table db table_name with
      | Some t => Ok (map column_row (t_columns t))
      | None => sqlite_other db (sql_text q) params
      end
  | SelectAll table_name limit_offset =>
      match find_table db table_name with
      | None => sqlite_other db (sql_text q) params
      | Some t =>
          match limit_offset with
          | None => Ok (t_rows t)
          | Some (limit, offset) =>
              let rest := skipn (Z.to_nat offset) (t_rows t) in
              Ok (if limit <? 0 then rest else firstn (Z.to_nat limit) rest)
          end
      end
  | SelectCount table_name =>
      match find_table db table_name with
      | None => sqlite_other db (sql_text q) params
      | Some t => Ok [[Integer (Z.of_nat (length (t_rows t)))]]
      end
  | SelectLike table_name columns =>
      match columns with
      | [] => Raise (OperationalError "incomplete input")
      | _ =>
          match find_table db table_name with
          | None => sqlite_other db (sql_text q) params
          | Some t =>
              if forallb
                   (fun col => bool_decide
                                 (is_Some (column_index (t_columns t) col)))
                   columns
                 && (length columns =? length params)%nat
              then select_like t (t_rows t) (combine columns params)
              else sqlite_other db (sql_text q) params
          end
      end
  end.

(** [cursor.execute(query, params)] followed by [fetchall()].  SQLite
    reads the text from the left: the first name in it that is no plain
    identifier decides.  A reserved word there ends the statement with a
    syntax error; any other text (blanks, quotes, operators, a keyword
    that may be a name, ...) is left to [sqlite_other]. *)
Definition run (db : database) (q : sql) (params : list value)
  : pyresult (list (list value)) :=
  match List.find (fun s => negb (plain_identifier s))
          (interpolated_tables q ++ interpolated_columns q) with
  | Some w =>
      if reserved w then Raise (syntax_error_near w)
      else sqlite_other db (sql_text q) params
  | None => run_plain db q params
  end.

(** *** The parser object *)

(** [_valid_tables] is the cache of table names; [executed] lists the
    statements sent through the connection, each with its bound
    parameters; [db] is the snapshot. *)
Record parser : Type := {
  db : database;
  _valid_tables : option (list string);
  executed : list (sql * list value)
}.

Definition G (A : Type) : Type := parser -> pyresult A * parser.

Definition gret {A} (a : A) : G A := fun self => (Ok a, self).
Definition graise {A} (e : pyexc) : G A := fun self => (Raise e, self).
Definition gbind {A B} (m : G A) (k : A -> G B) : G B :=
  fun self =>
    match m self with
    | (Ok a, self') => k a self'
    | (Raise e, self') => (Raise e, self')
    end.

#[global] Instance G_ret : MRet G := @gret.
#[global] Instance G_bind : MBind G := fun A B k m => gbind m k.

Definition execute (q : sql) (params : list value) : G (list (list value)) :=
  fun self =>
    (run (db self) q params,
     {| db := db self; _valid_tables := _valid_tables self;
        executed := executed self ++ [(q, params)] |}).

Definition set_valid_tables (tables : list string) : G unit :=
  fun self =>
    (Ok tt,
     {| db := db self; _valid_tables := Some tables;
        executed := executed self |}).

Definition get_valid_tables : G (option (list string)) :=
  fun self => (Ok (_valid_tables self), self).

(** [row[i]] read as a string or as an integer. *)
Definition as_str (v : value) : string :=
  match v with Text s => s | _ => "" end.

Definition as_int (v : value) : Z :=
  match v with Integer n => n | _ => 0 end.

Definition get_tables : G (list string) :=
  rows ← execute SelectTableNames [];
  let tables := map (fun row => as_str (nth 0 row Null)) rows in
  set_valid_tables tables;;
  gret tables.

Definition _validate_table_name (table_name : string) : G bool :=
  cache ← get_valid_tables;
  match cache with
  | None =>
      tables ← get_tables;
      set_valid_tables tables;;
      gret (Search.in_list table_name tables)
  | Some tables => gret (Search.in_list table_name tables)
  end.

Definition get_table_info (table_name : string) : G (list column_info) :=
  valid ← _validate_table_name table_name;
  if negb valid then
    graise (ValueError ("Invalid table name: " +:+ table_name))
  else
    rows ← execute (PragmaTableInfo table_name) [];
    gret (map (fun row =>
                 {| cid := as_int (nth 0 row Null);
                    name := as_str (nth 1 row Null);
                    type := as_str (nth 2 row Null);
                    notnull := as_int (nth 3 row Null);
                    dflt_value := nth 4 row Null;
                    pk := as_int (nth 5 row Null) |}) rows).

Definition get_column_names (table_name : string) : G (list string) :=
  columns_info ← get_table_info table_name;
  gret (map name columns_info).

(** The conversion of a [bytes] value in the row loops. *)
Definition convert (v : value) : value :=
  match v with
  | Blob b =>
      match decode_utf8 b with
      | Some s => Text s
      | None => Text (bytes_str b)
      end
  | _ => v
  end.

(** The loop [for idx, col_name in enumerate(columns)] that fills
    [row_dict]; [row[idx]] raises past the end of the row. *)
Fixpoint fill_row_dict (row_dict : gmap string value) (idx : nat)
  (columns : list string) (row : list value)
  : pyresult (gmap string value) :=
  match columns with
  | [] => Ok row_dict
  | col_name :: columns' =>
      match nth_error row idx with
      | None => Raise (IndexError "index out of range")
      | Some v =>
          fill_row_dict (<[col_name := convert v]> row_dict) (S idx)
            columns' row
      end
  end.

Fixpoint rows_to_dicts (columns : list string) (rows : list (list value))
  : pyresult (list (gmap string value)) :=
  match rows with
  | [] => Ok []
  | row :: rows' =>
      bind (fill_row_dict ∅ 0 columns row)
        (fun row_dict =>
           bind (rows_to_dicts columns rows')
             (fun rest => Ok (row_dict :: rest)))
  end.

Definition lift {A} (r : pyresult A) : G A := fun self => (r, self).

(** [if limit:] holds for an integer other than [0]. *)
Definition truthy (limit : option Z) : bool :=
  match limit with
  | Some l => negb (l =? 0)
  | None => false
  end.

Definition get_table_data (table_name : string) (limit : option Z)
  (offset : Z) : G (list string * list (gmap string value)) :=
  valid ← _validate_table_name table_name;
  if negb valid then
    graise (ValueError ("Invalid table name: " +:+ table_name))
  else
    columns ← get_column_names table_name;
    let query :=
      match limit with
      | Some l =>
          if negb (l =? 0) then
            SelectAll table_name (Some (Z.max 0 l, Z.max 0 offset))
          else SelectAll table_name None
      | None => SelectAll table_name None
      end in
    fetched ← execute query [];
    rows ← lift (rows_to_dicts columns fetched);
    gret (columns, rows).

Definition get_row_count (table_name : string) : G Z :=
  valid ← _validate_table_name table_name;
  if negb valid then
    graise (ValueError ("Invalid table name: " +:+ table_name))
  else
    rows ← execute (SelectCount table_name) [];
    gret (as_int (nth 0 (nth 0 rows []) Null)).

Definition search_table (table_name search_term : string)
  (columns : option (list string)) : G (list (gmap string value)) :=
  columns ← match columns with
            | None => get_column_names table_name
            | Some columns => gret columns
            end;
  let query := SelectLike table_name columns in
  let params := map (fun _ => Text ("%" +:+ search_term +:+ "%")) columns in
  fetched ← execute query params;
  all_columns ← get_column_names table_name;
  lift (rows_to_dicts all_columns fetched).

End WithExternals.

End GenericSQLiteParser.

(** ** Python's [sorted] *)

Module PyList.

(** [sorted(l, key=..., reverse=...)] is a stable sort.  It is written as
    insertion from the right: an element goes before the first element it
    may precede, where [before x y] says that [x], met first, stays before
    [y] (the key of [y] is not smaller, or with [reverse=True] not
    greater). *)
Fixpoint insert_sorted {A} (before : A -> A -> bool) (x : A) (l : list A)
  : list A :=
  match l with
  | [] => [x]
  | y :: l' =>
      if before x y then x :: y :: l' else y :: insert_sorted before x l'
  end.

Definition sorted {A} (before : A -> A -> bool) (l : list A) : list A :=
  fold_right (insert_sorted before) [] l.

(** [l[:n]] for an [int] [n]: a negative [n] counts from the end. *)
Definition slice_to {A} (n : Z) (l : list A) : list A :=
  if (n <? 0)%Z then firstn (length l - Z.to_nat (- n)) l
  else firstn (Z.to_nat n) l.

End PyList.

(** ** [src/core/search.py]: [SortOptions] *)

Module SortOptions.

Import PyNum Models.

Definition SORT_BY_DATE : string := "date".
Definition SORT_BY_URL : string := "url".
Definition SORT_BY_TITLE : string := "title".
Definition SORT_BY_DOMAIN : string := "domain".
Definition SORT_BY_VISIT_COUNT : string := "visit_count".
Definition SORT_BY_BROWSER : string := "browser".

(** What a key function returns: a [datetime] or an [int], or a [str]. *)
Inductive key : Type :=
| IntKey (n : Z)
| StrKey (s : string).

(** [x.title or ""] *)
Definition title_or_empty (x : HistoryEntry) : string :=
  match title x with
  | Some t => t
  | None => ""
  end.

(** [sort_key_map.get(sort_by, sort_key_map[SortOptions.SORT_BY_DATE])]
    applied to an entry. *)
Definition sort_key (sort_by : string) (x : HistoryEntry) : key :=
  if String.eqb sort_by SORT_BY_DATE then IntKey (visit_time x)
  else if String.eqb sort_by SORT_BY_URL then StrKey (PyStr.lower (url x))
  else if String.eqb sort_by SORT_BY_TITLE
  then StrKey (PyStr.lower (title_or_empty x))
  else if String.eqb sort_by SORT_BY_DOMAIN
  then StrKey (PyStr.lower (domain x))
  else if String.eqb sort_by SORT_BY_VISIT_COUNT then IntKey (visit_count x)
  else if String.eqb sort_by SORT_BY_BROWSER
  then StrKey (PyStr.lower (browser x))
  else IntKey (visit_time x).

(** [a <= b] on keys: numbers by value, strings by code points.  The keys
    of one sort are all of one kind; across kinds the order is fixed here
    only to have one. *)
Definition key_le (a b : key) : bool :=
  match a, b with
  | IntKey m, IntKey n => (m <=? n)%Z
  | StrKey s, StrKey t => String.leb s t
  | IntKey _, StrKey _ => true
  | StrKey _, IntKey _ => false
  end.

(** [sorted(entries, key=sort_key, reverse=not ascending)].  The keys of
    one call are all numbers or all strings, so the comparison raises
    nothing and the [except] branch, which returns [entries], is not
    taken. *)
Definition sort (entries : list HistoryEntry) (sort_by : string)
  (ascending : bool) : list HistoryEntry :=
  match entries with
  | [] => entries
  | _ :: _ =>
      let reverse := negb ascending in
      PyList.sorted
        (fun x y =>
           if reverse then key_le (sort_key sort_by y) (sort_key sort_by x)
           else key_le (sort_key sort_by x) (sort_key sort_by y))
        entries
  end.

End SortOptions.

(** ** Python's [dict], [defaultdict] and [Counter] *)

Module PyDict.

(** A dictionary keeps its keys in the order they were first set: a list
    of pairs with one pair per key. *)
Definition dict (K V : Type) : Type := list (K * V).

Section Dict.
Context {K V : Type} `{EqDecision K}.

(** [d.get(k)] *)
Fixpoint get (d : dict K V) (k : K) : option V :=
  match d with
  | [] => None
  | (k', v) :: d' => if decide (k' = k) then Some v else get d' k
  end.

(** [d[k] = f(d.get(k))]: a key the dictionary has keeps its place, a new
    key goes to the end. *)
Fixpoint upsert (k : K) (f : option V -> V) (d : dict K V) : dict K V :=
  match d with
  | [] => [(k, f None)]
  | (k', v) :: d' =>
      if decide (k' = k) then (k', f (Some v)) :: d'
      else (k', v) :: upsert k f d'
  end.

Definition keys (d : dict K V) : list K := map fst d.
Definition values (d : dict K V) : list V := map snd d.

End Dict.

(** [d[k] += n] on a [Counter] or a [defaultdict(int)]: a missing key
    counts as [0]. *)
Definition add {K} `{EqDecision K} (d : dict K Z) (k : K) (n : Z)
  : dict K Z :=
  upsert k (fun o => (default 0 o + n)%Z) d.

(** [d[k].append(x)] on a [defaultdict(list)]. *)
Definition append {K A} `{EqDecision K} (d : dict K (list A)) (k : K)
  (x : A) : dict K (list A) :=
  upsert k (fun o => default [] o ++ [x]) d.

(** [Counter.most_common(n)] for an [int] [n]: [heapq.nlargest], which is
    [sorted(items, key=itemgetter(1), reverse=True)[:n]] and the empty
    list when [n] is not positive. *)
Definition most_common {K} (n : Z) (d : dict K Z) : list (K * Z) :=
  firstn (Z.to_nat n) (PyList.sorted (fun x y => (snd y <=? snd x)%Z) d).

End PyDict.

(** ** [datetime] fields *)

Module PyTime.

Import PyNum.
Local Open Scope Z_scope.

(** [t.hour] of an aware UTC [datetime]. *)
Definition hour (t : datetime) : Z := (t / 3600000000) mod 24.

(** [t.weekday()]: Monday is [0]; 1970-01-01 was a Thursday. *)
Definition weekday (t : datetime) : Z := (t / 86400000000 + 3) mod 7.

End PyTime.

(** ** [src/core/analytics.py]: [URLAnalyzer] *)

Module URLAnalyzer.

Import PyNum Models.

Definition group_by_domain (entries : list HistoryEntry)
  : PyDict.dict string (list HistoryEntry) :=
  fold_left (fun grouped entry => PyDict.append grouped (domain entry) entry)
    entries [].

(** The loop [domain_counts[entry.domain] += entry.visit_count]. *)
Definition domain_counts (entries : list HistoryEntry)
  : PyDict.dict string Z :=
  fold_left
    (fun counts entry => PyDict.add counts (domain entry) (visit_count entry))
    entries [].

Definition get_top_domains (entries : list HistoryEntry) (limit : Z)
  : list (string * Z) :=
  PyDict.most_common limit (domain_counts entries).

Definition get_visit_frequency (entries : list HistoryEntry)
  : PyDict.dict string Z :=
  fold_left
    (fun frequency entry =>
       PyDict.add frequency (domain entry) (visit_count entry))
    entries [].

End URLAnalyzer.

(** ** [src/core/analytics.py]: [BrowserStatistics] *)

Module BrowserStatistics.

Import PyNum Models.
Local Open Scope Z_scope.

(** [sum(entry.visit_count for entry in entries)] *)
Definition get_total_visits (entries : list HistoryEntry) : Z :=
  fold_left (fun total entry => total + visit_count entry) entries 0.

(** [len(set(entry.url for entry in entries))] *)
Definition get_unique_urls (entries : list HistoryEntry) : nat :=
  size (list_to_set (map url entries) : gset string).

Definition get_unique_domains (entries : list HistoryEntry) : nat :=
  size (list_to_set (map domain entries) : gset string).

(** [min(dates)] and [max(dates)] of a list that starts with [d]. *)
Definition min_of (d : datetime) (dates : list datetime) : datetime :=
  fold_left Z.min dates d.
Definition max_of (d : datetime) (dates : list datetime) : datetime :=
  fold_left Z.max dates d.

(** A [datetime] is always true, so [dates] holds every visit time. *)
Definition get_date_range (entries : list HistoryEntry)
  : option datetime * option datetime :=
  match entries with
  | [] => (None, None)
  | _ :: _ =>
      let dates := map visit_time entries in
      match dates with
      | [] => (None, None)
      | d :: rest => (Some (min_of d rest), Some (max_of d rest))
      end
  end.

Definition get_browser_distribution (entries : list HistoryEntry)
  : PyDict.dict string Z :=
  fold_left (fun browser_counts entry =>
               PyDict.add browser_counts (browser entry) 1)
    entries [].

(** The value [{'title': ..., 'visits': ...}] kept per URL. *)
Record url_record : Type := {
  r_title : option string;
  r_visits : Z
}.

(** One turn of the loop that fills [url_data]. *)
Definition count_url (url_data : PyDict.dict string url_record)
  (entry : HistoryEntry) : PyDict.dict string url_record :=
  PyDict.upsert (url entry)
    (fun o =>
       match o with
       | None => {| r_title := title entry; r_visits := visit_count entry |}
       | Some data =>
           {| r_title := r_title data;
              r_visits := r_visits data + visit_count entry |}
       end)
    url_data.

Definition get_most_visited_urls (entries : list HistoryEntry) (limit : Z)
  : list (string * option string * Z) :=
  let url_data := fold_left count_url entries [] in
  let sorted_urls :=
    PyList.sorted (fun x y => r_visits (snd y) <=? r_visits (snd x))
      url_data in
  map (fun '(url, data) => (url, r_title data, r_visits data))
    (PyList.slice_to limit sorted_urls).

Definition get_activity_by_hour (entries : list HistoryEntry)
  : PyDict.dict Z Z :=
  fold_left (fun hour_counts entry =>
               PyDict.add hour_counts (PyTime.hour (visit_time entry)) 1)
    entries [].

Definition day_names : list string :=
  ["Monday"; "Tuesday"; "Wednesday"; "Thursday"; "Friday"; "Saturday";
   "Sunday"]%string.

(** [day_names[day_idx]]; [IndexError] outside the list. *)
Definition day_name (day_idx : Z) : pyresult string :=
  match nth_error day_names (Z.to_nat day_idx) with
  | Some name =>
      if day_idx <? 0 then Raise (IndexError "list index out of range")
      else Ok name
  | None => Raise (IndexError "list index out of range")
  end.

(** The loop of [get_activity_by_day_of_week]; an exception ends it. *)
Fixpoint count_days (day_counts : PyDict.dict string Z)
  (entries : list HistoryEntry) : pyresult (PyDict.dict string Z) :=
  match entries with
  | [] => Ok day_counts
  | entry :: rest =>
      match day_name (PyTime.weekday (visit_time entry)) with
      | Ok name => count_days (PyDict.add day_counts name 1) rest
      | Raise e => Raise e
      end
  end.

Definition get_activity_by_day_of_week (entries : list HistoryEntry)
  : pyresult (PyDict.dict string Z) :=
  count_days [] entries.

Definition url_groups (entries : list HistoryEntry)
  : PyDict.dict string (list HistoryEntry) :=
  fold_left (fun groups entry => PyDict.append groups (url entry) entry)
    entries [].

Definition identify_duplicate_entries (entries : list HistoryEntry)
  : list (list HistoryEntry) :=
  List.filter (fun group => (1 <? length group)%nat)
    (PyDict.values (url_groups entries)).

End BrowserStatistics.

(** ** [src/utils/security.py]: [sanitize_filename] and [escape_html] *)

Module SecurityText.

(** [s.replace(old, new)] for a non-empty [old]: the occurrences are taken
    from the left and do not overlap.  [skip] counts the characters of
    the occurrence just replaced that are still to be passed over. *)
Fixpoint replace_from (old new : string) (skip : nat) (s : string)
  : string :=
  match s with
  | EmptyString => EmptyString
  | String c s' =>
      match skip with
      | S k => replace_from old new k s'
      | O =>
          if String.prefix old s
          then new +:+ replace_from old new (String.length old - 1) s'
          else String c (replace_from old new 0 s')
      end
  end.

Definition replace (old new s : string) : string := replace_from old new 0 s.

(** [s.rsplit('.', 1)] when there is a dot in [s]: what stands before the
    last dot and what stands after it; [None] without a dot. *)
Fixpoint rsplit_dot (s : string) : option (string * string) :=
  match s with
  | EmptyString => None
  | String c s' =>
      match rsplit_dot s' with
      | Some (name, ext) => Some (String c name, ext)
      | None => if Ascii.eqb c "." then Some (EmptyString, s') else None
      end
  end.

(** [s[:n]] for an [int] [n]: a negative [n] counts from the end. *)
Definition slice_to (n : Z) (s : string) : string :=
  if (n <? 0)%Z then PyStr.take (String.length s - Z.to_nat (- n)) s
  else PyStr.take (Z.to_nat n) s.

(** The characters with the codes 0, 9, 10, 13 and 92. *)
Definition nul : string := String (ascii_of_nat 0) EmptyString.
Definition tab : string := String (ascii_of_nat 9) EmptyString.
Definition newline : string := String (ascii_of_nat 10) EmptyString.
Definition carriage_return : string := String (ascii_of_nat 13) EmptyString.
Definition backslash : string := String (ascii_of_nat 92) EmptyString.

Definition dangerous_chars : list string :=
  ["/"; backslash; ".."; nul; newline; carriage_return; tab].

Definition MAX_FILENAME_LENGTH : nat := 255.

(** The loop [for char in dangerous_chars]. *)
Definition replace_dangerous (filename : string) : string :=
  fold_left (fun sanitized char => replace char "_" sanitized)
    dangerous_chars filename.

(** [rsplit_dot] answers [None] exactly when ['.' in sanitized] is false:
    the [match] is the [if] of the source together with the [rsplit]. *)
Definition sanitize_filename (filename : string) : string :=
  let sanitized := replace_dangerous filename in
  if MAX_FILENAME_LENGTH <? String.length sanitized then
    match rsplit_dot sanitized with
    | Some (name, ext) =>
        slice_to
          (Z.of_nat MAX_FILENAME_LENGTH - Z.of_nat (String.length ext) - 1)
          name
        +:+ "." +:+ ext
    | None => PyStr.take MAX_FILENAME_LENGTH sanitized
    end
  else sanitized.

(** The quote characters: codes 34 and 39. *)
Definition double_quote : string := String (ascii_of_nat 34) EmptyString.
Definition single_quote : string := String (ascii_of_nat 39) EmptyString.

(** [html.escape(s, quote=True)] *)
Definition html_escape (s : string) : string :=
  let s := replace "&" "&amp;" s in
  let s := replace "<" "&lt;" s in
  let s := replace ">" "&gt;" s in
  let s := replace double_quote "&quot;" s in
  replace single_quote "&#x27;" s.

Definition escape_html (text : option string) : string :=
  match text with
  | None => ""
  | Some text => html_escape text
  end.

End SecurityText.

(** ** Predicates on binary floating-point numbers *)

Module FloatPreds.

Import Py PyNum.
Local Open Scope Z_scope.

(** The double that holds the integer [k], [0 < k < 2^53], with the sign
    [s]: the mantissa has 53 binary digits. *)
Definition double_of (s : bool) (k : Z) : spec_float :=
  S754_finite s (Z.to_pos (k * 2 ^ (53 - Zdigits2 k))) (Zdigits2 k - 53).

(** The double that holds the integer [v], [|v| < 2^53]. *)
Definition double_of_int (v : Z) : spec_float :=
  match v with
  | Z0 => S754_zero false
  | Zpos _ => double_of false v
  | Zneg _ => double_of true (- v)
  end.

(** A zero, or a finite number below [2^b] in absolute value. *)
Definition within (b : Z) (x : spec_float) : Prop :=
  match x with
  | S754_zero _ => True
  | S754_finite _ m e => Zdigits2 (Z.pos m) + e <= b
  | _ => False
  end.

(** [a * 2^ea <= b * 2^eb], on the integers. *)
Definition le2 (a ea b eb : Z) : Prop :=
  a * 2 ^ (ea - Z.min ea eb) <= b * 2 ^ (eb - Z.min ea eb).

(** A result, or one of the exceptions the conversions catch. *)
Definition caught {A} (r : pyresult A) : Prop :=
  match r with
  | Ok _ => True
  | Raise e => is_ValueError e || is_OSError e = true
  end.

(** The 64-bit integers, which a column of SQLite holds. *)
Definition int64 (t : Z) : Prop := - 2 ^ 63 <= t <= 2 ^ 63 - 1.

End FloatPreds.

(** ** Predicates the statements use *)

Module Preds.

Import PyNum Models Search.

(** What a filter made by the parser looks like: a keyword filter, and a
    plain case-insensitive one never carries an operator word. *)
Definition parsed_filter (f : filter) : Prop :=
  exists keyword case_sensitive use_regex,
    f = KeywordFilter keyword case_sensitive use_regex
    /\ (case_sensitive = false -> use_regex = false ->
        is_operator keyword = false).

(** Every two neighbours of a list are related. *)
Fixpoint chain {A} (R : A -> A -> Prop) (l : list A) : Prop :=
  match l with
  | [] => True
  | a :: l' =>
      match l' with
      | [] => True
      | b :: _ => R a b /\ chain R l'
      end
  end.

Definition time_le (a b : HistoryEntry) : Prop :=
  (visit_time a <= visit_time b)%Z.

(** A [datetime] lies in the years 1 to 9999. *)
Definition in_datetime_range (t : datetime) : Prop :=
  (MIN_SECONDS * 1000000 <= t < (MAX_SECONDS + 1) * 1000000)%Z.

(** Two visits in the order of their times, both times [datetime]s. *)
Definition in_order (a b : HistoryEntry) : Prop :=
  time_le a b
  /\ in_datetime_range (visit_time a) /\ in_datetime_range (visit_time b).

(** From [a] to [b] it is at most [gap] minutes, that is [gap * 60000000]
    microseconds. *)
Definition step_within (gap : Z) (a b : HistoryEntry) : Prop :=
  (visit_time b - visit_time a <= gap * 60000000)%Z.

(** From [a] to [b] it is more than [gap] minutes. *)
Definition step_beyond (gap : Z) (a b : HistoryEntry) : Prop :=
  (gap * 60000000 < visit_time b - visit_time a)%Z.

(** Inside a session every step is within the gap; the session starts at
    its first entry, ends at its last one and counts its entries. *)
Definition session_within (gap : Z) (s : Analytics.session) : Prop :=
  chain (step_within gap) (Analytics.entries s)
  /\ exists first final,
       head (Analytics.entries s) = Some first
       /\ last (Analytics.entries s) = Some final
       /\ Analytics.start s = visit_time first
       /\ Analytics.end_ s = visit_time final
       /\ Analytics.entry_count s = length (Analytics.entries s).

(** Between a session and the next one the step exceeds the gap. *)
Definition session_split (gap : Z) (s1 s2 : Analytics.session) : Prop :=
  exists a b,
    last (Analytics.entries s1) = Some a
    /\ head (Analytics.entries s2) = Some b
    /\ step_beyond gap a b.

(** The same two predicates on the sessions of the running loop. *)
Definition open_within (gap : Z) (s : Analytics.open_session) : Prop :=
  chain (step_within gap) (Analytics.o_entries s)
  /\ exists first final,
       head (Analytics.o_entries s) = Some first
       /\ last (Analytics.o_entries s) = Some final
       /\ Analytics.o_start s = visit_time first
       /\ Analytics.o_end s = visit_time final.

Definition open_split (gap : Z) (s1 s2 : Analytics.open_session) : Prop :=
  exists a b,
    last (Analytics.o_entries s1) = Some a
    /\ head (Analytics.o_entries s2) = Some b
    /\ step_beyond gap a b.

(** An event that leaves the file [path] alone: it opens it for reading
    at most. *)
Definition quiet (path : string) (ev : Files.event) : Prop :=
  match ev with
  | Files.EvOpen _ Files.ReadOnly => True
  | Files.EvOpen p Files.ReadWrite => p <> path
  | Files.EvMkdir p => p <> path
  | Files.EvChmod p _ => p <> path
  | Files.EvUnlink p => p <> path
  end.

(** From [w] to [w']: the file under [path] is as it was, and what was
    asked of the system since is quiet on it. *)
Definition frame (path : string) (w w' : Files.world) : Prop :=
  Files.files w' !! path = Files.files w !! path
  /\ Files.tmpdir w' = Files.tmpdir w
  /\ exists evs,
       Files.trace w' = Files.trace w ++ evs /\ Forall (quiet path) evs.

(** *** Paths, frames and the parser's temporary copy *)

(** The last character of a string. *)
Fixpoint last_char (s : string) : option ascii :=
  match s with
  | EmptyString => None
  | String c s' =>
      match s' with
      | EmptyString => Some c
      | String _ _ => last_char s'
      end
  end.

(** The last character of an accepted database path, in lower case, is
    one of [b], [e] and [3]. *)
Definition db_tail (path : string) : Prop :=
  last_char (PyStr.lower path) = Some "b"%char
  \/ last_char (PyStr.lower path) = Some "e"%char
  \/ last_char (PyStr.lower path) = Some "3"%char.

(** Run on a world that has the file [path], [m] keeps the frame of
    [path] and its outcome satisfies [Q]. *)
Definition framed {A} (path : string) (m : Files.M A)
  (Q : pyresult A -> Prop) : Prop :=
  forall w, is_Some (Files.files w !! path) ->
    frame path w (m w).2 /\ Q (m w).1.

(** The outcome is left open. *)
Definition anything {A} : pyresult A -> Prop := fun _ => True.

(** What the parser keeps true of its temporary copy: it is not the
    database. *)
Definition temp_apart (self : BaseParser.parser) : Prop :=
  forall temp,
    BaseParser.temp_db_path self = Some temp ->
    temp <> BaseParser.db_path self.

(** What [connect] returns: the object, with the same database path and
    a temporary copy apart from it. *)
Definition connected (self : BaseParser.parser)
  (r : pyresult (BaseParser.parser * pyresult string)) : Prop :=
  exists self' entered,
    r = Ok (self', entered)
    /\ BaseParser.db_path self' = BaseParser.db_path self
    /\ temp_apart self'.

(** *** The generic parser *)

Section Generic.
Import GenericSQLiteParser.
Context `{Externals}.

(** The name passes [_validate_table_name]: it is in the cache, or, while
    the cache is empty, among the user tables the cache will be filled
    with. *)
Definition valid_name (self : parser) (table_name : string) : Prop :=
  match _valid_tables self with
  | Some tables => Search.in_list table_name tables = true
  | None => Search.in_list table_name (user_tables (db self)) = true
  end.

(** Every row has a value for every column. *)
Definition rows_complete (t : table) : Prop :=
  Forall (fun row => (length (t_columns t) <= length row)%nat) (t_rows t).

(** The dictionary of a row: each column name with the converted value
    at its index. *)
Fixpoint row_dict_from (row_dict : gmap string value) (idx : nat)
  (columns : list string) (row : list value) : gmap string value :=
  match columns with
  | [] => row_dict
  | col_name :: columns' =>
      row_dict_from (<[col_name := convert (nth idx row Null)]> row_dict)
        (S idx) columns' row
  end.

Definition row_dict (columns : list string) (row : list value)
  : gmap string value :=
  row_dict_from ∅ 0 columns row.

(** The statements sent between [self] and [self'] name only tables of
    the cache as it stands in [self']. *)
Definition sent_validated (self self' : parser) : Prop :=
  exists sent,
    executed self' = executed self ++ sent
    /\ forall q params table_name,
         In (q, params) sent ->
         In table_name (interpolated_tables q) ->
         exists tables,
           _valid_tables self' = Some tables
           /\ Search.in_list table_name tables = true.

End Generic.

End Preds.

(** ** Predicates on sorts and tokens *)

Module SortPreds.

Import Models SortOptions.

(** Two entries stand in the requested order: keys rising when
    [ascending], falling otherwise. *)
Definition in_order (sort_by : string) (ascending : bool)
  (x y : HistoryEntry) : Prop :=
  if ascending
  then key_le (sort_key sort_by x) (sort_key sort_by y) = true
  else key_le (sort_key sort_by y) (sort_key sort_by x) = true.

(** [a == b] on keys. *)
Definition key_eqb (a b : key) : bool :=
  match a, b with
  | IntKey m, IntKey n => (m =? n)%Z
  | StrKey s, StrKey t => String.eqb s t
  | _, _ => false
  end.

(** The entries whose key is [k], in the order of the list. *)
Definition with_key (sort_by : string) (k : key) (l : list HistoryEntry)
  : list HistoryEntry :=
  List.filter (fun x => key_eqb (sort_key sort_by x) k) l.

End SortPreds.

Module TokenPreds.

Import Search.

(** The characters of a string that are not white space. *)
Fixpoint visible (s : string) : string :=
  match s with
  | EmptyString => EmptyString
  | String c s' =>
      if PyStr.isspace c then visible s' else String c (visible s')
  end.

(** No character of [s] is white space. *)
Definition spaceless (s : string) : Prop := visible s = s.

(** [c not in s] *)
Definition free_of (c : ascii) (s : string) : Prop := PyStr.count c s = 0.

(** What the tokenizer has taken in so far. *)
Definition held (st : tokenizer) : string :=
  PyStr.join "" (tokens st) +:+ current_token st.

(** The state of the loop outside quotes and slashes, with nothing but
    white-space-free tokens. *)
Definition plain (st : tokenizer) : Prop :=
  in_quotes st = false /\ in_regex st = false
  /\ Forall spaceless (tokens st) /\ spaceless (current_token st).

(** A string between two copies of a character. *)
Definition between (d : ascii) (s : string) : string :=
  String d (s +:+ str1 d).

(** The state [_tokenize] starts from. *)
Definition start : tokenizer :=
  {| tokens := []; current_token := ""; in_quotes := false;
     in_regex := false |}.

End TokenPreds.

(** ** Predicates on tallies *)

Module TallyPreds.

Import PyNum Models.

(** The sum of a list of numbers. *)
Definition total (l : list Z) : Z := fold_right Z.add 0%Z l.

(** The entries whose [key] is [k], in the order of the list. *)
Definition keyed {E K} `{EqDecision K} (key : E -> K) (k : K) (es : list E)
  : list E :=
  List.filter (fun e => bool_decide (key e = k)) es.

(** One [upsert] per element: the loop [d[key(e)] = upd(e, d.get(key(e)))]. *)
Definition collect {E K V} `{EqDecision K} (key : E -> K)
  (upd : E -> option V -> V) (es : list E) (acc : PyDict.dict K V)
  : PyDict.dict K V :=
  fold_left (fun d e => PyDict.upsert (key e) (upd e) d) es acc.

(** The loop [counts[key(e)] += weight(e)]. *)
Definition tally {E K} `{EqDecision K} (key : E -> K) (weight : E -> Z)
  (es : list E) (acc : PyDict.dict K Z) : PyDict.dict K Z :=
  fold_left (fun d e => PyDict.add d (key e) (weight e)) es acc.

(** The sum of the weights of a list. *)
Definition weigh {E} (weight : E -> Z) (es : list E) : Z :=
  fold_left (fun t e => (t + weight e)%Z) es 0%Z.

(** [lo] and [hi] are visit times of the list and bound all of them. *)
Definition spans (lo hi : datetime) (entries : list HistoryEntry) : Prop :=
  In lo (map visit_time entries) /\ In hi (map visit_time entries)
  /\ Forall (fun e => (lo <= visit_time e <= hi)%Z) entries.

End TallyPreds.

(** ** Predicates on file names *)

Module NamePreds.

Import TokenPreds.

(** The single characters [sanitize_filename] replaces, and the dot. *)
Definition special : list ascii :=
  ["/"%char; ascii_of_nat 92; ascii_of_nat 0; ascii_of_nat 10;
   ascii_of_nat 13; ascii_of_nat 9; "."%char].

(** A text without any of them. *)
Definition harmless (s : string) : Prop :=
  Forall (fun c => free_of c s) special.

(** [s] starts with a dot. *)
Definition starts_with_dot (s : string) : bool :=
  match s with
  | String c _ => Ascii.eqb c "."
  | EmptyString => false
  end.

End NamePreds.

(** ** Predicates on searches *)

Module SearchPreds.

Import GenericSQLiteParser.

Section Generic.
Context `{Externals}.

(** The value of a row in the column [col] of a table. *)
Definition value_at (t : table) (row : list value) (col : string) : value :=
  match column_index (t_columns t) col with
  | Some i => nth i row Null
  | None => Null
  end.

(** Some column of the row is [LIKE] the pattern. *)
Definition row_matches (t : table) (pattern : string) (row : list value)
  : bool :=
  existsb (fun c => sql_like (value_at t row (name c)) pattern) (t_columns t).

End Generic.

End SearchPreds.

(** ** Predicates on the temporary copy *)

Module TempPreds.

Import Files.
Local Open Scope Z_scope.

(** The directory the copies are made in. *)
Definition temp_dir_of (w : world) : string :=
  tmpdir w +:+ "/" +:+ "BrowserHunter".

(** The directory of the copies is there, with mode [0o700]. *)
Definition temp_dir_ready (w : world) : Prop :=
  exists d, files w !! temp_dir_of w = Some d
            /\ n_kind d = Directory /\ n_mode d = 448.

(** The next temporary file [tempfile] will make is [file]. *)
Definition next_temp (w : world) (file : string) : Prop :=
  exists rest,
    first_free (files w) (temp_dir_of w) "bhh_" ".db" (names w)
    = (Some file, rest).

(** The copy [connect] makes of a database that holds [data]. *)
Definition copy_of (data : list Byte.byte) : node :=
  {| n_kind := Regular; n_mode := 384; n_data := data; n_readable := true;
     n_read_error := None |}.

End TempPreds.

(** ** Sample inputs the statements are run on *)

Module Samples.

Import PyNum Models Search.

(** A regular-expression engine for literal patterns, to run the
    statements on: a pattern with a parenthesis does not compile, a search
    is a substring search. *)
Definition literal_re : ReEngine := {|
  Pattern := string;
  Match := unit;
  re_compile := fun pattern _ =>
    if PyStr.contains "(" pattern then Raise (ValueError "re.error")
    else Ok pattern;
  Pattern_search := fun pattern text =>
    Ok (if PyStr.contains pattern text then Some tt else None)
|}.

Definition sample_entry : HistoryEntry :=
  {| id := 1%Z; url := "https://example.org/foo?x=1"; title := Some "Example";
     visit_time := 0%Z; visit_count := 1%Z; browser := "chrome";
     typed_count := 0%Z; domain := "example.org"; source_file := "History.db";
     source_file_hash := ""; notes := ""; bookmarked := false |}.

(** A pattern of [n] opening parentheses. *)
Fixpoint parens (n : nat) : string :=
  match n with
  | O => EmptyString
  | S n' => String "(" (parens n')
  end.

Definition sample_query : string :=
  str1 dquote +:+ "exact phrase" +:+ str1 dquote +:+ " /foo.*bar/ plainword".

(** A visit [minutes] after the epoch, plus [micros] microseconds. *)
Definition visit_at (minutes micros : Z) : HistoryEntry :=
  {| id := minutes; url := "https://example.org/"; title := None;
     visit_time := (minutes * 60000000 + micros)%Z; visit_count := 1%Z;
     browser := "chrome"; typed_count := 0%Z; domain := "example.org";
     source_file := "History.db"; source_file_hash := ""; notes := "";
     bookmarked := false |}.

Definition sample_visits : list HistoryEntry :=
  [visit_at 0 0; visit_at 10 0; visit_at 45 0; visit_at 50 0].

(** A history database that a running browser holds locked: the file is
    there and [os.access] grants reading, but a read fails. *)
Definition locked_message : string :=
  "[Errno 13] Permission denied: '/evidence/History.db'".

Definition locked_world : Files.world :=
  {| Files.files :=
       {[ "/evidence/History.db" :=
            {| Files.n_kind := Files.Regular;
               Files.n_mode := 420%Z;
               Files.n_data := [];
               Files.n_readable := true;
               Files.n_read_error :=
                 Some (PermissionError locked_message) |} ]};
     Files.names := ["a1b2c3d4"];
     Files.tmpdir := "/tmp";
     Files.trace := [] |}.

(** A readable database with a write-ahead log next to it. *)
Definition plain_file (data : list Byte.byte) : Files.node :=
  {| Files.n_kind := Files.Regular; Files.n_mode := 420%Z;
     Files.n_data := data; Files.n_readable := true;
     Files.n_read_error := None |}.

Definition evidence_world : Files.world :=
  {| Files.files :=
       {[ "/evidence/History.db" := plain_file [Byte.x53; Byte.x51; Byte.x4c];
          "/evidence/History.db-wal" := plain_file [Byte.x01] ]};
     Files.names := ["a1b2c3d4"];
     Files.tmpdir := "/tmp";
     Files.trace := [] |}.

(** A digest function to run the statements on: 64 zeros. *)
Definition zero_hash : Hashing.Hashlib :=
  {| Hashing.sha256_hexdigest := fun _ =>
       "0000000000000000000000000000000000000000000000000000000000000000" |}.

(** A history database with one user table and SQLite's own sequence
    table. *)
Definition text_column (i : Z) (n : string) : GenericSQLiteParser.column_info :=
  {| GenericSQLiteParser.cid := i; GenericSQLiteParser.name := n;
     GenericSQLiteParser.type := "TEXT"; GenericSQLiteParser.notnull := 0%Z;
     GenericSQLiteParser.dflt_value := GenericSQLiteParser.Null;
     GenericSQLiteParser.pk := 0%Z |}.

Definition urls_table : GenericSQLiteParser.table :=
  {| GenericSQLiteParser.t_name := "urls";
     GenericSQLiteParser.t_columns := [text_column 0 "url"; text_column 1 "title"];
     GenericSQLiteParser.t_rows :=
       [[GenericSQLiteParser.Text "https://a.example/";
         GenericSQLiteParser.Text "A"];
        [GenericSQLiteParser.Text "https://b.example/";
         GenericSQLiteParser.Text "B"];
        [GenericSQLiteParser.Text "https://c.example/";
         GenericSQLiteParser.Null]] |}.

Definition sequence_table : GenericSQLiteParser.table :=
  {| GenericSQLiteParser.t_name := "sqlite_sequence";
     GenericSQLiteParser.t_columns := [text_column 0 "name"; text_column 1 "seq"];
     GenericSQLiteParser.t_rows :=
       [[GenericSQLiteParser.Text "urls"; GenericSQLiteParser.Integer 3]] |}.

Definition sample_db : GenericSQLiteParser.database :=
  [urls_table; sequence_table].

(** A database with a table named by a word of SQL, with the column
    [group]. *)
Definition order_table : GenericSQLiteParser.table :=
  {| GenericSQLiteParser.t_name := "order";
     GenericSQLiteParser.t_columns := [text_column 0 "item"; text_column 1 "group"];
     GenericSQLiteParser.t_rows :=
       [[GenericSQLiteParser.Text "tea"; GenericSQLiteParser.Text "drinks"]] |}.

Definition order_parser : GenericSQLiteParser.parser :=
  {| GenericSQLiteParser.db := [order_table];
     GenericSQLiteParser._valid_tables := None;
     GenericSQLiteParser.executed := [] |}.

Definition fresh_parser : GenericSQLiteParser.parser :=
  {| GenericSQLiteParser.db := sample_db;
     GenericSQLiteParser._valid_tables := None;
     GenericSQLiteParser.executed := [] |}.

(** [LIKE] as a substring test on text, for the statements to run on;
    no byte string decodes.  One text of the samples names something
    else than a table or a column: the search of [urls] with the column
    text [1=1 OR url], whose condition holds on every row.  No sample
    reads the answer to another such text; it is left without rows. *)
Definition plain_externals : GenericSQLiteParser.Externals :=
  {| GenericSQLiteParser.sql_like := fun v pattern =>
       match v with
       | GenericSQLiteParser.Text s =>
           PyStr.contains (PyStr.slice_1_m1 pattern) s
       | _ => false
       end;
     GenericSQLiteParser.decode_utf8 := fun _ => None;
     GenericSQLiteParser.bytes_str := fun _ => "b''";
     GenericSQLiteParser.sqlite_other := fun db text _ =>
       if String.eqb text "SELECT * FROM urls WHERE 1=1 OR url LIKE ?" then
         match GenericSQLiteParser.find_table db "urls" with
         | Some t => Ok (GenericSQLiteParser.t_rows t)
         | None => Ok []
         end
       else Ok [] |}.

End Samples.

(** ** More sample worlds *)

Module WorldSamples.

Import Samples.

(** The directory of the temporary copies, as an earlier run left it. *)
Definition secure_dir : Files.node :=
  {| Files.n_kind := Files.Directory; Files.n_mode := 448%Z;
     Files.n_data := []; Files.n_readable := true;
     Files.n_read_error := None |}.

(** A database held locked, on a system that has run the tool before. *)
Definition locked_world_again : Files.world :=
  {| Files.files :=
       <[ "/tmp/BrowserHunter" := secure_dir ]> (Files.files locked_world);
     Files.names := ["a1b2c3d4"];
     Files.tmpdir := "/tmp";
     Files.trace := [] |}.

(** A readable database without a write-ahead log. *)
Definition quiet_world : Files.world :=
  {| Files.files :=
       {[ "/evidence/History.db" := plain_file [Byte.x53; Byte.x51; Byte.x4c];
          "/tmp/BrowserHunter" := secure_dir ]};
     Files.names := ["a1b2c3d4"];
     Files.tmpdir := "/tmp";
     Files.trace := [] |}.

(** The parser the constructor returns on that path. *)
Definition history_parser : BaseParser.parser :=
  {| BaseParser.db_path := "/evidence/History.db";
     BaseParser.file_hash :=
       "0000000000000000000000000000000000000000000000000000000000000000";
     BaseParser.temp_db_path := None;
     BaseParser._conn := None |}.

End WorldSamples.

(** * Properties *)

(** ** The search engine *)

Module SearchProps.

Import PyNum Models Search Preds Samples.

Section WithRe.
Context {RE : ReEngine}.

Lemma validate_regex_pattern_false (pattern : string) :
  validate_regex_pattern pattern = false <->
  (500 < String.length pattern \/ 50 < complexity_score pattern)%nat.
Proof.
  unfold validate_regex_pattern, MAX_REGEX_LENGTH.
  destruct (Nat.ltb_spec 500 (String.length pattern));
    destruct (Nat.ltb_spec 50 (complexity_score pattern));
    split; intros; try reflexivity; try discriminate; lia.
Qed.

Lemma safe_regex_compile_closed (pattern : string) (ignorecase : bool) :
  validate_regex_pattern pattern = false \/
  (exists e, re_compile pattern ignorecase = Raise e) ->
  safe_regex_compile pattern ignorecase = None.
Proof.
  unfold safe_regex_compile. intros [Hv | [e He]].
  - now rewrite Hv.
  - rewrite He. now destruct (negb _).
Qed.

(** [fold_left] of list comprehensions keeps what passes every filter. *)
Lemma fold_filter_all {A F} (p : F -> A -> bool) (fs : list F) (l : list A) :
  fold_left (fun acc f => List.filter (p f) acc) fs l
  = List.filter (fun x => forallb (fun f => p f x) fs) l.
Proof.
  revert l. induction fs as [|f fs IH]; intros l; simpl.
  - induction l as [|x l IHl]; simpl; [reflexivity|]. now rewrite <- IHl.
  - rewrite IH. induction l as [|x l IHl]; simpl; [reflexivity|].
    destruct (p f x); simpl; [|exact IHl].
    destruct (forallb _ fs); simpl; now rewrite IHl.
Qed.

Lemma apply_filter_all (self : SearchFilter) (entries : list HistoryEntry) :
  apply self entries
  = List.filter (fun e => forallb (fun f => filter_func f e) self) entries.
Proof.
  unfold apply. destruct self as [|f fs]; [|apply fold_filter_all].
  simpl. induction entries as [|x l IHl]; simpl; [reflexivity|].
  now rewrite <- IHl.
Qed.

Lemma filter_idem {A} (p : A -> bool) (l : list A) :
  List.filter p (List.filter p l) = List.filter p l.
Proof.
  induction l as [|x l IH]; simpl; [reflexivity|].
  destruct (p x) eqn:E; simpl; [rewrite E|]; now rewrite IH.
Qed.

(** C6: the regex safety gate rejects a pattern exactly when it is longer
    than 500 characters or its complexity score (the count of the
    characters ( * + |) is above 50, so a score of 50 passes and a score of
    51 does not; a pattern that fails the gate or does not compile makes
    the keyword predicate, and the URL predicate, built from it reject
    every record, without an exception. *)
Theorem regex_gate_fails_closed (pattern : string) :
  (validate_regex_pattern pattern = false <->
   (500 < String.length pattern \/ 50 < complexity_score pattern)%nat)
  /\ ((String.length pattern <= 500)%nat ->
      complexity_score pattern = 50%nat ->
      validate_regex_pattern pattern = true)
  /\ (complexity_score pattern = 51%nat ->
      validate_regex_pattern pattern = false)
  /\ (forall case_sensitive entry,
        validate_regex_pattern pattern = false \/
        (exists e, re_compile pattern (negb case_sensitive) = Raise e) ->
        filter_func (KeywordFilter pattern case_sensitive true) entry = false)
  /\ (forall entry,
        validate_regex_pattern pattern = false \/
        (exists e, re_compile pattern true = Raise e) ->
        filter_func (UrlFilter pattern true) entry = false).
Proof.
  pose proof (validate_regex_pattern_false pattern) as Hv.
  split; [exact Hv|]. split; [|split; [|split]].
  - intros Hlen Hscore.
    apply not_false_iff_true. intros E. apply Hv in E. lia.
  - intros Hscore. apply Hv. lia.
  - intros cs entry Hbad. simpl.
    now rewrite (safe_regex_compile_closed _ _ Hbad).
  - intros entry Hbad. simpl.
    now rewrite (safe_regex_compile_closed _ _ Hbad).
Qed.

(** C9: [apply] returns the entries that pass every added predicate, in
    their input order, for any list of predicates; applying the same
    filters to the result changes nothing. *)
Theorem apply_keeps_all_passing_idempotent
  (self : SearchFilter) (entries : list HistoryEntry) :
  apply self entries
  = List.filter (fun e => forallb (fun f => filter_func f e) self) entries
  /\ (forall predicates : list (HistoryEntry -> bool),
        apply (map CustomFilter predicates) entries
        = List.filter (fun e => forallb (fun p => p e) predicates) entries)
  /\ apply self (apply self entries) = apply self entries.
Proof.
  split; [apply apply_filter_all|]. split.
  - intros ps. rewrite apply_filter_all. apply List.filter_ext. intros e.
    induction ps as [|p ps IH]; simpl; [reflexivity|]. now rewrite IH.
  - rewrite !apply_filter_all. apply filter_idem.
Qed.

End WithRe.

Lemma regex_gate_fails_closed_witness :
  validate_regex_pattern (parens 50) = true
  /\ validate_regex_pattern (parens 51) = false
  /\ filter_func (RE := literal_re)
       (KeywordFilter (parens 51) false true) sample_entry = false
  /\ filter_func (RE := literal_re) (UrlFilter "(" true) sample_entry = false.
Proof.
  destruct (regex_gate_fails_closed (RE := literal_re) (parens 50))
    as (_ & H50 & _).
  destruct (regex_gate_fails_closed (RE := literal_re) (parens 51))
    as (_ & _ & H51 & Hkw & _).
  destruct (regex_gate_fails_closed (RE := literal_re) "(")
    as (_ & _ & _ & _ & Hurl).
  split; [apply H50; vm_compute; [lia | reflexivity]|].
  split; [apply H51; reflexivity|].
  split; [apply Hkw; left; apply H51; reflexivity|].
  apply Hurl. right. eexists. reflexivity.
Defined.

(** *** The query parser *)

Lemma is_operator_cases (token : string) :
  is_operator token = true ->
  token = "AND" \/ token = "OR" \/ token = "NOT".
Proof.
  unfold is_operator, in_list. simpl.
  rewrite !orb_true_iff, !String.eqb_eq. intuition (try discriminate).
Qed.

Lemma parse_token_operator (sf : SearchFilter) (token : string) :
  is_operator (PyStr.strip token) = true -> parse_token sf token = sf.
Proof.
  intros Hop. unfold parse_token.
  destruct (is_operator_cases _ Hop) as [E | [E | E]]; now rewrite E.
Qed.

Lemma parse_token_parsed (sf : SearchFilter) (token : string) :
  Forall parsed_filter sf -> Forall parsed_filter (parse_token sf token).
Proof.
  intros Hsf. unfold parse_token, add_keyword_filter.
  destruct (_ && _).
  { apply Forall_app. split; [exact Hsf|]. constructor; [|constructor].
    eexists _, _, _. split; [reflexivity|]. discriminate. }
  destruct (_ && _).
  { apply Forall_app. split; [exact Hsf|]. constructor; [|constructor].
    eexists _, _, _. split; [reflexivity|]. discriminate. }
  destruct (negb (String.eqb _ _)); simpl; [|exact Hsf].
  destruct (is_operator (PyStr.strip token)) eqn:Hop; simpl; [exact Hsf|].
  apply Forall_app. split; [exact Hsf|]. constructor; [|constructor].
  eexists _, _, _. split; [reflexivity|]. intros _ _. exact Hop.
Qed.

Lemma fold_parse_token_parsed (tokens : list string) (sf : SearchFilter) :
  Forall parsed_filter sf ->
  Forall parsed_filter (fold_left parse_token tokens sf).
Proof.
  revert sf. induction tokens as [|t ts IH]; intros sf Hsf; simpl.
  - exact Hsf.
  - apply IH. now apply parse_token_parsed.
Qed.

Lemma fold_parse_token_skip_operators (tokens : list string)
  (sf : SearchFilter) :
  fold_left parse_token tokens sf
  = fold_left parse_token
      (List.filter (fun t => negb (is_operator (PyStr.strip t))) tokens) sf.
Proof.
  revert sf. induction tokens as [|t ts IH]; intros sf; simpl.
  - reflexivity.
  - destruct (is_operator (PyStr.strip t)) eqn:Hop; simpl.
    + rewrite (parse_token_operator _ _ Hop). apply IH.
    + apply IH.
Qed.

(** C8: the sample query yields three keyword filters, a case-sensitive
    phrase, a regex and a case-insensitive word; in every query a token
    AND, OR or NOT adds no filter, dropping those tokens leaves the parse
    unchanged, and the filters of a query are applied as a conjunction. *)
Theorem parse_query_operators_add_no_filter :
  parse_query sample_query
  = [KeywordFilter "exact phrase" true false;
     KeywordFilter "foo.*bar" false true;
     KeywordFilter "plainword" false false]
  /\ (forall (sf : SearchFilter) (token : string),
        is_operator (PyStr.strip token) = true -> parse_token sf token = sf)
  /\ (forall query : string, Forall parsed_filter (parse_query query))
  /\ (forall query : string,
        parse_query query
        = if String.eqb (PyStr.strip query) "" then []
          else fold_left parse_token
                 (List.filter (fun t => negb (is_operator (PyStr.strip t)))
                    (_tokenize query)) [])
  /\ (forall (RE : ReEngine) (query : string) (entries : list HistoryEntry),
        apply (parse_query query) entries
        = List.filter
            (fun e => forallb (fun f => filter_func f e) (parse_query query))
            entries).
Proof.
  split; [vm_compute; reflexivity|].
  split; [exact parse_token_operator|].
  split.
  { intros query. unfold parse_query. destruct (String.eqb _ _).
    - constructor.
    - apply fold_parse_token_parsed. constructor. }
  split.
  { intros query. unfold parse_query. destruct (String.eqb _ _).
    - reflexivity.
    - apply fold_parse_token_skip_operators. }
  intros RE query entries. apply apply_filter_all.
Qed.

Lemma parse_query_operators_witness :
  parse_token [KeywordFilter "a" false false] " AND " =
  [KeywordFilter "a" false false].
Proof.
  destruct parse_query_operators_add_no_filter as (_ & Hop & _).
  apply Hop. reflexivity.
Defined.

End SearchProps.

(** ** Rounding to binary64 *)

Module FloatFacts.

Import PyNum FloatPreds.
Local Open Scope Z_scope.

(** *** Binary digits *)

Lemma digits2_pos_bounds (p : positive) :
  2 ^ (Z.pos (digits2_pos p) - 1) <= Z.pos p < 2 ^ Z.pos (digits2_pos p).
Proof.
  induction p as [p IH|p IH|]; cbn [digits2_pos].
  - rewrite Pos2Z.inj_succ. change (Z.pos p~1) with (2 * Z.pos p + 1).
    replace (Z.succ (Z.pos (digits2_pos p)) - 1)
      with (Z.succ (Z.pos (digits2_pos p) - 1)) by lia.
    rewrite !Z.pow_succ_r by lia.
    generalize dependent (2 ^ (Z.pos (digits2_pos p) - 1)).
    generalize dependent (2 ^ (Z.pos (digits2_pos p))). intros. lia.
  - rewrite Pos2Z.inj_succ. change (Z.pos p~0) with (2 * Z.pos p).
    replace (Z.succ (Z.pos (digits2_pos p)) - 1)
      with (Z.succ (Z.pos (digits2_pos p) - 1)) by lia.
    rewrite !Z.pow_succ_r by lia.
    generalize dependent (2 ^ (Z.pos (digits2_pos p) - 1)).
    generalize dependent (2 ^ (Z.pos (digits2_pos p))). intros. lia.
  - simpl. lia.
Qed.

Lemma Zdigits2_bounds (m : Z) :
  0 < m -> 2 ^ (Zdigits2 m - 1) <= m < 2 ^ Zdigits2 m.
Proof.
  destruct m as [|p|p]; try lia. intros _. apply digits2_pos_bounds.
Qed.

Lemma Zdigits2_pos (m : Z) : 0 < m -> 0 < Zdigits2 m.
Proof. destruct m; simpl; lia. Qed.

Lemma Zdigits2_unique (m d : Z) :
  0 < m -> 2 ^ (d - 1) <= m < 2 ^ d -> Zdigits2 m = d.
Proof.
  intros Hm [Hlo Hhi]. pose proof (Zdigits2_bounds m Hm) as [Hlo' Hhi'].
  pose proof (Zdigits2_pos m Hm) as Hd'.
  assert (Hd : 0 < d).
  { destruct (Z.ltb_spec 0 d) as [|Hle]; [assumption|].
    destruct (Z.eq_dec d 0) as [->|]; [simpl in Hhi; lia|].
    rewrite Z.pow_neg_r in Hhi by lia. lia. }
  destruct (Z.lt_trichotomy (Zdigits2 m) d) as [Hlt | [Heq | Hgt]];
    [|exact Heq|].
  - assert (2 ^ Zdigits2 m <= 2 ^ (d - 1))
      by (apply Z.pow_le_mono_r; lia). lia.
  - assert (2 ^ d <= 2 ^ (Zdigits2 m - 1))
      by (apply Z.pow_le_mono_r; lia). lia.
Qed.

Lemma Zdigits2_mul_pow2 (k j : Z) :
  0 < k -> 0 <= j -> Zdigits2 (k * 2 ^ j) = Zdigits2 k + j.
Proof.
  intros Hk Hj. pose proof (Zdigits2_bounds k Hk) as [Hlo Hhi].
  pose proof (Zdigits2_pos k Hk) as Hd.
  assert (Hp : 0 < 2 ^ j) by (apply Z.pow_pos_nonneg; lia).
  apply Zdigits2_unique; [nia|].
  replace (Zdigits2 k + j - 1) with ((Zdigits2 k - 1) + j) by lia.
  rewrite !Z.pow_add_r by lia. nia.
Qed.

Lemma Zdigits2_le (m d : Z) :
  0 < m -> m < 2 ^ d -> Zdigits2 m <= d.
Proof.
  intros Hm Hd. pose proof (Zdigits2_bounds m Hm) as [Hlo _].
  destruct (Z.leb_spec (Zdigits2 m) d) as [|Hgt]; [assumption|].
  assert (2 ^ d <= 2 ^ (Zdigits2 m - 1)).
  { apply Z.pow_le_mono_r; [lia|]. lia. }
  lia.
Qed.

(** *** Shifting to the right *)

Lemma iter_pos_nat {A} (f : A -> A) (p : positive) (x : A) :
  SpecFloat.iter_pos f p x = Nat.iter (Pos.to_nat p) f x.
Proof.
  revert x. induction p as [p IH|p IH|]; intros x; cbn [SpecFloat.iter_pos].
  - rewrite !IH, Pos2Nat.inj_xI. cbn [Nat.mul]. rewrite Nat.add_0_r.
    rewrite Nat.iter_succ_r, Nat.iter_add. reflexivity.
  - rewrite !IH, Pos2Nat.inj_xO. cbn [Nat.mul]. rewrite Nat.add_0_r.
    rewrite Nat.iter_add. reflexivity.
  - reflexivity.
Qed.

Lemma shr_1_m (mrs : shr_record) :
  0 <= shr_m mrs -> shr_m (shr_1 mrs) = shr_m mrs / 2.
Proof.
  destruct mrs as [m r s]. cbn [shr_m]. intros Hm. unfold shr_1.
  destruct m as [|[p|p|]|p]; cbn [shr_m]; try lia.
  - reflexivity.
  - change (Z.pos p~1) with (2 * Z.pos p + 1).
    apply (Z.div_unique _ 2 _ 1); lia.
  - change (Z.pos p~0) with (2 * Z.pos p).
    apply (Z.div_unique _ 2 _ 0); lia.
  - reflexivity.
Qed.

Lemma iter_shr_m (n : nat) (mrs : shr_record) :
  0 <= shr_m mrs ->
  shr_m (Nat.iter n shr_1 mrs) = shr_m mrs / 2 ^ Z.of_nat n.
Proof.
  intros Hm. induction n as [|n IH].
  - simpl. now rewrite Z.div_1_r.
  - rewrite Nat.iter_succ, shr_1_m.
    + rewrite IH, Nat2Z.inj_succ, Z.pow_succ_r by lia.
      rewrite Z.div_div by (try apply Z.pow_pos_nonneg; lia).
      f_equal. lia.
    + rewrite IH. apply Z.div_pos; [exact Hm|].
      apply Z.pow_pos_nonneg; lia.
Qed.

Lemma shr_1_even (c : Z) :
  0 <= c ->
  shr_1 {| shr_m := 2 * c; shr_r := false; shr_s := false |}
  = {| shr_m := c; shr_r := false; shr_s := false |}.
Proof. destruct c as [|p|p]; try lia; reflexivity. Qed.

Lemma iter_shr_exact (n : nat) (c : Z) :
  0 <= c ->
  Nat.iter n shr_1
    {| shr_m := c * 2 ^ Z.of_nat n; shr_r := false; shr_s := false |}
  = {| shr_m := c; shr_r := false; shr_s := false |}.
Proof.
  intros Hc. induction n as [|n IH].
  - simpl. now rewrite Z.mul_1_r.
  - rewrite Nat.iter_succ_r, Nat2Z.inj_succ, Z.pow_succ_r by lia.
    replace (c * (2 * 2 ^ Z.of_nat n)) with (2 * (c * 2 ^ Z.of_nat n))
      by lia.
    rewrite shr_1_even; [exact IH|].
    apply Z.mul_nonneg_nonneg; [exact Hc|]. apply Z.pow_nonneg. lia.
Qed.

Lemma shr_exact (c e n : Z) :
  0 <= c -> 0 <= n ->
  shr {| shr_m := c * 2 ^ n; shr_r := false; shr_s := false |} e n
  = ({| shr_m := c; shr_r := false; shr_s := false |}, e + n).
Proof.
  intros Hc Hn. destruct n as [|p|p]; [| |lia].
  - cbn [shr]. now rewrite Z.pow_0_r, Z.mul_1_r, Z.add_0_r.
  - cbn [shr]. rewrite iter_pos_nat.
    rewrite <- (positive_nat_Z p) at 1. now rewrite iter_shr_exact.
Qed.

(** *** Numbers that need no rounding *)

Lemma fexp_digits (d : Z) : 0 < d -> fexp prec emax d = d - 53.
Proof. unfold fexp, emin, prec, emax. lia. Qed.

Lemma digits_below_53 (k : Z) : 0 < k < 2 ^ 53 -> 0 < Zdigits2 k <= 53.
Proof.
  intros [Hk Hlt]. split; [now apply Zdigits2_pos | now apply Zdigits2_le].
Qed.

(** An integer below [2^53], written with any number of zero bits behind
    it, is rounded to itself. *)
Lemma round_exact (s : bool) (k e : Z) :
  0 < k < 2 ^ 53 -> e <= Zdigits2 k - 53 ->
  binary_round_aux prec emax s (k * 2 ^ (- e)) e loc_Exact = double_of s k.
Proof.
  intros Hk He. pose proof (digits_below_53 k Hk) as Hd.
  set (d := Zdigits2 k) in *.
  assert (Hc : 0 < k * 2 ^ (53 - d)).
  { apply Z.mul_pos_pos; [lia|]. apply Z.pow_pos_nonneg; lia. }
  unfold binary_round_aux, shr_fexp.
  rewrite Zdigits2_mul_pow2 by lia. fold d.
  replace (d + - e + e) with d by lia. rewrite fexp_digits by lia.
  cbn [shr_record_of_loc].
  replace (k * 2 ^ (- e)) with ((k * 2 ^ (53 - d)) * 2 ^ (d - 53 - e)).
  2:{ rewrite <- Z.mul_assoc, <- Z.pow_add_r by lia. do 2 f_equal. lia. }
  rewrite shr_exact by lia.
  replace (e + (d - 53 - e)) with (d - 53) by lia.
  cbn [shr_m loc_of_shr_record round_nearest_even].
  rewrite Zdigits2_mul_pow2 by lia. fold d.
  replace (d + (53 - d) + (d - 53)) with d by lia.
  rewrite fexp_digits by lia. rewrite Z.sub_diag. cbn [shr shr_m].
  unfold double_of. fold d.
  destruct (k * 2 ^ (53 - d)) as [|m|m] eqn:Em; try lia.
  assert (Hle : (d - 53 <=? emax - prec) = true)
    by (apply Z.leb_le; unfold emax, prec; lia).
  rewrite Hle. reflexivity.
Qed.

(** *** Quotients and differences that are integers *)

Lemma div_eucl_mul (q b : Z) : 0 < b -> Z.div_eucl (q * b) b = (q, 0).
Proof.
  intros Hb. destruct (Z.div_eucl (q * b) b) as [q' r'] eqn:E.
  assert (Hq : q' = q * b / b) by (unfold Z.div; now rewrite E).
  assert (Hr : r' = (q * b) mod b) by (unfold Z.modulo; now rewrite E).
  rewrite Z.div_mul in Hq by lia. rewrite Z.mod_mul in Hr by lia.
  now subst.
Qed.

Lemma new_location_exact (n : Z) : new_location n 0 = loc_Exact.
Proof. unfold new_location. now destruct (Z.even n). Qed.

Lemma Zdigits2_mul_le (a b : Z) :
  0 < a -> 0 < b -> Zdigits2 (a * b) <= Zdigits2 a + Zdigits2 b.
Proof.
  intros Ha Hb. pose proof (Zdigits2_bounds a Ha) as [_ Ha'].
  pose proof (Zdigits2_bounds b Hb) as [_ Hb'].
  pose proof (Zdigits2_pos a Ha). pose proof (Zdigits2_pos b Hb).
  apply Zdigits2_le; [nia|]. rewrite Z.pow_add_r by lia. nia.
Qed.

Lemma div_core_exact (m1 m2 : positive) (e1 k : Z) :
  0 < k < 2 ^ 53 -> e1 <= 0 ->
  Z.pos m1 = k * Z.pos m2 * 2 ^ (- e1) ->
  exists e',
    SFdiv_core_binary prec emax (Z.pos m1) e1 (Z.pos m2) 0
    = (k * 2 ^ (- e'), e', loc_Exact)
    /\ e' <= Zdigits2 k - 53.
Proof.
  intros Hk He1 Hm. pose proof (digits_below_53 k Hk) as Hd.
  unfold SFdiv_core_binary.
  set (e' := Z.min (fexp prec emax
                      (Zdigits2 (Z.pos m1) + e1 - (Zdigits2 (Z.pos m2) + 0)))
               (e1 - 0)).
  assert (He' : e' <= Zdigits2 k - 53 /\ e' <= e1).
  { subst e'. rewrite Hm, Zdigits2_mul_pow2 by lia.
    pose proof (Zdigits2_mul_le k (Z.pos m2)) as Hle.
    unfold fexp, emin, prec, emax. lia. }
  destruct He' as [He' He'1]. exists e'. split; [|exact He'].
  assert (Hs : Z.pos m1 * 2 ^ (e1 - 0 - e') = k * 2 ^ (- e') * Z.pos m2).
  { rewrite Hm. replace (- e') with (- e1 + (e1 - 0 - e')) by lia.
    rewrite Z.pow_add_r by lia. ring. }
  assert (Hm' :
    match e1 - 0 - e' with
    | Z0 => Z.pos m1
    | Z.pos _ => Z.shiftl (Z.pos m1) (e1 - 0 - e')
    | Z.neg _ => 0
    end = k * 2 ^ (- e') * Z.pos m2).
  { rewrite <- Hs. destruct (e1 - 0 - e') as [|p|p] eqn:Es; [| |lia].
    - now rewrite Z.pow_0_r, Z.mul_1_r.
    - now rewrite Z.shiftl_mul_pow2 by lia. }
  rewrite Hm', div_eucl_mul by lia. now rewrite new_location_exact.
Qed.

(** A quotient that is an integer below [2^53] is computed exactly. *)
Lemma SFdiv_exact (s1 s2 : bool) (m1 m2 : positive) (e1 k : Z) :
  0 < k < 2 ^ 53 -> e1 <= 0 ->
  Z.pos m1 = k * Z.pos m2 * 2 ^ (- e1) ->
  SFdiv prec emax (S754_finite s1 m1 e1) (S754_finite s2 m2 0)
  = double_of (xorb s1 s2) k.
Proof.
  intros Hk He1 Hm.
  destruct (div_core_exact m1 m2 e1 k Hk He1 Hm) as (e' & E & He').
  cbn [SFdiv]. rewrite E. now apply round_exact.
Qed.

Lemma int_truediv_exact (s b : Z) :
  s <> 0 -> - 2 ^ 53 < s < 2 ^ 53 -> 0 < b ->
  int_truediv (s * b) b = Ok (double_of_int s).
Proof.
  intros Hs Hlt Hb. unfold int_truediv.
  destruct b as [|b|b]; try lia. destruct s as [|k|k]; [lia| |].
  - change (Z.pos k * Z.pos b) with (Z.pos (k * b)).
    cbn [exact_of_int double_of_int].
    rewrite (SFdiv_exact false false (k * b) b 0 (Z.pos k));
      [reflexivity | lia | lia |].
    rewrite Pos2Z.inj_mul. cbn [Z.opp]. rewrite Z.pow_0_r. ring.
  - change (Z.neg k * Z.pos b) with (Z.neg (k * b)).
    cbn [exact_of_int double_of_int Z.opp].
    rewrite (SFdiv_exact true false (k * b) b 0 (Z.pos k));
      [reflexivity | lia | lia |].
    rewrite Pos2Z.inj_mul. cbn [Z.opp]. rewrite Z.pow_0_r. ring.
Qed.

Lemma iter_xO (m d : positive) :
  Z.pos (Pos.iter xO m d) = Z.pos m * 2 ^ Z.pos d.
Proof.
  induction d as [|d IH] using Pos.peano_ind.
  - cbn [Pos.iter]. change (Z.pos m~0) with (2 * Z.pos m).
    change (2 ^ 1) with 2. ring.
  - rewrite Pos.iter_succ, Pos2Z.inj_succ, Z.pow_succ_r by lia.
    change (Z.pos (Pos.iter xO m d)~0) with (2 * Z.pos (Pos.iter xO m d)).
    rewrite IH. ring.
Qed.

(** [shl_align] brings the exponent down to the smaller of the two and
    keeps the value. *)
Lemma shl_align_spec (m : positive) (e t : Z) :
  shl_align m e t
  = (Z.to_pos (Z.pos m * 2 ^ (e - Z.min e t)), Z.min e t).
Proof.
  unfold shl_align. destruct (t - e) as [|d|d] eqn:Ed.
  - replace (Z.min e t) with e by lia.
    now rewrite Z.sub_diag, Z.pow_0_r, Z.mul_1_r.
  - replace (Z.min e t) with e by lia.
    now rewrite Z.sub_diag, Z.pow_0_r, Z.mul_1_r.
  - replace (Z.min e t) with t by lia.
    replace (e - t) with (Z.pos d) by lia.
    now rewrite <- iter_xO.
Qed.

Lemma binary_round_exact (s : bool) (m : positive) (k e : Z) :
  0 < k < 2 ^ 53 -> e <= 0 -> Z.pos m = k * 2 ^ (- e) ->
  binary_round prec emax s m e = double_of s k.
Proof.
  intros Hk He Hm. pose proof (digits_below_53 k Hk) as Hd.
  unfold binary_round. rewrite shl_align_spec.
  change (Z.pos (digits2_pos m)) with (Zdigits2 (Z.pos m)).
  rewrite Hm, Zdigits2_mul_pow2 by lia.
  replace (Zdigits2 k + - e + e) with (Zdigits2 k) by lia.
  rewrite fexp_digits by lia.
  set (e0 := Z.min e (Zdigits2 k - 53)).
  assert (Hpos : 0 < k * 2 ^ (- e) * 2 ^ (e - e0)).
  { repeat apply Z.mul_pos_pos; try lia; apply Z.pow_pos_nonneg; lia. }
  rewrite Z2Pos.id by exact Hpos.
  replace (k * 2 ^ (- e) * 2 ^ (e - e0)) with (k * 2 ^ (- e0)).
  - apply round_exact; [exact Hk | lia].
  - rewrite <- Z.mul_assoc, <- Z.pow_add_r by lia. do 2 f_equal. lia.
Qed.

Lemma double_of_value (s : bool) (k : Z) :
  0 < k < 2 ^ 53 ->
  exists m e,
    double_of s k = S754_finite s m e /\ e <= 0 /\ Z.pos m = k * 2 ^ (- e).
Proof.
  intros Hk. pose proof (digits_below_53 k Hk) as Hd.
  eexists _, _. split; [reflexivity|]. split; [lia|].
  rewrite Z2Pos.id.
  - f_equal. f_equal. lia.
  - apply Z.mul_pos_pos; [lia|]. apply Z.pow_pos_nonneg; lia.
Qed.

(** Taking an integer from an integer, both below [2^53] like the
    difference, is exact. *)
Lemma float_sub_int_exact (s n : Z) :
  s <> 0 -> - 2 ^ 53 < s < 2 ^ 53 -> 0 < n ->
  - 2 ^ 53 < s - n < 2 ^ 53 ->
  float_sub_int (double_of_int s) n = double_of_int (s - n).
Proof.
  intros Hs Hlt Hn Hv. unfold float_sub_int.
  destruct n as [|n|n]; try lia. cbn [exact_of_int].
  set (sx := (s <? 0)).
  assert (Hx : double_of_int s = double_of sx (Z.abs s)).
  { subst sx. destruct s as [|k|k]; [lia | reflexivity | reflexivity]. }
  destruct (double_of_value sx (Z.abs s)) as (mx & ex & Ex & Hex & Hmx);
    [lia|].
  rewrite Hx, Ex. cbn [SFsub]. rewrite !shl_align_spec.
  replace (Z.min ex 0) with ex by lia.
  replace (Z.min ex ex) with ex by lia.
  replace (Z.min 0 ex) with ex by lia.
  cbn [fst]. rewrite Z.sub_diag, Z.pow_0_r, Z.mul_1_r, Pos2Z.id.
  assert (Hp : 0 < Z.pos n * 2 ^ (0 - ex)).
  { apply Z.mul_pos_pos; [lia|]. apply Z.pow_pos_nonneg; lia. }
  rewrite Z2Pos.id by exact Hp. cbn [cond_Zopp].
  assert (Hz : cond_Zopp sx (Z.pos mx) - Z.pos n * 2 ^ (0 - ex)
               = (s - Z.pos n) * 2 ^ (- ex)).
  { rewrite Hmx. replace (0 - ex) with (- ex) by lia.
    subst sx. destruct (Z.ltb_spec s 0); cbn [cond_Zopp]; nia. }
  rewrite Hz.
  assert (Hpow : 0 < 2 ^ (- ex)) by (apply Z.pow_pos_nonneg; lia).
  destruct (s - Z.pos n) as [|v|v] eqn:Ev.
  - reflexivity.
  - cbn [double_of_int].
    destruct (Z.pos v * 2 ^ (- ex)) as [|mz|mz] eqn:Emz; try lia.
    cbn [binary_normalize].
    apply binary_round_exact; [lia | lia | now rewrite <- Emz].
  - cbn [double_of_int].
    destruct (Z.neg v * 2 ^ (- ex)) as [|mz|mz] eqn:Emz; try lia.
    cbn [binary_normalize].
    apply binary_round_exact; [cbn; lia | lia |].
    change (- Z.neg v) with (Z.pos v).
    assert (Z.neg mz = - Z.pos mz) by reflexivity.
    assert (Z.neg v = - Z.pos v) by reflexivity. nia.
Qed.

(** *** Whole seconds *)

(** A double that holds an integer converts like the integer. *)
Lemma fromtimestamp_double_of_int (v : Z) :
  - 2 ^ 53 < v < 2 ^ 53 ->
  fromtimestamp (PyFloat (double_of_int v)) = from_timet_and_us v 0.
Proof.
  intros Hv.
  assert (G : forall s k, 0 < k < 2 ^ 53 ->
            fromtimestamp (PyFloat (double_of s k))
            = from_timet_and_us (if s then - k else k) 0).
  { intros s k Hk.
    destruct (double_of_value s k Hk) as (m & e & E & He & Hm).
    rewrite E. cbn [fromtimestamp]. unfold modf.
    destruct e as [|p|p]; [| lia |].
    - rewrite Hm. cbn [Z.opp]. rewrite !Z.pow_0_r, !Z.mul_1_r.
      destruct s; reflexivity.
    - change (Z.pow_pos 2 p) with (2 ^ Z.pos p).
      change (- Z.neg p) with (Z.pos p) in Hm. rewrite Hm.
      rewrite Z.div_mul, Z.mod_mul
        by (apply Z.neq_sym, Z.lt_neq, Z.pow_pos_nonneg; lia).
      destruct s; reflexivity. }
  destruct v as [|k|k].
  - reflexivity.
  - apply (G false (Z.pos k)). lia.
  - cbn [double_of_int]. rewrite (G true (- Z.neg k)) by (cbn; lia).
    reflexivity.
Qed.

(** *** How large a rounded number can be *)

Lemma Zdigits2_nonneg (m : Z) : 0 <= Zdigits2 m.
Proof. destruct m; simpl; lia. Qed.

Lemma Zdigits2_div_pow2 (m n : Z) :
  0 <= m -> 0 <= n -> Zdigits2 (m / 2 ^ n) + n <= Z.max (Zdigits2 m) n.
Proof.
  intros Hm Hn.
  assert (Hp : 0 < 2 ^ n) by (apply Z.pow_pos_nonneg; lia).
  assert (Hq : 0 <= m / 2 ^ n) by (apply Z.div_pos; lia).
  destruct (Z.eq_dec (m / 2 ^ n) 0) as [E|E]; [rewrite E; simpl; lia|].
  assert (Hm' : 0 < m) by (destruct (Z.eq_dec m 0); [subst; now rewrite Z.div_0_l in E by lia | lia]).
  pose proof (Zdigits2_bounds m Hm') as [_ Hhi].
  assert (Hge : 2 ^ n <= m).
  { destruct (Z.le_gt_cases (2 ^ n) m) as [|Hlt]; [assumption|].
    rewrite Z.div_small in E by lia. contradiction. }
  assert (Hdn : n < Zdigits2 m).
  { destruct (Z.lt_ge_cases n (Zdigits2 m)) as [|Hle]; [assumption|].
    assert (2 ^ Zdigits2 m <= 2 ^ n) by (apply Z.pow_le_mono_r; lia). lia. }
  assert (Zdigits2 (m / 2 ^ n) <= Zdigits2 m - n); [|lia].
  apply Zdigits2_le; [lia|].
  apply Z.div_lt_upper_bound; [lia|].
  rewrite <- Z.pow_add_r by lia. now replace (n + (Zdigits2 m - n)) with (Zdigits2 m) by lia.
Qed.

Lemma Zdigits2_succ (m : Z) : 0 <= m -> Zdigits2 (m + 1) <= Zdigits2 m + 1.
Proof.
  intros Hm. destruct (Z.eq_dec m 0) as [->|Hne]; [simpl; lia|].
  assert (Hm' : 0 < m) by lia.
  pose proof (Zdigits2_bounds m Hm') as [_ Hhi].
  pose proof (Zdigits2_pos m Hm').
  apply Zdigits2_le; [lia|]. rewrite Z.pow_add_r by lia.
  change (2 ^ 1) with 2. lia.
Qed.

Lemma Zdigits2_mono (a b : Z) : 0 <= a <= b -> Zdigits2 a <= Zdigits2 b.
Proof.
  intros [Ha Hab]. destruct (Z.eq_dec a 0) as [->|Hne].
  - apply Zdigits2_nonneg.
  - pose proof (Zdigits2_bounds b ltac:(lia)) as [_ Hhi].
    apply Zdigits2_le; lia.
Qed.

Lemma shr_m_of_loc (m : Z) (l : location) :
  shr_m (shr_record_of_loc m l) = m.
Proof. destruct l as [|[]]; reflexivity. Qed.

(** What [shr_fexp] returns: the mantissa shifted, not below zero, the
    number no larger than before. *)
Lemma shr_fexp_within (m e : Z) (l : location) (b t : Z) :
  0 <= m -> Zdigits2 m + e <= b -> - 1074 <= b -> e <= t ->
  exists mrs' e',
    shr_fexp prec emax m e l = (mrs', e')
    /\ 0 <= shr_m mrs'
    /\ Zdigits2 (shr_m mrs') + e' <= b
    /\ e' <= Z.max t (Z.max (b - 53) (- 1074)).
Proof.
  intros Hm Hb Hmin Ht. unfold shr_fexp.
  set (n := fexp prec emax (Zdigits2 m + e) - e).
  assert (Hn : n + e <= Z.max (b - 53) (- 1074)
               /\ n + e = Z.max (Zdigits2 m + e - 53) (- 1074)).
  { subst n. unfold fexp, emin, prec, emax. lia. }
  destruct n as [|p|p] eqn:En; cbn [shr].
  - eexists _, _. split; [reflexivity|]. rewrite shr_m_of_loc. lia.
  - eexists _, _. split; [reflexivity|].
    rewrite iter_pos_nat, iter_shr_m by (rewrite shr_m_of_loc; lia).
    rewrite shr_m_of_loc, positive_nat_Z.
    pose proof (Zdigits2_div_pow2 m (Z.pos p) Hm ltac:(lia)).
    split; [apply Z.div_pos; [lia | apply Z.pow_pos_nonneg; lia]|].
    split; lia.
  - eexists _, _. split; [reflexivity|]. rewrite shr_m_of_loc. lia.
Qed.

Lemma round_nearest_even_bounds (m : Z) (l : location) :
  m <= round_nearest_even m l <= m + 1.
Proof.
  unfold round_nearest_even. destruct l as [|[]]; try lia.
  destruct (Z.even m); lia.
Qed.

(** Rounding adds at most one binary digit, and yields no infinity and
    no NaN while the exponent stays in range. *)
Lemma round_within (s : bool) (mx ex : Z) (lx : location) (b : Z) :
  0 <= mx -> Zdigits2 mx + ex <= b -> ex <= 0 -> - 1074 <= b <= 1000 ->
  within (b + 1) (binary_round_aux prec emax s mx ex lx).
Proof.
  intros Hm Hb Hex Hrange. unfold binary_round_aux.
  destruct (shr_fexp_within mx ex lx b 0 Hm Hb ltac:(lia) Hex)
    as (mrs1 & e1 & E1 & Hm1 & Hb1 & He1).
  rewrite E1.
  pose proof (round_nearest_even_bounds (shr_m mrs1)
                (loc_of_shr_record mrs1)) as Hr.
  set (m1 := round_nearest_even (shr_m mrs1) (loc_of_shr_record mrs1)) in *.
  assert (Hd1 : Zdigits2 m1 + e1 <= b + 1).
  { pose proof (Zdigits2_mono m1 (shr_m mrs1 + 1) ltac:(lia)).
    pose proof (Zdigits2_succ (shr_m mrs1) Hm1). lia. }
  destruct (shr_fexp_within m1 e1 loc_Exact (b + 1) (Z.max 0 (b - 53))
              ltac:(lia) Hd1 ltac:(lia) ltac:(lia))
    as (mrs2 & e2 & E2 & Hm2 & Hb2 & He2).
  rewrite E2. destruct (shr_m mrs2) as [|m|m] eqn:Em; [exact I | | lia].
  assert (Hle : (e2 <=? emax - prec) = true)
    by (apply Z.leb_le; unfold emax, prec; lia).
  rewrite Hle. exact Hb2.
Qed.

(** The quotient of two mantissas has about as many digits as the
    dividend has more than the divisor. *)
Lemma div_core_within (m1 m2 : positive) (e1 e2 : Z) :
  exists q e' l,
    SFdiv_core_binary prec emax (Z.pos m1) e1 (Z.pos m2) e2 = (q, e', l)
    /\ 0 <= q /\ e' <= e1 - e2
    /\ Zdigits2 q + e'
       <= Z.max (Zdigits2 (Z.pos m1) + e1 - (Zdigits2 (Z.pos m2) + e2) + 1)
            (- 1074).
Proof.
  unfold SFdiv_core_binary.
  set (d1 := Zdigits2 (Z.pos m1)). set (d2 := Zdigits2 (Z.pos m2)).
  set (e' := Z.min (fexp prec emax (d1 + e1 - (d2 + e2))) (e1 - e2)).
  set (m' := match e1 - e2 - e' with
             | Z0 => Z.pos m1
             | Z.pos _ => Z.shiftl (Z.pos m1) (e1 - e2 - e')
             | Z.neg _ => 0
             end).
  assert (He' : e' <= e1 - e2
                /\ e' <= Z.max (d1 + e1 - (d2 + e2) - 53) (- 1074)).
  { subst e'. unfold fexp, emin, prec, emax. lia. }
  assert (Hm' : m' = Z.pos m1 * 2 ^ (e1 - e2 - e')).
  { subst m'. destruct (e1 - e2 - e') as [|p|p] eqn:Es; [| |lia].
    - now rewrite Z.pow_0_r, Z.mul_1_r.
    - now rewrite Z.shiftl_mul_pow2 by lia. }
  destruct (Z.div_eucl m' (Z.pos m2)) as [q r] eqn:E.
  assert (Hq : q = m' / Z.pos m2) by (unfold Z.div; now rewrite E).
  exists q, e', (new_location (Z.pos m2) r).
  split; [reflexivity|].
  assert (Hp : 0 < 2 ^ (e1 - e2 - e')) by (apply Z.pow_pos_nonneg; lia).
  assert (Hm'pos : 0 < m') by (rewrite Hm'; lia).
  assert (Hq0 : 0 <= q) by (rewrite Hq; apply Z.div_pos; lia).
  split; [exact Hq0|]. split; [lia|].
  destruct (Z.eq_dec q 0) as [->|Hne]; [simpl; lia|].
  assert (Hqm : q * Z.pos m2 <= m').
  { rewrite Hq, Z.mul_comm. apply Z.mul_div_le. lia. }
  assert (Hdm' : Zdigits2 m' = d1 + (e1 - e2 - e')).
  { rewrite Hm'. apply Zdigits2_mul_pow2; lia. }
  pose proof (Zdigits2_bounds q ltac:(lia)) as [Hql _].
  pose proof (Zdigits2_bounds (Z.pos m2) ltac:(lia)) as [H2l _].
  fold d2 in H2l.
  pose proof (Zdigits2_bounds m' Hm'pos) as [_ Hmh]. rewrite Hdm' in Hmh.
  pose proof (Zdigits2_pos q ltac:(lia)) as Hdq.
  pose proof (Zdigits2_pos (Z.pos m2) ltac:(lia)) as Hd2. fold d2 in Hd2.
  assert (Hlt : 2 ^ (Zdigits2 q - 1 + (d2 - 1)) < 2 ^ (d1 + (e1 - e2 - e'))).
  { rewrite Z.pow_add_r by lia.
    apply Z.le_lt_trans with (q * Z.pos m2); [|lia].
    apply Z.mul_le_mono_nonneg; try lia;
      apply Z.lt_le_incl, Z.pow_pos_nonneg; lia. }
  pose proof (Zdigits2_pos (Z.pos m1) ltac:(lia)) as Hd1. fold d1 in Hd1.
  apply Z.pow_lt_mono_r_iff in Hlt; lia.
Qed.

Lemma SFdiv_within (s1 s2 : bool) (m1 m2 : positive) (e1 e2 b : Z) :
  Zdigits2 (Z.pos m1) + e1 - (Zdigits2 (Z.pos m2) + e2) + 1 <= b ->
  e1 - e2 <= 0 -> - 1074 <= b <= 1000 ->
  within (b + 1)
    (SFdiv prec emax (S754_finite s1 m1 e1) (S754_finite s2 m2 e2)).
Proof.
  intros Hb He Hr.
  destruct (div_core_within m1 m2 e1 e2) as (q & e' & l & E & Hq & He' & Hd).
  cbn [SFdiv]. rewrite E. apply round_within; lia.
Qed.

(** A 64-bit integer over a million: a double below [2^46]. *)
Lemma int_truediv_int64 (t : Z) :
  int64 t ->
  exists q, int_truediv t 1000000 = Ok q /\ within 46 q.
Proof.
  intros [Hlo Hhi]. unfold int_truediv.
  assert (G : within 46
                (SFdiv prec emax (exact_of_int t) (exact_of_int 1000000))).
  { destruct t as [|p|p]; [exact I | |]; cbn [exact_of_int].
    - apply (SFdiv_within false false p 1000000 0 0 45); [|lia|lia].
      pose proof (Zdigits2_le (Z.pos p) 63 ltac:(lia) ltac:(lia)).
      change (Zdigits2 1000000) with 20. lia.
    - apply (SFdiv_within true false p 1000000 0 0 45); [|lia|lia].
      assert (Z.pos p <= 2 ^ 63) by lia.
      pose proof (Zdigits2_le (Z.pos p) 64 ltac:(lia) ltac:(lia)).
      change (Zdigits2 1000000) with 20. lia. }
  destruct (SFdiv prec emax (exact_of_int t) (exact_of_int 1000000));
    try contradiction; eexists; (split; [reflexivity | exact G]).
Qed.

Lemma binary_round_within (s : bool) (m : positive) (e b : Z) :
  Zdigits2 (Z.pos m) + e <= b -> e <= 0 -> - 1074 <= b <= 1000 ->
  within (b + 1) (binary_round prec emax s m e).
Proof.
  intros Hb He Hr. unfold binary_round.
  rewrite shl_align_spec.
  set (t := fexp prec emax (Z.pos (digits2_pos m) + e)).
  assert (Hp : 0 < Z.pos m * 2 ^ (e - Z.min e t)).
  { apply Z.mul_pos_pos; [lia|]. apply Z.pow_pos_nonneg; lia. }
  apply round_within; try lia.
  rewrite Z2Pos.id by exact Hp.
  rewrite Zdigits2_mul_pow2 by lia. lia.
Qed.

(** Taking an integer from a double adds at most two binary digits to the
    larger of the two. *)
Lemma float_sub_int_within (x : spec_float) (n b : Z) :
  within b x -> 0 < n -> Zdigits2 n <= b -> 0 <= b <= 999 ->
  within (b + 2) (float_sub_int x n).
Proof.
  intros Hx Hn Hdn Hr. unfold float_sub_int.
  destruct n as [|n|n]; try lia. cbn [exact_of_int].
  destruct x as [sx|sx| |sx mx ex]; try contradiction.
  - cbn [SFsub within]. lia.
  - cbn [within] in Hx. cbn [SFsub]. rewrite !shl_align_spec.
    set (ez := Z.min ex 0).
    replace (Z.min ex ez) with ez by lia.
    replace (Z.min 0 ez) with ez by lia. cbn [fst].
    assert (Hpa : 0 < 2 ^ (ex - ez)) by (apply Z.pow_pos_nonneg; lia).
    assert (Hpb : 0 < 2 ^ (0 - ez)) by (apply Z.pow_pos_nonneg; lia).
    rewrite !Z2Pos.id by (apply Z.mul_pos_pos; lia).
    set (a := Z.pos mx * 2 ^ (ex - ez)). set (c := Z.pos n * 2 ^ (0 - ez)).
    assert (Ha : 0 < a < 2 ^ (b - ez)).
    { split; [subst a; lia|].
      pose proof (Zdigits2_mul_pow2 (Z.pos mx) (ex - ez) ltac:(lia) ltac:(lia))
        as Hd. fold a in Hd.
      pose proof (Zdigits2_bounds a ltac:(subst a; lia)) as [_ Hh].
      apply Z.lt_le_trans with (2 ^ Zdigits2 a); [exact Hh|].
      apply Z.pow_le_mono_r; lia. }
    assert (Hc : 0 < c < 2 ^ (b - ez)).
    { split; [subst c; lia|].
      pose proof (Zdigits2_mul_pow2 (Z.pos n) (0 - ez) ltac:(lia) ltac:(lia))
        as Hd. fold c in Hd.
      pose proof (Zdigits2_bounds c ltac:(subst c; lia)) as [_ Hh].
      apply Z.lt_le_trans with (2 ^ Zdigits2 c); [exact Hh|].
      apply Z.pow_le_mono_r; lia. }
    assert (Hpow : 2 ^ (b - ez + 1) = 2 * 2 ^ (b - ez)).
    { rewrite Z.pow_add_r by lia. change (2 ^ 1) with 2. ring. }
    assert (Hz : Z.abs (cond_Zopp sx a - cond_Zopp false c)
                 < 2 ^ (b - ez + 1)).
    { rewrite Hpow. destruct sx; cbn [cond_Zopp]; lia. }
    destruct (cond_Zopp sx a - cond_Zopp false c) as [|z|z] eqn:Ez;
      cbn [binary_normalize]; [exact I | |].
    + replace (b + 2) with (b + 1 + 1) by lia.
      apply binary_round_within; [|lia|lia].
      pose proof (Zdigits2_le (Z.pos z) (b - ez + 1) ltac:(lia)
                    ltac:(cbn [Z.abs] in Hz; exact Hz)). lia.
    + replace (b + 2) with (b + 1 + 1) by lia.
      apply binary_round_within; [|lia|lia].
      pose proof (Zdigits2_le (Z.pos z) (b - ez + 1) ltac:(lia)
                    ltac:(cbn [Z.abs] in Hz; exact Hz)). lia.
Qed.

(** *** Seconds within [time_t] *)

Lemma modf_within (s : bool) (m : positive) (e b : Z) :
  Zdigits2 (Z.pos m) + e <= b -> 0 <= b ->
  Z.abs (fst (modf s m e)) < 2 ^ b.
Proof.
  intros Hd Hb.
  pose proof (Zdigits2_bounds (Z.pos m) ltac:(lia)) as [_ Hh].
  pose proof (Zdigits2_pos (Z.pos m) ltac:(lia)) as Hdp.
  unfold modf. destruct e as [|p|p]; cbn [fst].
  - rewrite Z.pow_0_r, Z.mul_1_r.
    assert (Z.pos m < 2 ^ b).
    { apply Z.lt_le_trans with (2 ^ Zdigits2 (Z.pos m)); [exact Hh|].
      apply Z.pow_le_mono_r; lia. }
    destruct s; lia.
  - assert (Hv : Z.pos m * 2 ^ Z.pos p < 2 ^ b).
    { apply Z.lt_le_trans with (2 ^ Zdigits2 (Z.pos m) * 2 ^ Z.pos p).
      - apply Z.mul_lt_mono_pos_r; [apply Z.pow_pos_nonneg; lia | exact Hh].
      - rewrite <- Z.pow_add_r by lia. apply Z.pow_le_mono_r; lia. }
    assert (0 < Z.pos m * 2 ^ Z.pos p)
      by (apply Z.mul_pos_pos; [lia | apply Z.pow_pos_nonneg; lia]).
    destruct s; lia.
  - change (Z.pow_pos 2 p) with (2 ^ Z.pos p).
    pose proof (Zdigits2_div_pow2 (Z.pos m) (Z.pos p) ltac:(lia) ltac:(lia))
      as Hq.
    assert (Hq0 : 0 <= Z.pos m / 2 ^ Z.pos p)
      by (apply Z.div_pos; [lia | apply Z.pow_pos_nonneg; lia]).
    assert (Hlt : Z.pos m / 2 ^ Z.pos p < 2 ^ b).
    { destruct (Z.eq_dec (Z.pos m / 2 ^ Z.pos p) 0) as [->|Hne];
        [apply Z.pow_pos_nonneg; lia|].
      pose proof (Zdigits2_bounds (Z.pos m / 2 ^ Z.pos p) ltac:(lia))
        as [_ Hqh].
      apply Z.lt_le_trans with (2 ^ Zdigits2 (Z.pos m / 2 ^ Z.pos p));
        [exact Hqh|].
      apply Z.pow_le_mono_r; [lia|].
      change (Z.neg p) with (- Z.pos p) in Hd. lia. }
    destruct s; lia.
Qed.

Lemma from_timet_caught (sec us : Z) :
  TIME_T_MIN <= sec <= TIME_T_MAX ->
  caught (from_timet_and_us sec us).
Proof.
  intros Hs. unfold from_timet_and_us.
  destruct (Z.ltb_spec sec TIME_T_MIN); [lia|].
  destruct (Z.ltb_spec TIME_T_MAX sec); [lia|]. cbn [orb].
  destruct (_ || _); [reflexivity|].
  destruct (_ || _); [reflexivity | exact I].
Qed.

(** On a double below [2^62] the conversion returns, or raises what the
    handlers catch. *)
Lemma fromtimestamp_caught (x : spec_float) (b : Z) :
  within b x -> 0 <= b <= 62 ->
  caught (fromtimestamp (PyFloat x)).
Proof.
  intros Hx Hb.
  destruct x as [sx|sx| |sx mx ex]; try contradiction.
  - reflexivity.
  - cbn [within] in Hx. cbn [fromtimestamp].
    pose proof (modf_within sx mx ex b Hx ltac:(lia)) as Hm.
    destruct (modf sx mx ex) as [intpart frac]. cbn [fst] in Hm.
    assert (Hp : 2 ^ b <= 2 ^ 62) by (apply Z.pow_le_mono_r; lia).
    assert (H62 : 2 * 2 ^ 62 = 2 ^ 63) by reflexivity.
    destruct (_ <=? _); [|destruct (_ <? _)];
      apply from_timet_caught; unfold TIME_T_MIN, TIME_T_MAX; lia.
Qed.

End FloatFacts.

(** ** Quotients between two doubles *)

Module FloatBrackets.

Import PyNum FloatPreds FloatFacts.
Local Open Scope Z_scope.

(** *** Comparing at a common exponent *)

Lemma le2_at (a ea b eb c : Z) :
  c <= ea -> c <= eb ->
  (le2 a ea b eb <-> a * 2 ^ (ea - c) <= b * 2 ^ (eb - c)).
Proof.
  intros Ha Hb. unfold le2. set (m := Z.min ea eb).
  assert (Hc : c <= m) by lia.
  replace (ea - c) with ((ea - m) + (m - c)) by lia.
  replace (eb - c) with ((eb - m) + (m - c)) by lia.
  rewrite !Z.pow_add_r by lia. rewrite !Z.mul_assoc.
  apply Z.mul_le_mono_pos_r. apply Z.pow_pos_nonneg; lia.
Qed.

Lemma le2_trans (a ea b eb c ec : Z) :
  le2 a ea b eb -> le2 b eb c ec -> le2 a ea c ec.
Proof.
  intros Hab Hbc. set (k := Z.min ea (Z.min eb ec)).
  apply (proj1 (le2_at a ea b eb k ltac:(lia) ltac:(lia))) in Hab.
  apply (proj1 (le2_at b eb c ec k ltac:(lia) ltac:(lia))) in Hbc.
  apply (le2_at a ea c ec k); lia.
Qed.

(** A number that is at least [2^g] has more than [g] digits before the
    point. *)
Lemma le2_one_digits (m e g : Z) :
  0 < m -> le2 1 g m e -> g < Zdigits2 m + e.
Proof.
  intros Hm Hle.
  destruct (Z.lt_ge_cases g (Zdigits2 m + e)) as [|Hge]; [assumption|].
  exfalso. pose proof (Zdigits2_bounds m Hm) as [_ Hhi].
  pose proof (Zdigits2_pos m Hm) as Hd.
  apply (proj1 (le2_at 1 g m e (Z.min g e) ltac:(lia) ltac:(lia))) in Hle.
  set (c := Z.min g e) in *.
  assert (Hp : 0 < 2 ^ (e - c)) by (apply Z.pow_pos_nonneg; lia).
  assert (Hlt : m * 2 ^ (e - c) < 2 ^ Zdigits2 m * 2 ^ (e - c))
    by (apply Z.mul_lt_mono_pos_r; assumption).
  rewrite <- Z.pow_add_r in Hlt by lia.
  assert (Hmono : 2 ^ (Zdigits2 m + (e - c)) <= 2 ^ (g - c))
    by (apply Z.pow_le_mono_r; lia).
  lia.
Qed.

(** *** Shifting, in general *)

Lemma shr_m_spec (mrs : shr_record) (e n : Z) :
  0 <= shr_m mrs -> 0 <= n ->
  shr_m (fst (shr mrs e n)) = shr_m mrs / 2 ^ n
  /\ snd (shr mrs e n) = e + n.
Proof.
  intros Hm Hn. destruct n as [|p|p]; [| |lia]; cbn [shr fst snd].
  - rewrite Z.pow_0_r, Z.div_1_r. lia.
  - rewrite iter_pos_nat, iter_shr_m, positive_nat_Z by exact Hm.
    split; reflexivity.
Qed.

(** *** Rounding a mantissa of 53 digits or more

    The mantissa loses its digits beyond the 53rd; the result is the
    mantissa that is left or the next one, and the one that is left when
    nothing but zeros was lost. *)
Lemma round_normal (s : bool) (q e : Z) (l : location) :
  2 ^ 52 <= q -> - 1074 <= e -> Zdigits2 q + e <= 1000 ->
  exists mr er,
    binary_round_aux prec emax s q e l = S754_finite s mr er
    /\ e + (Zdigits2 q - 53) <= er
    /\ q / 2 ^ (Zdigits2 q - 53)
       <= Z.pos mr * 2 ^ (er - (e + (Zdigits2 q - 53)))
       <= q / 2 ^ (Zdigits2 q - 53) + 1
    /\ (l = loc_Exact -> q mod 2 ^ (Zdigits2 q - 53) = 0 ->
        Z.pos mr * 2 ^ (er - (e + (Zdigits2 q - 53)))
        = q / 2 ^ (Zdigits2 q - 53)).
Proof.
  intros Hq He Hd.
  assert (H52 : 2 ^ 52 = 4503599627370496) by reflexivity.
  assert (H53 : 2 ^ 53 = 9007199254740992) by reflexivity.
  assert (Hq0 : 0 < q) by lia.
  pose proof (Zdigits2_bounds q Hq0) as [Hlo Hhi].
  set (dq := Zdigits2 q) in *.
  assert (Hdq : 53 <= dq).
  { destruct (Z.lt_ge_cases dq 53) as [Hlt|]; [|assumption].
    assert (2 ^ dq <= 2 ^ 52) by (apply Z.pow_le_mono_r; lia). lia. }
  set (n := dq - 53).
  assert (Hn : 0 <= n) by lia.
  assert (HN : 0 < 2 ^ n) by (apply Z.pow_pos_nonneg; lia).
  assert (Hq1 : 2 ^ 52 <= q / 2 ^ n < 2 ^ 53).
  { split.
    - apply Z.div_le_lower_bound; [lia|]. rewrite <- Z.pow_add_r by lia.
      replace (n + 52) with (dq - 1) by lia. exact Hlo.
    - apply Z.div_lt_upper_bound; [lia|]. rewrite <- Z.pow_add_r by lia.
      replace (n + 53) with dq by lia. exact Hhi. }
  remember (q / 2 ^ n) as q1 eqn:Eq1.
  unfold binary_round_aux, shr_fexp. fold dq.
  assert (Hf : fexp prec emax (dq + e) - e = n)
    by (unfold fexp, emin, prec, emax; lia).
  rewrite Hf.
  destruct (shr (shr_record_of_loc q l) e n) as [mrs1 e1] eqn:E1.
  pose proof (shr_m_spec (shr_record_of_loc q l) e n) as Hs.
  rewrite shr_m_of_loc in Hs. specialize (Hs ltac:(lia) Hn).
  rewrite E1 in Hs. cbn [fst snd] in Hs. destruct Hs as [Hm1 He1].
  rewrite <- Eq1 in Hm1.
  pose proof (round_nearest_even_bounds (shr_m mrs1)
                (loc_of_shr_record mrs1)) as Hr.
  assert (Hex : l = loc_Exact -> q mod 2 ^ n = 0 ->
                round_nearest_even (shr_m mrs1) (loc_of_shr_record mrs1)
                = q1).
  { intros -> Hmod.
    assert (Eq : q = q1 * 2 ^ n).
    { pose proof (Z.div_mod q (2 ^ n) ltac:(lia)) as Hdm.
      rewrite <- Eq1 in Hdm. lia. }
    cbn [shr_record_of_loc] in E1. rewrite Eq in E1.
    rewrite shr_exact in E1 by lia. injection E1 as <- <-. reflexivity. }
  remember (round_nearest_even (shr_m mrs1) (loc_of_shr_record mrs1))
    as q1' eqn:Eq1'.
  rewrite Hm1 in Hr. subst e1.
  destruct (Z.eq_dec q1' (2 ^ 53)) as [E53|N53].
  - (* the carry *)
    rewrite E53.
    assert (Hd54 : Zdigits2 (2 ^ 53) = 54) by reflexivity.
    rewrite Hd54.
    assert (Hf2 : fexp prec emax (54 + (e + n)) - (e + n) = 1)
      by (unfold fexp, emin, prec, emax; lia).
    rewrite Hf2. cbn [shr_record_of_loc].
    change (2 ^ 53) with (2 ^ 52 * 2 ^ 1) at 1.
    rewrite shr_exact by lia. cbn [shr_m]. rewrite H52.
    assert (Hle : (e + n + 1 <=? emax - prec) = true)
      by (apply Z.leb_le; unfold emax, prec; lia).
    rewrite Hle. exists 4503599627370496%positive, (e + n + 1).
    split; [reflexivity|]. split; [lia|].
    replace (e + n + 1 - (e + n)) with 1 by lia.
    change (Z.pos 4503599627370496 * 2 ^ 1) with (2 ^ 53).
    split; [lia|]. intros Hl Hmod. rewrite <- E53. now apply Hex.
  - assert (Hd53 : Zdigits2 q1' = 53) by (apply Zdigits2_unique; lia).
    rewrite Hd53.
    assert (Hf2 : fexp prec emax (53 + (e + n)) - (e + n) = 0)
      by (unfold fexp, emin, prec, emax; lia).
    rewrite Hf2. cbn [shr]. rewrite shr_m_of_loc.
    destruct q1' as [|mq|mq]; try lia.
    assert (Hle : (e + n <=? emax - prec) = true)
      by (apply Z.leb_le; unfold emax, prec; lia).
    rewrite Hle. exists mq, (e + n).
    split; [reflexivity|]. split; [lia|].
    rewrite Z.sub_diag, Z.pow_0_r, Z.mul_1_r.
    split; [lia|]. exact Hex.
Qed.

(** *** The quotient before it is rounded

    Of a double over an integer, not too small and not too large: the
    division is carried far enough for 53 digits. *)
Lemma div_core_normal (m1 m2 : positive) (e1 : Z) :
  - 1000 <= Zdigits2 (Z.pos m1) + e1 - Zdigits2 (Z.pos m2) ->
  exists q r e',
    SFdiv_core_binary prec emax (Z.pos m1) e1 (Z.pos m2) 0
    = (q, e', new_location (Z.pos m2) r)
    /\ e' <= e1
    /\ Z.min (- 1053) e1 <= e'
    /\ Z.pos m1 * 2 ^ (e1 - e') = Z.pos m2 * q + r
    /\ 0 <= r < Z.pos m2
    /\ 2 ^ 52 <= q
    /\ Zdigits2 q + e'
       <= Zdigits2 (Z.pos m1) + e1 - Zdigits2 (Z.pos m2) + 1.
Proof.
  intros HD. unfold SFdiv_core_binary.
  set (d1 := Zdigits2 (Z.pos m1)) in *.
  set (d2 := Zdigits2 (Z.pos m2)) in *.
  set (e' := Z.min (fexp prec emax (d1 + e1 - (d2 + 0))) (e1 - 0)).
  set (m' := match e1 - 0 - e' with
             | Z0 => Z.pos m1
             | Z.pos _ => Z.shiftl (Z.pos m1) (e1 - 0 - e')
             | Z.neg _ => 0
             end).
  assert (He' : e' <= e1 /\ e' <= d1 + e1 - d2 - 53
                /\ Z.min (- 1053) e1 <= e').
  { subst e'. unfold fexp, emin, prec, emax. lia. }
  destruct He' as (He'1 & He'2 & He'3).
  assert (Hm' : m' = Z.pos m1 * 2 ^ (e1 - e')).
  { subst m'. replace (e1 - 0 - e') with (e1 - e') by lia.
    destruct (e1 - e') as [|p|p] eqn:Es; [| |lia].
    - now rewrite Z.pow_0_r, Z.mul_1_r.
    - now rewrite Z.shiftl_mul_pow2 by lia. }
  pose proof (Z_div_mod m' (Z.pos m2) ltac:(lia)) as Hdm.
  destruct (Z.div_eucl m' (Z.pos m2)) as [q r] eqn:E.
  destruct Hdm as [Hdm Hr].
  exists q, r, e'. split; [reflexivity|].
  split; [exact He'1|]. split; [exact He'3|].
  split; [now rewrite <- Hm'|]. split; [exact Hr|].
  pose proof (Zdigits2_pos (Z.pos m1) ltac:(lia)) as Hd1. fold d1 in Hd1.
  pose proof (Zdigits2_pos (Z.pos m2) ltac:(lia)) as Hd2. fold d2 in Hd2.
  pose proof (Zdigits2_bounds (Z.pos m1) ltac:(lia)) as [H1l H1h].
  pose proof (Zdigits2_bounds (Z.pos m2) ltac:(lia)) as [H2l H2h].
  fold d1 in H1l, H1h. fold d2 in H2l, H2h.
  set (s := e1 - e') in *.
  assert (Hs : 53 + d2 - d1 <= s) by (subst s; lia).
  assert (Hs0 : 0 <= s) by (subst s; lia).
  assert (Hps : 0 < 2 ^ s) by (apply Z.pow_pos_nonneg; lia).
  assert (Hq52 : 2 ^ 52 <= q).
  { assert (Hlow : 2 ^ (d2 + 52) <= m').
    { rewrite Hm'.
      apply Z.le_trans with (2 ^ (d1 - 1) * 2 ^ s).
      - rewrite <- Z.pow_add_r by lia. apply Z.pow_le_mono_r; lia.
      - apply Z.mul_le_mono_nonneg_r; lia. }
    rewrite Z.pow_add_r in Hlow by lia.
    assert (H52 : 0 < 2 ^ 52) by (apply Z.pow_pos_nonneg; lia).
    assert (Hlt : 2 ^ d2 * 2 ^ 52 < 2 ^ d2 * (q + 1)).
    { apply Z.le_lt_trans with m'; [exact Hlow|].
      apply Z.lt_le_trans with (Z.pos m2 * (q + 1)); [lia|].
      apply Z.mul_le_mono_nonneg_r; [|lia].
      destruct (Z.le_gt_cases 0 (q + 1)) as [|Hneg]; [assumption|].
      exfalso. assert (Z.pos m2 * q <= Z.pos m2 * (- 2)); [|lia].
      apply Z.mul_le_mono_nonneg_l; lia. }
    apply Z.mul_lt_mono_pos_l in Hlt; [lia|].
    apply Z.pow_pos_nonneg; lia. }
  split; [exact Hq52|].
  assert (Hq0 : 0 < q) by (pose proof (Z.pow_pos_nonneg 2 52); lia).
  assert (Hqm : q * Z.pos m2 <= m') by lia.
  assert (Hdm' : Zdigits2 m' = d1 + s).
  { rewrite Hm'. apply Zdigits2_mul_pow2; lia. }
  pose proof (Zdigits2_bounds q Hq0) as [Hql _].
  pose proof (Zdigits2_bounds m' ltac:(lia)) as [_ Hmh].
  rewrite Hdm' in Hmh.
  pose proof (Zdigits2_pos q Hq0) as Hdq.
  assert (Hlt : 2 ^ (Zdigits2 q - 1 + (d2 - 1)) < 2 ^ (d1 + s)).
  { rewrite Z.pow_add_r by lia.
    apply Z.le_lt_trans with (q * Z.pos m2); [|lia].
    apply Z.mul_le_mono_nonneg; try lia;
      apply Z.lt_le_incl, Z.pow_pos_nonneg; lia. }
  apply Z.pow_lt_mono_r_iff in Hlt; [|lia|lia]. subst s. lia.
Qed.

(** *** The quotient between two doubles

    A double over an integer, rounded: a double [f * 2^g] that the exact
    quotient does not exceed is not exceeded by the rounded one, and a
    double the exact quotient is not below is not above the rounded
    one. *)
Lemma SFdiv_bracket (m1 m2 : positive) (e1 : Z) :
  - 1000 <= Zdigits2 (Z.pos m1) + e1 - Zdigits2 (Z.pos m2) <= 900 ->
  - 1074 <= e1 ->
  exists mr er,
    SFdiv prec emax (S754_finite false m1 e1) (S754_finite false m2 0)
    = S754_finite false mr er
    /\ Z.pos mr <= 2 ^ 53
    /\ (forall f g, 0 < f < 2 ^ 53 ->
          le2 (Z.pos m1) e1 (f * Z.pos m2) g -> le2 (Z.pos mr) er f g)
    /\ (forall f g, 0 < f < 2 ^ 53 ->
          le2 (f * Z.pos m2) g (Z.pos m1) e1 -> le2 f g (Z.pos mr) er).
Proof.
  intros [HD1 HD2] He1.
  destruct (div_core_normal m1 m2 e1 HD1)
    as (q & r & e' & E & He'1 & He'3 & Hdm & Hr & Hq52 & Hdq).
  destruct (round_normal false q e' (new_location (Z.pos m2) r)
              Hq52 ltac:(lia) ltac:(lia))
    as (mr & er & Er & Her & Hv & Hex).
  assert (H52 : 2 ^ 52 = 4503599627370496) by reflexivity.
  assert (H53 : 2 ^ 53 = 9007199254740992) by reflexivity.
  assert (Hq0 : 0 < q) by lia.
  pose proof (Zdigits2_bounds q Hq0) as [Hlo Hhi].
  set (dq := Zdigits2 q) in *.
  assert (Hdq53 : 53 <= dq).
  { destruct (Z.lt_ge_cases dq 53) as [Hlt|]; [|assumption].
    assert (2 ^ dq <= 2 ^ 52) by (apply Z.pow_le_mono_r; lia). lia. }
  set (n := dq - 53) in *.
  assert (Hn : 0 <= n) by lia.
  assert (HN : 0 < 2 ^ n) by (apply Z.pow_pos_nonneg; lia).
  assert (Hq1 : 2 ^ 52 <= q / 2 ^ n < 2 ^ 53).
  { split.
    - apply Z.div_le_lower_bound; [lia|]. rewrite <- Z.pow_add_r by lia.
      replace (n + 52) with (dq - 1) by lia. exact Hlo.
    - apply Z.div_lt_upper_bound; [lia|]. rewrite <- Z.pow_add_r by lia.
      replace (n + 53) with dq by lia. exact Hhi. }
  pose proof (Z.div_mod q (2 ^ n) ltac:(lia)) as Hqdm.
  pose proof (Z.mod_pos_bound q (2 ^ n) HN) as Hqmod.
  remember (q / 2 ^ n) as q1 eqn:Eq1.
  remember (q mod 2 ^ n) as q0 eqn:Eq0.
  set (e1' := e' + n) in *.
  remember (Z.pos mr * 2 ^ (er - e1')) as V eqn:EV.
  assert (Hpe : 1 <= 2 ^ (er - e1'))
    by (pose proof (Z.pow_pos_nonneg 2 (er - e1')); lia).
  exists mr, er. cbn [SFdiv]. rewrite E. cbn [xorb].
  split; [exact Er|]. split; [nia|].
  set (M2 := Z.pos m2) in *. set (M1 := Z.pos m1) in *.
  assert (HM2 : 0 < M2) by (subst M2; lia).
  split.
  - (* from above *)
    intros f g Hf Hle.
    assert (Hg : e1' <= g).
    { destruct (Z.le_gt_cases e1' g) as [|Hgt]; [assumption|]. exfalso.
      set (c := Z.min e' g).
      apply (proj1 (le2_at M1 e1 (f * M2) g c ltac:(lia) ltac:(lia))) in Hle.
      replace (e1 - c) with ((e1 - e') + (e' - c)) in Hle by lia.
      rewrite Z.pow_add_r, Z.mul_assoc, Hdm in Hle by lia.
      assert (HP : 0 < 2 ^ (e' - c)) by (apply Z.pow_pos_nonneg; lia).
      assert (HQ : 0 < 2 ^ (g - c)) by (apply Z.pow_pos_nonneg; lia).
      assert (Hpow : 2 * 2 ^ (g - c) <= 2 ^ n * 2 ^ (e' - c)).
      { rewrite <- Z.pow_add_r by lia.
        replace (2 * 2 ^ (g - c)) with (2 ^ (g - c + 1))
          by (rewrite Z.pow_add_r by lia; change (2 ^ 1) with 2; ring).
        apply Z.pow_le_mono_r; lia. }
      set (P := 2 ^ (e' - c)) in *. set (Q := 2 ^ (g - c)) in *.
      set (N := 2 ^ n) in *.
      assert (H1 : M2 * (2 ^ 52 * (N * P)) <= (M2 * q + r) * P).
      { apply Z.le_trans with (M2 * q * P); [|nia].
        rewrite <- !Z.mul_assoc. apply Z.mul_le_mono_nonneg_l; [lia|].
        rewrite Z.mul_assoc. apply Z.mul_le_mono_nonneg_r; [lia|]. nia. }
      assert (H2 : f * M2 * Q < M2 * (2 ^ 53 * Q)).
      { rewrite (Z.mul_comm f M2), <- Z.mul_assoc.
        apply Z.mul_lt_mono_pos_l; [exact HM2|].
        apply Z.mul_lt_mono_pos_r; lia. }
      assert (H3 : M2 * (2 ^ 53 * Q) <= M2 * (2 ^ 52 * (N * P))).
      { apply Z.mul_le_mono_nonneg_l; [lia|]. rewrite H52, H53. lia. }
      lia. }
    assert (HFs : 0 < 2 ^ (g - e1')) by (apply Z.pow_pos_nonneg; lia).
    apply (le2_at (Z.pos mr) er f g e1'); [lia | lia |]. rewrite <- EV.
    apply (proj1 (le2_at M1 e1 (f * M2) g e' ltac:(lia) ltac:(lia))) in Hle.
    rewrite Hdm in Hle.
    replace (g - e') with ((g - e1') + n) in Hle by (subst e1'; lia).
    rewrite Z.pow_add_r in Hle by lia.
    set (Fs := f * 2 ^ (g - e1')).
    assert (HleF : M2 * q + r <= M2 * (Fs * 2 ^ n)) by (subst Fs; lia).
    assert (HqF : q <= Fs * 2 ^ n).
    { apply Z.mul_le_mono_pos_l with M2; [exact HM2 | lia]. }
    assert (Hq1F : q1 <= Fs).
    { rewrite Eq1. apply Z.div_le_upper_bound; [lia | lia]. }
    destruct (Z.eq_dec q1 Fs) as [EF|NF]; [|lia].
    assert (Hq00 : q0 = 0) by nia.
    assert (Hr0 : r = 0) by nia.
    rewrite Hex; [lia | | lia].
    rewrite Hr0. apply new_location_exact.
  - (* from below *)
    intros f g Hf Hle.
    destruct (Z.le_gt_cases e1' g) as [Hg|Hg].
    + assert (HFs : 0 < 2 ^ (g - e1')) by (apply Z.pow_pos_nonneg; lia).
      apply (le2_at f g (Z.pos mr) er e1'); [lia | lia |]. rewrite <- EV.
      apply (proj1 (le2_at (f * M2) g M1 e1 e' ltac:(lia) ltac:(lia))) in Hle.
      rewrite Hdm in Hle.
      replace (g - e') with ((g - e1') + n) in Hle by (subst e1'; lia).
      rewrite Z.pow_add_r in Hle by lia.
      set (Fs := f * 2 ^ (g - e1')).
      assert (HleF : M2 * (Fs * 2 ^ n) < M2 * (q + 1)) by (subst Fs; lia).
      apply Z.mul_lt_mono_pos_l in HleF; [|exact HM2].
      assert (Hq1F : Fs <= q1).
      { rewrite Eq1. apply Z.div_le_lower_bound; [lia | lia]. }
      lia.
    + apply (le2_at f g (Z.pos mr) er g); [lia | lia |].
      rewrite Z.sub_diag, Z.pow_0_r, Z.mul_1_r.
      replace (er - g) with ((er - e1') + (e1' - g)) by lia.
      rewrite Z.pow_add_r, Z.mul_assoc, <- EV by lia.
      assert (Hp2 : 2 <= 2 ^ (e1' - g)).
      { change 2 with (2 ^ 1) at 1. apply Z.pow_le_mono_r; lia. }
      nia.
Qed.

(** *** Minutes against a whole number of minutes *)

Lemma float_le_int_le2 (m : positive) (e n : Z) :
  float_le_int (S754_finite false m e) n = true <-> le2 (Z.pos m) e n 0.
Proof.
  unfold float_le_int, le2. destruct e as [|p|p].
  - change (Z.min 0 0) with 0.
    rewrite Z.leb_le, !Z.sub_0_r, !Z.pow_0_r, !Z.mul_1_r. reflexivity.
  - replace (Z.min (Z.pos p) 0) with 0 by lia.
    rewrite Z.leb_le, !Z.sub_0_r, Z.pow_0_r, Z.mul_1_r. reflexivity.
  - replace (Z.min (Z.neg p) 0) with (Z.neg p) by lia.
    change (Z.pow_pos 2 p) with (2 ^ Z.pos p).
    rewrite Z.leb_le, Z.sub_diag, Z.pow_0_r, Z.mul_1_r. reflexivity.
Qed.

(** The comparison of [calculate_session_duration], a difference of [d]
    microseconds over [10**6] and over [60] against [n] minutes, both
    divisions in binary64: for [n] below [2^27] it decides as the
    integers do. *)
Lemma minutes_le_exact (d n : Z) :
  0 <= d < 2 ^ 63 -> 0 <= n < 2 ^ 27 ->
  float_le_int (float_div_int (total_seconds d) 60) n
  = (d <=? n * 60000000).
Proof.
  intros [Hd0 Hd] [Hn0 Hn].
  assert (H63 : 2 ^ 63 = 9223372036854775808) by reflexivity.
  assert (H53 : 2 ^ 53 = 9007199254740992) by reflexivity.
  assert (H27 : 2 ^ 27 = 134217728) by reflexivity.
  unfold float_div_int, total_seconds. change (10 ^ 6) with 1000000.
  destruct d as [|p|p]; [| |lia].
  - cbn [exact_of_int SFdiv xorb float_le_int].
    destruct (Z.leb_spec 0 n); destruct (Z.leb_spec 0 (n * 60000000)); lia.
  - cbn [exact_of_int].
    assert (Hdp : 0 < Zdigits2 (Z.pos p) <= 63).
    { split; [apply Zdigits2_pos; lia | apply Zdigits2_le; lia]. }
    destruct (SFdiv_bracket p 1000000 0) as (ma & ea & Ea & Hma & Ua & La).
    { change (Zdigits2 1000000) with 20. lia. }
    { lia. }
    rewrite Ea.
    assert (Hlow : - 20 < Zdigits2 (Z.pos ma) + ea).
    { apply le2_one_digits; [lia|].
      apply (La 1 (- 20)); [lia|].
      apply (le2_at _ _ _ _ (- 20)); [lia | lia |].
      change (2 ^ (-20 - -20)) with 1. change (2 ^ (0 - -20)) with 1048576.
      lia. }
    assert (Hhigh : Zdigits2 (Z.pos ma) + ea <= 45).
    { pose proof (SFdiv_within false false p 1000000 0 0 44) as Hw.
      change (Zdigits2 1000000) with 20 in Hw.
      specialize (Hw ltac:(lia) ltac:(lia) ltac:(lia)).
      rewrite Ea in Hw. exact Hw. }
    assert (Hdma : 0 < Zdigits2 (Z.pos ma) <= 54).
    { split; [apply Zdigits2_pos; lia|]. apply Zdigits2_le; [lia|].
      change (2 ^ 54) with 18014398509481984. lia. }
    destruct (SFdiv_bracket ma 60 ea) as (mb & eb & Eb & Hmb & Ub & Lb).
    { change (Zdigits2 60) with 6. lia. }
    { lia. }
    change (exact_of_int 60) with (S754_finite false 60 0). rewrite Eb.
    destruct (Z.leb_spec (Z.pos p) (n * 60000000)) as [Hle|Hgt].
    + apply float_le_int_le2.
      apply (Ub n 0); [lia|].
      rewrite (Z.mul_comm n 60).
      apply (Ua (60 * n) 0); [lia|].
      apply (le2_at _ _ _ _ 0); [lia | lia |].
      rewrite Z.sub_diag, Z.pow_0_r. lia.
    + apply not_true_is_false. intros Htrue.
      apply float_le_int_le2 in Htrue.
      destruct (Z.eq_dec n 0) as [->|Hn1].
      * apply (proj1 (le2_at (Z.pos mb) eb 0 0 (Z.min eb 0)
                          ltac:(lia) ltac:(lia))) in Htrue.
        assert (0 < 2 ^ (eb - Z.min eb 0)) by (apply Z.pow_pos_nonneg; lia).
        nia.
      * assert (Ha : le2 (60 * n * 1048576 + 1) (- 20) (Z.pos ma) ea).
        { apply La; [lia|].
          apply (le2_at _ _ _ _ (- 20)); [lia | lia |].
          change (2 ^ (-20 - -20)) with 1.
          change (2 ^ (0 - -20)) with 1048576. lia. }
        assert (Hb : le2 (n * 67108864 + 1) (- 26) (Z.pos mb) eb).
        { apply Lb; [lia|].
          apply (le2_trans _ _ (60 * n * 1048576 + 1) (- 20)); [|exact Ha].
          apply (le2_at _ _ _ _ (- 26)); [lia | lia |].
          change (2 ^ (-26 - -26)) with 1.
          change (2 ^ (-20 - -26)) with 64. lia. }
        pose proof (le2_trans _ _ _ _ _ _ Hb Htrue) as Hc.
        apply (proj1 (le2_at (n * 67108864 + 1) (- 26) n 0 (- 26)
                        ltac:(lia) ltac:(lia))) in Hc.
        change (2 ^ (-26 - -26)) with 1 in Hc.
        change (2 ^ (0 - -26)) with 67108864 in Hc. lia.
Qed.

End FloatBrackets.

(** ** The timestamp conversions *)

Module TimeProps.

Import Py PyNum TimezoneConverter FloatPreds FloatFacts.
Local Open Scope Z_scope.

(** The sentinel is the Unix epoch itself. *)
Lemma epoch_sentinel_value : epoch_sentinel = Ok 0.
Proof. reflexivity. Qed.

(** A division of two [int]s raises nothing but [OverflowError]. *)
Lemma int_truediv_raises (a b : Z) (e : pyexc) :
  int_truediv a b = Raise e ->
  e = OverflowError "integer division result too large for a float".
Proof.
  unfold int_truediv.
  destruct (SFdiv prec emax (exact_of_int a) (exact_of_int b));
    intros E; inversion E; reflexivity.
Qed.

Lemma chrome_seconds_raises (t : Z) (e : pyexc) :
  chrome_seconds t = Raise e ->
  is_ValueError e || is_OSError e = false.
Proof.
  unfold chrome_seconds.
  destruct (int_truediv t 1000000) as [q|e'] eqn:E; simpl; [discriminate|].
  intros E'. inversion E'; subst e'.
  now rewrite (int_truediv_raises _ _ _ E).
Qed.

(** On a float zero both branches of [unix_timestamp_to_datetime] give the
    epoch. *)
Lemma fromtimestamp_float_zero (x : spec_float) :
  float_is_zero x = true ->
  try_except_ValueError_OSError (fromtimestamp (PyFloat x)) epoch_sentinel
  = epoch_sentinel.
Proof. destruct x; simpl; try discriminate. reflexivity. Qed.

(** The seconds the Chromium conversion hands on are its argument over
    [1000000], less [11644473600], both in binary64. *)
Lemma chrome_seconds_written_out (t : Z) :
  t <> 0 ->
  chrome_timestamp_to_datetime t
  = try_except_ValueError_OSError
      (bind (int_truediv t 1000000)
         (fun q => fromtimestamp (PyFloat (float_sub_int q 11644473600))))
      epoch_sentinel.
Proof.
  intros Ht. unfold chrome_timestamp_to_datetime, chrome_seconds.
  destruct (Z.eqb_spec t 0) as [E|_]; [contradiction|].
  now destruct (int_truediv t 1000000).
Qed.

(** What the handler of the three conversions does with a body that returns
    or raises one of the two exceptions it names. *)
Lemma guarded_returns {A} (body : pyresult A) (a0 : A) :
  caught body ->
  (exists a, try_except_ValueError_OSError body (Ok a0) = Ok a)
  /\ (forall e, body = Raise e ->
        try_except_ValueError_OSError body (Ok a0) = Ok a0).
Proof.
  destruct body as [a|e]; cbn [caught try_except_ValueError_OSError].
  - intros _. split; [now exists a | discriminate].
  - intros ->. split; [now exists a0 | reflexivity].
Qed.

(** On a 64-bit integer the seconds of the Chromium conversion are a double
    below [2^48], those of the Gecko conversion one below [2^46]. *)
Lemma chrome_body_caught (t : Z) :
  int64 t ->
  caught (bind (int_truediv t 1000000)
            (fun q => fromtimestamp (PyFloat (float_sub_int q 11644473600)))).
Proof.
  intros Ht. destruct (int_truediv_int64 t Ht) as (q & E & Hq).
  rewrite E. cbn [bind].
  apply (fromtimestamp_caught _ 48); [|lia].
  apply (float_sub_int_within q 11644473600 46); [exact Hq | lia | | lia].
  vm_compute. discriminate.
Qed.

Lemma firefox_body_caught (t : Z) :
  int64 t ->
  caught (bind (int_truediv t 1000000)
            (fun q => fromtimestamp (PyFloat q))).
Proof.
  intros Ht. destruct (int_truediv_int64 t Ht) as (q & E & Hq).
  rewrite E. cbn [bind]. apply (fromtimestamp_caught _ 46); [exact Hq | lia].
Qed.

Lemma unix_body_caught (t : Z) :
  int64 t -> caught (fromtimestamp (PyInt t)).
Proof.
  intros Ht. cbn [fromtimestamp]. apply from_timet_caught.
  unfold int64 in Ht. unfold TIME_T_MIN, TIME_T_MAX. exact Ht.
Qed.




(** At [0] the guard returns the epoch; the shifted seconds would be
    1601-01-01T00:00:00Z. *)
Remark chrome_zero_is_the_guard :
  chrome_timestamp_to_datetime 0 = Ok 0
  /\ unix_timestamp_to_datetime (PyInt (0 / 1000000 - 11644473600))
     = Ok (-11644473600000000).
Proof. split; vm_compute; reflexivity. Qed.

(** C5: on every 64-bit integer, the integers of the three operations and
    of the SQLite columns they are called on, the Chromium, the Gecko and
    the Unix conversion each return a [datetime] and raise nothing; and
    whenever the arithmetic inside a conversion fails, whatever it raises,
    the conversion returns the Unix epoch sentinel. *)
Theorem conversions_are_total_on_int64 (t : Z) :
  int64 t ->
  (exists d, chrome_timestamp_to_datetime t = Ok d)
  /\ (exists d, firefox_timestamp_to_datetime t = Ok d)
  /\ (exists d, unix_timestamp_to_datetime (PyInt t) = Ok d)
  /\ (forall e,
        bind (int_truediv t 1000000)
          (fun q => fromtimestamp (PyFloat (float_sub_int q 11644473600)))
        = Raise e ->
        chrome_timestamp_to_datetime t = epoch_sentinel)
  /\ (forall e,
        bind (int_truediv t 1000000) (fun q => fromtimestamp (PyFloat q))
        = Raise e ->
        firefox_timestamp_to_datetime t = epoch_sentinel)
  /\ (forall e,
        fromtimestamp (PyInt t) = Raise e ->
        unix_timestamp_to_datetime (PyInt t) = epoch_sentinel)
  /\ epoch_sentinel = Ok 0.
Proof.
  intros Ht.
  destruct (guarded_returns _ 0 (chrome_body_caught t Ht)) as [Hc1 Hc2].
  destruct (guarded_returns _ 0 (firefox_body_caught t Ht)) as [Hf1 Hf2].
  destruct (guarded_returns _ 0 (unix_body_caught t Ht)) as [Hu1 Hu2].
  change (Ok 0) with epoch_sentinel in Hc1, Hc2, Hf1, Hf2, Hu1, Hu2.
  assert (Hchrome : t <> 0 -> chrome_timestamp_to_datetime t
            = try_except_ValueError_OSError
                (bind (int_truediv t 1000000)
                   (fun q => fromtimestamp
                               (PyFloat (float_sub_int q 11644473600))))
                epoch_sentinel) by apply chrome_seconds_written_out.
  unfold firefox_timestamp_to_datetime, unix_timestamp_to_datetime.
  cbn [num_is_zero].
  destruct (Z.eqb_spec t 0) as [E0|Hne].
  - subst t. repeat split; try (now exists 0); intros; reflexivity.
  - rewrite (Hchrome Hne). repeat split; assumption.
Qed.

(** The largest 64-bit integer: all three conversions degrade to the
    epoch. *)
Lemma conversions_are_total_witness :
  (exists d, chrome_timestamp_to_datetime (2 ^ 63 - 1) = Ok d)
  /\ (exists d, firefox_timestamp_to_datetime (2 ^ 63 - 1) = Ok d)
  /\ (exists d, unix_timestamp_to_datetime (PyInt (2 ^ 63 - 1)) = Ok d)
  /\ (forall e,
        bind (int_truediv (2 ^ 63 - 1) 1000000)
          (fun q => fromtimestamp (PyFloat (float_sub_int q 11644473600)))
        = Raise e ->
        chrome_timestamp_to_datetime (2 ^ 63 - 1) = epoch_sentinel)
  /\ (forall e,
        bind (int_truediv (2 ^ 63 - 1) 1000000)
          (fun q => fromtimestamp (PyFloat q))
        = Raise e ->
        firefox_timestamp_to_datetime (2 ^ 63 - 1) = epoch_sentinel)
  /\ (forall e,
        fromtimestamp (PyInt (2 ^ 63 - 1)) = Raise e ->
        unix_timestamp_to_datetime (PyInt (2 ^ 63 - 1)) = epoch_sentinel)
  /\ epoch_sentinel = Ok 0.
Proof.
  apply (conversions_are_total_on_int64 (2 ^ 63 - 1)).
  unfold int64. lia.
Defined.

(** The arithmetic does fail on 64-bit integers, and the sentinel is what
    comes back: the year of [2^63 - 1] microseconds is beyond 9999, and
    [gmtime] has no year for [2^63 - 1] or [- 2^63] seconds. *)
Example conversions_degrade :
  bind (int_truediv (2 ^ 63 - 1) 1000000)
    (fun q => fromtimestamp (PyFloat (float_sub_int q 11644473600)))
  = Raise (ValueError "year is out of range")
  /\ chrome_timestamp_to_datetime (2 ^ 63 - 1) = Ok 0
  /\ firefox_timestamp_to_datetime (2 ^ 63 - 1) = Ok 0
  /\ fromtimestamp (PyInt (2 ^ 63 - 1))
     = Raise (OSError "[Errno 75] Value too large for defined data type")
  /\ unix_timestamp_to_datetime (PyInt (2 ^ 63 - 1)) = Ok 0
  /\ chrome_timestamp_to_datetime (- 2 ^ 63) = Ok 0
  /\ firefox_timestamp_to_datetime (- 2 ^ 63) = Ok 0
  /\ unix_timestamp_to_datetime (PyInt (- 2 ^ 63)) = Ok 0.
Proof. repeat split; vm_compute; reflexivity. Qed.

(** Beyond 64 bits [OverflowError] leaves the conversions: it is not among
    the exceptions they catch. *)
Remark overflow_beyond_int64 :
  unix_timestamp_to_datetime (PyInt (2 ^ 63))
  = Raise (OverflowError "timestamp out of range for platform time_t")
  /\ chrome_timestamp_to_datetime (10 ^ 25)
     = Raise (OverflowError "timestamp out of range for platform time_t")
  /\ firefox_timestamp_to_datetime (10 ^ 400)
     = Raise (OverflowError "integer division result too large for a float").
Proof. repeat split; vm_compute; reflexivity. Qed.

End TimeProps.

(** ** Session segmentation *)

Module AnalyticsProps.

Import PyNum Models Analytics Preds Samples.
Local Open Scope Z_scope.

(** *** The gap test

    The code compares [delta.total_seconds() / 60], two divisions in
    binary64, with the gap.  Between two [datetime]s in their order, and
    for a gap below [2^27] minutes (some 255 years), that is the
    comparison of the microseconds. *)
Lemma same_session_exact (gap : Z) (a b : HistoryEntry) :
  0 <= gap < 2 ^ 27 -> in_order a b ->
  same_session gap a b
  = (visit_time b - visit_time a <=? gap * 60000000).
Proof.
  intros Hgap (Hle & Ha & Hb). unfold same_session, time_gap.
  apply FloatBrackets.minutes_le_exact; [|exact Hgap].
  unfold time_le in Hle. unfold in_datetime_range in Ha, Hb.
  unfold MIN_SECONDS, MAX_SECONDS in Ha, Hb.
  change (2 ^ 63) with 9223372036854775808. lia.
Qed.

Lemma same_session_within (gap : Z) (a b : HistoryEntry) :
  0 <= gap < 2 ^ 27 -> in_order a b ->
  same_session gap a b = true -> step_within gap a b.
Proof.
  intros Hgap Hab. rewrite (same_session_exact gap a b Hgap Hab).
  unfold step_within. now intros E%Z.leb_le.
Qed.

Lemma same_session_beyond (gap : Z) (a b : HistoryEntry) :
  0 <= gap < 2 ^ 27 -> in_order a b ->
  same_session gap a b = false -> step_beyond gap a b.
Proof.
  intros Hgap Hab. rewrite (same_session_exact gap a b Hgap Hab).
  unfold step_beyond. now intros E%Z.leb_gt.
Qed.

(** *** Neighbour chains *)

Section Chain.
Context {A : Type} (R : A -> A -> Prop).

Lemma chain_snoc (l : list A) (x : A) :
  chain R l -> (forall a, last l = Some a -> R a x) -> chain R (l ++ [x]).
Proof.
  induction l as [|a l IH]; intros Hc Hl; simpl; [exact I|].
  destruct l as [|b l]; simpl in *.
  - split; [now apply Hl | exact I].
  - destruct Hc as [Hab Hc]. split; [exact Hab|].
    apply IH; [exact Hc | exact Hl].
Qed.

Lemma chain_snoc_inv (l : list A) (x : A) :
  chain R (l ++ [x]) -> chain R l /\ (forall a, last l = Some a -> R a x).
Proof.
  induction l as [|a l IH]; intros Hc; simpl in *.
  - split; [exact I | discriminate].
  - destruct l as [|b l]; simpl in *.
    + split; [exact I|]. intros a' E. inversion E; subst. apply Hc.
    + destruct Hc as [Hab Hc]. destruct (IH Hc) as [Hl Hx].
      split; [now split | exact Hx].
Qed.

Lemma chain_map {B} (f : B -> A) (l : list B) :
  chain (fun a b => R (f a) (f b)) l -> chain R (map f l).
Proof.
  induction l as [|a l IH]; simpl; [trivial|].
  destruct l as [|b l]; simpl in *; [trivial|].
  intros [Hab Hc]. split; [exact Hab | now apply IH].
Qed.

End Chain.

(** *** The sort *)

Lemma insert_by_time_perm (x : HistoryEntry) (l : list HistoryEntry) :
  Permutation (x :: l) (insert_by_time x l).
Proof.
  induction l as [|y l IH]; simpl; [reflexivity|].
  destruct (visit_time x <=? visit_time y); [reflexivity|].
  rewrite perm_swap. now constructor.
Qed.

Lemma sorted_by_visit_time_perm (l : list HistoryEntry) :
  Permutation l (sorted_by_visit_time l).
Proof.
  induction l as [|x l IH]; simpl; [constructor|].
  rewrite <- insert_by_time_perm. now constructor.
Qed.

Lemma insert_by_time_sorted (x : HistoryEntry) (l : list HistoryEntry) :
  StronglySorted time_le l -> StronglySorted time_le (insert_by_time x l).
Proof.
  induction 1 as [|y l Hs IH Hy]; simpl.
  - repeat constructor.
  - destruct (Z.leb_spec (visit_time x) (visit_time y)) as [Hle|Hgt].
    + constructor; [now constructor|]. constructor; [exact Hle|].
      eapply Forall_impl; [exact Hy|]. unfold time_le. simpl. intros; lia.
    + constructor; [exact IH|].
      rewrite <- insert_by_time_perm. constructor; [|exact Hy].
      unfold time_le. lia.
Qed.

Lemma sorted_by_visit_time_sorted (l : list HistoryEntry) :
  StronglySorted time_le (sorted_by_visit_time l).
Proof.
  induction l as [|x l IH]; simpl; [constructor|].
  now apply insert_by_time_sorted.
Qed.

(** The sorted entries, all with a [datetime], are in order step by
    step. *)
Lemma sorted_in_order (l : list HistoryEntry) :
  StronglySorted time_le l ->
  Forall (fun e => in_datetime_range (visit_time e)) l ->
  chain in_order l.
Proof.
  induction 1 as [|a l Hs IH Ha]; intros Hv; [exact I|].
  inversion Hv as [|? ? Hva Hvl]; subst.
  destruct l as [|b l]; [exact I|]. cbn [chain].
  split; [|now apply IH].
  inversion Ha as [|? ? Hab _]; subst.
  inversion Hvl as [|? ? Hvb _]; subst.
  split; [exact Hab | split; assumption].
Qed.

(** *** The loop *)

Lemma new_session_within (gap : Z) (entry : HistoryEntry) :
  open_within gap (new_session entry).
Proof. split; [exact I|]. now exists entry, entry. Qed.

Lemma extend_session_within (gap : Z) (s : open_session)
  (prev entry : HistoryEntry) :
  open_within gap s -> last (o_entries s) = Some prev ->
  step_within gap prev entry ->
  open_within gap (extend_session s entry).
Proof.
  intros [Hc (first & final & Hh & Hl & Hs & He)] Hprev Hgap. split; simpl.
  - apply chain_snoc; [exact Hc|]. intros a Ha. congruence.
  - exists first, entry. repeat split; try assumption.
    + destruct (o_entries s); [discriminate | exact Hh].
    + apply last_snoc.
Qed.

Lemma extend_session_split (gap : Z) (s0 s : open_session)
  (entry : HistoryEntry) :
  o_entries s <> [] -> open_split gap s0 s ->
  open_split gap s0 (extend_session s entry).
Proof.
  intros Hne (a & b & Ha & Hb & Hab). exists a, b. repeat split; try assumption.
  simpl. destruct (o_entries s); [contradiction | exact Hb].
Qed.

Lemma session_loop_concat (gap : Z) (rest : list HistoryEntry) :
  forall sessions current prev,
  concat (map o_entries (session_loop gap sessions current prev rest))
  = concat (map o_entries sessions) ++ o_entries current ++ rest.
Proof.
  induction rest as [|entry rest IH]; intros sessions current prev; simpl.
  - rewrite map_app, concat_app. simpl. now rewrite !app_nil_r.
  - destruct (same_session gap prev entry); rewrite IH; simpl.
    + now rewrite <- app_assoc.
    + rewrite map_app, concat_app. simpl.
      now rewrite app_nil_r, <- app_assoc.
Qed.

Lemma session_loop_within (gap : Z) (rest : list HistoryEntry) :
  0 <= gap < 2 ^ 27 ->
  forall sessions current prev,
  chain in_order (prev :: rest) ->
  Forall (open_within gap) sessions ->
  open_within gap current ->
  last (o_entries current) = Some prev ->
  Forall (open_within gap) (session_loop gap sessions current prev rest).
Proof.
  intros Hgap.
  induction rest as [|entry rest IH];
    intros sessions current prev Ho Hs Hc Hp; simpl.
  - apply Forall_app. split; [exact Hs | now constructor].
  - destruct Ho as [Hpe Ho].
    destruct (same_session gap prev entry) eqn:Htest.
    + apply IH; [exact Ho | exact Hs | |apply last_snoc].
      apply (extend_session_within gap current prev); try assumption.
      now apply same_session_within.
    + apply IH; [exact Ho | |apply new_session_within | reflexivity].
      apply Forall_app. split; [exact Hs | now constructor].
Qed.

Lemma session_loop_split (gap : Z) (rest : list HistoryEntry) :
  0 <= gap < 2 ^ 27 ->
  forall sessions current prev,
  chain in_order (prev :: rest) ->
  chain (open_split gap) (sessions ++ [current]) ->
  last (o_entries current) = Some prev ->
  chain (open_split gap) (session_loop gap sessions current prev rest).
Proof.
  intros Hgap.
  induction rest as [|entry rest IH];
    intros sessions current prev Ho Hc Hp; simpl.
  - exact Hc.
  - destruct Ho as [Hpe Ho].
    destruct (same_session gap prev entry) eqn:Htest.
    + apply IH; [exact Ho | |apply last_snoc].
      apply chain_snoc_inv in Hc. destruct Hc as [Hc Hlast].
      apply chain_snoc; [exact Hc|]. intros s0 Hs0.
      apply extend_session_split; [|now apply Hlast].
      intros E. now rewrite E in Hp.
    + apply IH; [exact Ho | |reflexivity].
      apply chain_snoc; [exact Hc|]. intros s0 Hs0.
      rewrite last_snoc in Hs0. inversion Hs0; subst s0.
      exists prev, entry. repeat split; try assumption.
      now apply same_session_beyond.
Qed.

Lemma close_session_within (gap : Z) (s : open_session) :
  open_within gap s -> session_within gap (close_session s).
Proof.
  intros [Hc (first & final & Hh & Hl & Hs & He)]. split; [exact Hc|].
  exists first, final. now repeat split.
Qed.

(** A single entry: one session, of zero duration. *)
Lemma single_entry_session (entry : HistoryEntry) (gap : Z) :
  calculate_session_duration [entry] gap
  = [ {| start := visit_time entry;
         end_ := visit_time entry;
         entries := [entry];
         domains := {[ domain entry ]};
         duration_minutes := S754_zero false;
         entry_count := 1;
         unique_domains := 1 |} ].
Proof.
  unfold calculate_session_duration, close_session, session_loop,
    sorted_by_visit_time, insert_by_time, new_session, map.
  cbn [o_start o_end o_entries o_domains length app].
  rewrite Z.sub_diag, size_singleton. reflexivity.
Qed.




(** The cut is strict: a step of exactly the gap stays in the session, one
    microsecond more starts a new one; the input order does not matter. *)
Example session_gap_boundary :
  map entry_count
    (calculate_session_duration [visit_at 0 0; visit_at 30 0] 30) = [2%nat]
  /\ map entry_count
       (calculate_session_duration [visit_at 0 0; visit_at 30 1] 30)
     = [1%nat; 1%nat]
  /\ map entry_count
       (calculate_session_duration
          [visit_at 50 0; visit_at 0 0; visit_at 45 0; visit_at 10 0] 30)
     = [2%nat; 2%nat].
Proof. repeat split; vm_compute; reflexivity. Qed.

End AnalyticsProps.

(** ** The safe database access layer *)

Module FilesProps.

Import Files Security Hashing BaseParser Preds Samples.
Local Open Scope Z_scope.

(** *** Last characters of paths *)

Lemma last_char_app (s t : string) :
  t <> "" -> last_char (s +:+ t) = last_char t.
Proof.
  intros Ht. induction s as [|c s IH]; simpl; [reflexivity|].
  destruct (s +:+ t) eqn:E; [|exact IH].
  destruct s; simpl in E; [contradiction | discriminate].
Qed.

Lemma lower_app (s t : string) :
  PyStr.lower (s +:+ t) = PyStr.lower s +:+ PyStr.lower t.
Proof. induction s as [|c s IH]; simpl; [reflexivity | now rewrite IH]. Qed.

Lemma substring_all (s : string) : substring 0 (String.length s) s = s.
Proof. induction s as [|c s IH]; simpl; [reflexivity | now rewrite IH]. Qed.

Lemma substring_tail (s : string) (m : nat) :
  (m <= String.length s)%nat ->
  exists p, s = p +:+ substring (String.length s - m) m s.
Proof.
  induction s as [|c s IH]; intros Hm.
  - exists "". simpl in *. destruct m; [reflexivity | lia].
  - simpl in Hm. destruct (Nat.eq_dec m (S (String.length s))) as [->|Hne].
    + exists "". change (String.length (String c s))
        with (S (String.length s)).
      rewrite Nat.sub_diag. simpl. now rewrite substring_all.
    + destruct IH as [p Hp]; [lia|]. exists (String c p).
      change (String.length (String c s)) with (S (String.length s)).
      replace (S (String.length s) - m)%nat
        with (S (String.length s - m)) by lia.
      change (String c p +:+ substring (S (String.length s - m)) m (String c s))
        with (String c (p +:+ substring (String.length s - m) m s)).
      now rewrite <- Hp.
Qed.

Lemma endswith_last_char (suf s : string) :
  suf <> "" -> PyStr.endswith suf s = true -> last_char s = last_char suf.
Proof.
  unfold PyStr.endswith. intros Hne H.
  apply andb_true_iff in H. destruct H as [Hlen Heq].
  apply Nat.leb_le in Hlen. apply String.eqb_eq in Heq.
  destruct (substring_tail s _ Hlen) as [p Hp].
  rewrite Heq in Hp. rewrite Hp. now apply last_char_app.
Qed.

Lemma has_allowed_extension_tail (path : string) :
  has_allowed_extension path = true -> db_tail path.
Proof.
  unfold has_allowed_extension, allowed_extensions, db_tail. simpl.
  rewrite !orb_true_iff. intros [H | [H | [H | H]]]; [| | |discriminate].
  - left. now rewrite (endswith_last_char ".db" _ ltac:(discriminate) H).
  - right. left.
    now rewrite (endswith_last_char ".sqlite" _ ltac:(discriminate) H).
  - right. right.
    now rewrite (endswith_last_char ".sqlite3" _ ltac:(discriminate) H).
Qed.

Lemma tail_differs (path other : string) (c : ascii) :
  db_tail path ->
  last_char (PyStr.lower other) = Some c ->
  c <> "b"%char -> c <> "e"%char -> c <> "3"%char ->
  other <> path.
Proof.
  intros Ht Ho Hb He H3 ->. unfold db_tail in Ht. rewrite Ho in Ht.
  destruct Ht as [E | [E | E]]; inversion E; contradiction.
Qed.

Lemma sidecar_differs (path x ext : string) :
  db_tail path -> ext = "-wal" \/ ext = "-shm" -> x +:+ ext <> path.
Proof.
  intros Ht [-> | ->].
  - apply (tail_differs _ _ "l"%char Ht); try discriminate.
    rewrite lower_app. now rewrite last_char_app.
  - apply (tail_differs _ _ "m"%char Ht); try discriminate.
    rewrite lower_app. now rewrite last_char_app.
Qed.

Lemma temp_dir_differs (path tmp : string) :
  db_tail path -> tmp +:+ "/" +:+ "BrowserHunter" <> path.
Proof.
  intros Ht. apply (tail_differs _ _ "r"%char Ht); try discriminate.
  rewrite !lower_app. rewrite last_char_app; [|discriminate].
  now rewrite last_char_app.
Qed.

Lemma app_assoc_str (a b c : string) : (a +:+ b) +:+ c = a +:+ (b +:+ c).
Proof.
  induction a as [|x a IH]; [reflexivity|].
  change (String x ((a +:+ b) +:+ c) = String x (a +:+ (b +:+ c))).
  now f_equal.
Qed.

Lemma basename_from_snoc (s acc : string) (c : ascii) :
  c <> "/"%char ->
  basename_from acc (s +:+ String c "")
  = basename_from acc s +:+ String c "".
Proof.
  intros Hc. revert acc. induction s as [|d s IH]; intros acc; simpl.
  - destruct (Ascii.eqb_spec c "/"); [contradiction | reflexivity].
  - destruct (Ascii.eqb d "/"); apply IH.
Qed.

Lemma last_lower_snoc (s : string) (c : ascii) :
  last_char (PyStr.lower (s +:+ String c "")) = Some (PyStr.lower_char c).
Proof. rewrite lower_app. now rewrite last_char_app. Qed.

Lemma sidecar_target_differs (path dst ext : string) :
  db_tail path -> ext = "-wal" \/ ext = "-shm" ->
  dst +:+ "/" +:+ basename (path +:+ ext) <> path.
Proof.
  intros Ht [-> | ->]; unfold basename.
  - replace (path +:+ "-wal") with ((path +:+ "-wa") +:+ String "l" "")
      by (now rewrite app_assoc_str).
    rewrite basename_from_snoc by discriminate.
    replace (dst +:+ "/" +:+ basename_from "" (path +:+ "-wa") +:+ String "l" "")
      with ((dst +:+ "/" +:+ basename_from "" (path +:+ "-wa")) +:+ String "l" "")
      by (now rewrite !app_assoc_str).
    apply (tail_differs _ _ "l"%char Ht); try discriminate.
    apply last_lower_snoc.
  - replace (path +:+ "-shm") with ((path +:+ "-sh") +:+ String "m" "")
      by (now rewrite app_assoc_str).
    rewrite basename_from_snoc by discriminate.
    replace (dst +:+ "/" +:+ basename_from "" (path +:+ "-sh") +:+ String "m" "")
      with ((dst +:+ "/" +:+ basename_from "" (path +:+ "-sh")) +:+ String "m" "")
      by (now rewrite !app_assoc_str).
    apply (tail_differs _ _ "m"%char Ht); try discriminate.
    apply last_lower_snoc.
Qed.

(** *** Frames *)

Lemma frame_refl (path : string) (w : world) : frame path w w.
Proof.
  split; [reflexivity|]. split; [reflexivity|].
  exists []. split; [now rewrite app_nil_r | constructor].
Qed.

Lemma frame_trans (path : string) (w1 w2 w3 : world) :
  frame path w1 w2 -> frame path w2 w3 -> frame path w1 w3.
Proof.
  intros (Hf1 & Ht1 & evs1 & He1 & Hq1) (Hf2 & Ht2 & evs2 & He2 & Hq2).
  split; [congruence|]. split; [congruence|].
  exists (evs1 ++ evs2). split.
  - now rewrite He2, He1, app_assoc.
  - apply Forall_app. now split.
Qed.

Lemma bind_run {A B} (m : M A) (k : A -> M B) (w : world) :
  (m ≫= k) w
  = match m w with
    | (Ok a, w') => k a w'
    | (Raise e, w') => (Raise e, w')
    end.
Proof. reflexivity. Qed.

Lemma framed_weaken {A} path (m : M A) (Q Q' : pyresult A -> Prop) :
  framed path m Q -> (forall r, Q r -> Q' r) -> framed path m Q'.
Proof. intros Hm HQ w Hw. destruct (Hm w Hw). split; auto. Qed.

Lemma framed_bind {A B} path (m : M A) (k : A -> M B)
  (Q : pyresult A -> Prop) (Q' : pyresult B -> Prop) :
  framed path m Q ->
  (forall a, Q (Ok a) -> framed path (k a) Q') ->
  (forall e, Q (Raise e) -> Q' (Raise e)) ->
  framed path (m ≫= k) Q'.
Proof.
  intros Hm Hk He w Hw. rewrite bind_run.
  destruct (Hm w Hw) as [Hf HQ]. destruct (m w) as [[a|e] w']; simpl in *.
  - destruct (Hk a HQ w') as [Hf' HQ'].
    + destruct Hf as [E _]. now rewrite E.
    + split; [eapply frame_trans; eassumption | exact HQ'].
  - split; [exact Hf | now apply He].
Qed.

Lemma framed_try_except {A} path (m : M A) (h : pyexc -> M A)
  (Q Q' : pyresult A -> Prop) :
  framed path m Q ->
  (forall a, Q (Ok a) -> Q' (Ok a)) ->
  (forall e, Q (Raise e) -> framed path (h e) Q') ->
  framed path (try_except m h) Q'.
Proof.
  intros Hm Ha Hh w Hw. unfold try_except.
  destruct (Hm w Hw) as [Hf HQ]. destruct (m w) as [[a|e] w']; simpl in *.
  - split; [exact Hf | now apply Ha].
  - destruct (Hh e HQ w') as [Hf' HQ'].
    + destruct Hf as [E _]. now rewrite E.
    + split; [eapply frame_trans; eassumption | exact HQ'].
Qed.

Lemma framed_ret {A} path (a : A) (Q : pyresult A -> Prop) :
  Q (Ok a) -> framed path (ret a) Q.
Proof. intros HQ w _. split; [apply frame_refl | exact HQ]. Qed.

Lemma framed_raise {A} path (e : pyexc) (Q : pyresult A -> Prop) :
  Q (Raise e) -> framed path (raise e) Q.
Proof. intros HQ w _. split; [apply frame_refl | exact HQ]. Qed.

Lemma framed_lookup path (p : string) : framed path (lookup_node p) anything.
Proof. intros w _. split; [apply frame_refl | exact I]. Qed.

Lemma framed_gettempdir path : framed path gettempdir anything.
Proof. intros w _. split; [apply frame_refl | exact I]. Qed.

Lemma framed_emit path (ev : event) :
  quiet path ev -> framed path (emit ev) anything.
Proof.
  intros Hq w _. split; [|exact I]. split; [reflexivity|].
  split; [reflexivity|]. exists [ev]. split; [reflexivity|]. now constructor.
Qed.

Lemma framed_put path (p : string) (n : node) :
  p <> path -> framed path (put_node p n) anything.
Proof.
  intros Hp w _. split; [|exact I]. split; [|split; [reflexivity|]].
  - simpl. now apply lookup_insert_ne.
  - exists []. split; [simpl; now rewrite app_nil_r | constructor].
Qed.

Lemma framed_delete path (p : string) :
  p <> path -> framed path (delete_node p) anything.
Proof.
  intros Hp w _. split; [|exact I]. split; [|split; [reflexivity|]].
  - simpl. now apply lookup_delete_ne.
  - exists []. split; [simpl; now rewrite app_nil_r | constructor].
Qed.

(** A bind whose first part promises nothing. *)
Lemma framed_seq {A B} path (m : M A) (k : A -> M B)
  (Q' : pyresult B -> Prop) :
  framed path m anything ->
  (forall a, framed path (k a) Q') ->
  (forall e, Q' (Raise e)) ->
  framed path (m ≫= k) Q'.
Proof. intros Hm Hk He. eapply framed_bind; eauto. Qed.

Ltac framed_anything :=
  repeat first
    [ apply framed_ret; exact I
    | apply framed_raise; exact I
    | apply framed_lookup
    | apply framed_gettempdir
    | apply framed_emit; simpl; solve [auto]
    | apply framed_put; solve [auto]
    | apply framed_delete; solve [auto]
    | apply framed_seq; [ | intros ? | intros ?; exact I ]
    | apply framed_try_except with (Q := anything); [ | intros; exact I | intros ? _ ]
    | match goal with
      | |- framed _ (match ?x with _ => _ end) _ => destruct x
      | |- framed _ (if ?b then _ else _) _ => destruct b
      end ].

Lemma framed_exists path p : framed path (exists_ p) anything.
Proof. unfold exists_. framed_anything. Qed.

Lemma framed_is_file path p : framed path (is_file p) anything.
Proof. unfold is_file. framed_anything. Qed.

Lemma framed_st_mode path p : framed path (st_mode p) anything.
Proof. unfold st_mode. framed_anything. Qed.

Lemma framed_read_file path p : framed path (read_file p) anything.
Proof. unfold read_file. framed_anything. Qed.

Lemma framed_write_data path p data :
  p <> path -> framed path (write_data p data) anything.
Proof. intros Hp. unfold write_data. framed_anything. Qed.

Lemma framed_chmod path p mode :
  p <> path -> framed path (chmod p mode) anything.
Proof. intros Hp. unfold chmod. framed_anything. Qed.

Lemma framed_mkdir path p mode :
  p <> path -> framed path (mkdir p mode) anything.
Proof. intros Hp. unfold mkdir. framed_anything. Qed.

Lemma framed_unlink path p :
  p <> path -> framed path (unlink p) anything.
Proof. intros Hp. unfold unlink. framed_anything. Qed.

Lemma framed_create_exclusive path p :
  p <> path -> framed path (create_exclusive p) anything.
Proof. intros Hp. unfold create_exclusive. framed_anything. Qed.

Lemma framed_copy2 path src dst :
  dst <> path -> dst +:+ "/" +:+ basename src <> path ->
  framed path (copy2 src dst) anything.
Proof.
  intros Hd Ht. unfold copy2.
  apply framed_seq; [apply framed_lookup | | intros; exact I].
  intros d.
  set (target := match d with
                 | Some n => match n_kind n with
                             | Directory => dst +:+ "/" +:+ basename src
                             | Regular => dst
                             end
                 | None => dst
                 end).
  assert (Htarget : target <> path).
  { subst target. destruct d as [n|]; [destruct (n_kind n)|]; assumption. }
  clearbody target.
  destruct (String.eqb src target); [apply framed_raise; exact I|].
  apply framed_seq; [apply framed_read_file | | intros; exact I]. intros data.
  apply framed_seq; [apply framed_emit; exact Htarget | | intros; exact I].
  intros _.
  apply framed_seq; [apply framed_lookup | | intros; exact I]. intros t.
  apply framed_seq; [ | | intros; exact I].
  { destruct t as [n|]; [destruct (n_kind n)|]; framed_anything. }
  intros _.
  apply framed_seq; [now apply framed_write_data | | intros; exact I].
  intros _.
  apply framed_seq; [apply framed_st_mode | | intros; exact I]. intros m.
  apply framed_seq; [apply framed_lookup | | intros; exact I]. intros o.
  destruct o; framed_anything.
Qed.

Lemma first_free_is_free fs dir prefix suffix candidates file rest :
  first_free fs dir prefix suffix candidates = (Some file, rest) ->
  fs !! file = None.
Proof.
  induction candidates as [|name cs IH]; simpl; [discriminate|].
  destruct (fs !! (dir +:+ "/" +:+ prefix +:+ name +:+ suffix)) eqn:E.
  - exact IH.
  - intros H. inversion H; subst. exact E.
Qed.

Lemma framed_draw_name path dir prefix suffix :
  framed path (draw_name dir prefix suffix)
    (fun r => forall file, r = Ok (Some file) -> file <> path).
Proof.
  intros w Hw. unfold draw_name.
  destruct (first_free (files w) dir prefix suffix (names w))
    as [file rest] eqn:E; simpl. split.
  - split; [reflexivity|]. split; [reflexivity|].
    exists []. split; [simpl; now rewrite app_nil_r | constructor].
  - intros f Hf. inversion Hf; subst. intros ->.
    apply first_free_is_free in E. rewrite E in Hw. now destruct Hw.
Qed.

(** The name of a temporary file is new: it is not the name of a file
    that exists. *)
Lemma framed_NamedTemporaryFile path dir prefix suffix :
  framed path (NamedTemporaryFile dir prefix suffix)
    (fun r => forall file, r = Ok file -> file <> path).
Proof.
  unfold NamedTemporaryFile.
  apply framed_seq; [apply framed_lookup | | discriminate]. intros d.
  destruct d as [[[] ? ? ? ?]|]; try (apply framed_raise; discriminate).
  eapply framed_bind; [apply framed_draw_name | | discriminate].
  intros [file|] Hfresh; [|apply framed_raise; discriminate].
  specialize (Hfresh _ eq_refl).
  apply framed_seq; [now apply framed_create_exclusive | | discriminate].
  intros _. apply framed_ret. intros f Hf. inversion Hf; now subst.
Qed.

(** *** The parser *)

Lemma framed_copy_sidecar (self : parser) temp_path ext :
  db_tail (db_path self) -> ext = "-wal" \/ ext = "-shm" ->
  framed (db_path self) (copy_sidecar self temp_path ext) anything.
Proof.
  intros Ht Hext. unfold copy_sidecar.
  apply framed_seq; [apply framed_exists | | intros; exact I]. intros e.
  destruct (negb e); [apply framed_ret; exact I|].
  apply framed_try_except with (Q := anything);
    [ | intros; exact I | intros; apply framed_ret; exact I].
  apply framed_seq; [ | | intros; exact I].
  - apply framed_copy2.
    + now apply sidecar_differs.
    + now apply sidecar_target_differs.
  - intros _. apply framed_chmod. now apply sidecar_differs.
Qed.

Lemma framed_create_temp_copy (self : parser) :
  db_tail (db_path self) ->
  framed (db_path self) (_create_temp_copy self)
    (fun r => forall temp, r = Ok temp -> temp <> db_path self).
Proof.
  intros Ht. unfold _create_temp_copy.
  apply framed_try_except
    with (Q := fun r => forall temp, r = Ok temp -> temp <> db_path self);
    [ | auto | intros e _; apply framed_raise; discriminate].
  apply framed_seq; [apply framed_gettempdir | | discriminate]. intros tmp.
  pose proof (temp_dir_differs _ tmp Ht) as Hdir.
  apply framed_seq; [apply framed_exists | | discriminate]. intros e.
  apply framed_seq; [ | | discriminate].
  { destruct (negb e); [now apply framed_mkdir|].
    apply framed_seq; [apply framed_st_mode | | intros; exact I].
    intros m. destruct (negb _); [now apply framed_chmod|].
    apply framed_ret; exact I. }
  intros _.
  eapply framed_bind; [apply framed_NamedTemporaryFile | | discriminate].
  intros temp_path Hfresh. specialize (Hfresh _ eq_refl).
  apply framed_seq; [apply framed_read_file | | discriminate]. intros data.
  apply framed_seq; [now apply framed_write_data | | discriminate].
  intros _.
  apply framed_seq; [now apply framed_chmod | | discriminate]. intros _.
  apply framed_seq; [apply framed_copy_sidecar; auto | | discriminate].
  intros _.
  apply framed_seq; [apply framed_copy_sidecar; auto | | discriminate].
  intros _. apply framed_ret. intros temp E. inversion E; now subst.
Qed.

Lemma framed_sqlite3_connect_ro path p :
  framed path (sqlite3_connect_ro p) anything.
Proof.
  unfold sqlite3_connect_ro.
  apply framed_seq; [apply framed_emit; exact I | | intros; exact I].
  intros _.
  apply framed_seq; [apply framed_is_file | | intros; exact I].
  intros e. destruct (negb e); framed_anything.
Qed.

Lemma framed_connect (self : parser) :
  db_tail (db_path self) -> temp_apart self ->
  framed (db_path self) (connect self) (connected self).
Proof.
  intros Ht Hs. unfold connect.
  destruct (_conn self) as [conn|].
  { apply framed_ret. now exists self, (Ok conn). }
  apply framed_try_except
    with (Q := fun r => connected self r \/ exists e, r = Raise e).
  - eapply framed_bind; [now apply framed_create_temp_copy | | eauto].
    intros temp Hfresh. specialize (Hfresh _ eq_refl).
    assert (Hs' : temp_apart (set_temp_db_path self (Some temp))).
    { intros t E. simpl in E. inversion E; now subst. }
    apply framed_try_except
      with (Q := fun r => connected self r \/ exists e, r = Raise e).
    + apply framed_seq; [apply framed_sqlite3_connect_ro | | eauto].
      intros conn. apply framed_ret. left.
      now eexists _, _.
    + auto.
    + intros e _. apply framed_ret. left.
      now exists (set_temp_db_path self (Some temp)), (Raise e).
  - intros a [H|[e He]]; [exact H | discriminate].
  - intros e _. apply framed_ret. now exists self, (Raise e).
Qed.

Lemma framed_remove_sidecar path temp ext :
  temp +:+ ext <> path -> framed path (remove_sidecar temp ext) anything.
Proof.
  intros Hp. unfold remove_sidecar.
  apply framed_seq; [apply framed_exists | | intros; exact I]. intros e.
  destruct (negb e); [apply framed_ret; exact I|].
  apply framed_try_except with (Q := anything);
    [now apply framed_unlink | intros; exact I
    | intros; apply framed_ret; exact I].
Qed.

Lemma framed_close (self : parser) :
  db_tail (db_path self) -> temp_apart self ->
  framed (db_path self) (close self) anything.
Proof.
  intros Ht Hs. unfold close.
  set (self1 := match _conn self with
                | Some _ => set_conn self None
                | None => self
                end).
  assert (E1 : temp_db_path self1 = temp_db_path self)
    by (subst self1; now destruct (_conn self)).
  rewrite E1. clearbody self1.
  destruct (temp_db_path self) as [temp|] eqn:Etemp;
    [|apply framed_ret; exact I].
  destruct (String.eqb temp ""); [apply framed_ret; exact I|].
  apply framed_seq; [apply framed_exists | | intros; exact I]. intros e.
  destruct (negb e); [apply framed_ret; exact I|].
  apply framed_seq; [ | | intros; exact I].
  { apply framed_try_except with (Q := anything);
      [apply framed_unlink; now apply Hs | intros; exact I
      | intros; apply framed_ret; exact I]. }
  intros _.
  apply framed_seq; [ | | intros; exact I].
  { apply framed_remove_sidecar. apply sidecar_differs; auto. }
  intros _.
  apply framed_seq; [ | | intros; exact I].
  { apply framed_remove_sidecar. apply sidecar_differs; auto. }
  intros _. apply framed_ret; exact I.
Qed.

Section WithHash.
Context `{Hashlib}.

(** The constructor only reads: when it returns, the one thing it asked
    for is to open the database for reading, the path carries an allowed
    extension and the file is there; when it raises, nothing was asked. *)
Lemma init_outcome (db : string) (w : world) :
  match __init__ db w with
  | (Ok self, w') =>
      files w' = files w /\ tmpdir w' = tmpdir w
      /\ trace w' = trace w ++ [EvOpen db ReadOnly]
      /\ db_path self = db /\ temp_db_path self = None
      /\ has_allowed_extension db = true /\ is_Some (files w !! db)
  | (Raise e, w') =>
      w' = w /\ e <> ValueError "Failed to verify file integrity"
  end.
Proof.
  unfold __init__, validate_database_path, try_except, calculate_file_hash,
    try_except, read_file, exists_, is_file, access_R_OK, st_size,
    lookup_node, emit, raise, ret.
  cbv [mbind M_bind bindM].
  destruct (files w !! db) as [[k md dt rd re]|] eqn:E; simpl;
    [|now split].
  repeat (progress (rewrite ?E; simpl)).
  destruct k; repeat (progress (rewrite ?E; simpl)); [|now split].
  destruct (_ || _); repeat (progress (rewrite ?E; simpl)); [now split|].
  destruct (MAX_DB_SIZE <? _); repeat (progress (rewrite ?E; simpl));
    [now split|].
  destruct (has_allowed_extension db) eqn:Hext;
    repeat (progress (rewrite ?E; simpl)); [|now split].
  destruct rd; repeat (progress (rewrite ?E; simpl)); [|now split].
  destruct re; simpl; auto 10.
Qed.

(** The digest of a file depends on the file alone. *)
Lemma calculate_file_hash_lookup (path : string) (w1 w2 : world) :
  files w1 !! path = files w2 !! path ->
  (calculate_file_hash path w1).1 = (calculate_file_hash path w2).1.
Proof.
  intros E.
  unfold calculate_file_hash, try_except, read_file, lookup_node, emit,
    raise, ret.
  cbv [mbind M_bind bindM]. simpl. rewrite E.
  destruct (files w2 !! path) as [[[] md dt [] [e|]]|]; reflexivity.
Qed.

(** [calculate_file_hash] never raises. *)
Lemma calculate_file_hash_returns (path : string) (w : world) :
  exists digest, (calculate_file_hash path w).1 = Ok digest.
Proof.
  unfold calculate_file_hash, try_except, read_file, lookup_node, emit,
    raise, ret.
  cbv [mbind M_bind bindM]. simpl.
  destruct (files w !! path) as [[[] md dt [] [e|]]|]; simpl; eauto.
Qed.

Lemma acquire_then_close_frame (db : string) (w : world) :
  frame db w (acquire_then_close db w).2.
Proof.
  unfold acquire_then_close. rewrite bind_run.
  pose proof (init_outcome db w) as Hinit.
  destruct (__init__ db w) as [[self|e] w1]; simpl.
  2: { destruct Hinit as [-> _]. apply frame_refl. }
  destruct Hinit as (Hf & Ht & Htr & Hdb & Htemp & Hext & Hsome).
  assert (F1 : frame db w w1).
  { split; [now rewrite Hf|]. split; [exact Ht|].
    exists [EvOpen db ReadOnly]. split; [exact Htr|].
    constructor; [exact I | constructor]. }
  assert (Hsome1 : is_Some (files w1 !! db)) by now rewrite Hf.
  assert (Htail : db_tail (db_path self))
    by (rewrite Hdb; now apply has_allowed_extension_tail).
  assert (Hapart : temp_apart self)
    by (intros t Et; rewrite Htemp in Et; discriminate).
  rewrite bind_run.
  rewrite <- Hdb in Hsome1 |- *.
  rewrite <- Hdb in F1.
  destruct (framed_connect self Htail Hapart w1 Hsome1) as [F2 Hc].
  destruct (connect self w1) as [r w2]; simpl in *.
  destruct Hc as (self' & entered & -> & Hdb' & Hapart').
  eapply frame_trans; [exact F1|]. eapply frame_trans; [exact F2|].
  destruct entered as [conn|e]; [|apply frame_refl].
  rewrite <- Hdb' in *.
  assert (Hsome2 : is_Some (files w2 !! db_path self')).
  { destruct F2 as [E _]. now rewrite E. }
  assert (F3 : framed (db_path self') (close self';; ret tt) anything).
  { apply framed_seq; [now apply framed_close | | intros; exact I].
    intros _. apply framed_ret; exact I. }
  now destruct (F3 w2 Hsome2).
Qed.


(** C3 fails on the code: [calculate_file_hash] turns a failed read into
    a string and returns it, so the constructor's handler never runs.  On
    a database whose read is refused the parser is constructed, and its
    [file_hash] is the error text, which is no SHA-256 digest. *)
Theorem locked_database_hash_is_error_text :
  exists self w',
    __init__ "/evidence/History.db" locked_world = (Ok self, w')
    /\ file_hash self
       = "ERROR: [Errno 13] Permission denied: '/evidence/History.db'"
    /\ is_sha256_hex (file_hash self) = false.
Proof.
  eexists _, _. split; [|split].
  - unfold __init__, validate_database_path, try_except, calculate_file_hash,
      try_except, read_file, exists_, is_file, access_R_OK, st_size,
      lookup_node, emit, raise, ret.
    cbv [mbind M_bind bindM]. simpl.
    unfold locked_world. simpl. rewrite !lookup_singleton_eq. simpl.
    rewrite !lookup_singleton_eq. simpl. rewrite !lookup_singleton_eq. simpl.
    reflexivity.
  - reflexivity.
  - reflexivity.
Qed.

End WithHash.

(** The cycle on a database with a write-ahead log. *)
Example acquire_then_close_sample :
  (acquire_then_close (H := zero_hash) "/evidence/History.db"
     evidence_world).1 = Ok tt
  /\ files (acquire_then_close (H := zero_hash) "/evidence/History.db"
              evidence_world).2
     = <[ "/tmp/BrowserHunter" :=
            {| n_kind := Directory; n_mode := 448; n_data := [];
               n_readable := true; n_read_error := None |} ]>
         (files evidence_world)
  /\ trace (acquire_then_close (H := zero_hash) "/evidence/History.db"
              evidence_world).2
     = [EvOpen "/evidence/History.db" ReadOnly;
        EvMkdir "/tmp/BrowserHunter";
        EvOpen "/tmp/BrowserHunter/bhh_a1b2c3d4.db" ReadWrite;
        EvOpen "/evidence/History.db" ReadOnly;
        EvChmod "/tmp/BrowserHunter/bhh_a1b2c3d4.db" 384;
        EvOpen "/evidence/History.db-wal" ReadOnly;
        EvOpen "/tmp/BrowserHunter/bhh_a1b2c3d4.db-wal" ReadWrite;
        EvChmod "/tmp/BrowserHunter/bhh_a1b2c3d4.db-wal" 384;
        EvOpen "/tmp/BrowserHunter/bhh_a1b2c3d4.db" ReadOnly;
        EvUnlink "/tmp/BrowserHunter/bhh_a1b2c3d4.db";
        EvUnlink "/tmp/BrowserHunter/bhh_a1b2c3d4.db-wal"].
Proof.
  split; [vm_compute; reflexivity|]. split; [|vm_compute; reflexivity].
  apply map_eq. intros p.
  vm_compute. reflexivity.
Qed.

End FilesProps.

(** ** The generic introspector *)

Module GenericProps.

Import PyNum GenericSQLiteParser Preds Samples.
Local Open Scope Z_scope.

Section WithExternals.
Context `{Externals}.

Ltac run_G :=
  cbv [mbind G_bind gbind gret graise lift execute set_valid_tables
       get_valid_tables]; simpl.

(** The query of [get_tables] has no name in it. *)
Lemma run_table_names (d : database) (params : list value) :
  run d SelectTableNames params
  = Ok (map (fun n => [Text n]) (user_tables d)).
Proof. reflexivity. Qed.

(** A statement with plain identifiers for all its names is answered
    from the snapshot. *)
Lemma run_plain_names (d : database) (q : sql) (params : list value) :
  forallb plain_identifier (interpolated_tables q ++ interpolated_columns q)
  = true ->
  run d q params = run_plain d q params.
Proof.
  intros Hp. unfold run.
  assert (E : List.find (fun s => negb (plain_identifier s))
                (interpolated_tables q ++ interpolated_columns q) = None).
  { induction (interpolated_tables q ++ interpolated_columns q)
      as [|x l IH]; [reflexivity|].
    cbn [forallb] in Hp. apply andb_true_iff in Hp. destruct Hp as [Hx Hl].
    cbn [List.find]. rewrite Hx. cbn [negb]. now apply IH. }
  now rewrite E.
Qed.

(** A reserved word is no plain identifier. *)
Lemma reserved_not_plain (w : string) :
  reserved w = true -> plain_identifier w = false.
Proof.
  unfold reserved, plain_identifier. intros Hr.
  destruct w as [|c w]; [reflexivity|].
  assert (Hk : Search.in_list (PyStr.lower (String c w)) keywords = true).
  { revert Hr. generalize (PyStr.lower (String c w)). intros x.
    unfold Search.in_list. rewrite !existsb_exists.
    intros (y & Hy & E). exists y. split; [|exact E].
    revert Hy. clear. intros Hy.
    repeat (destruct Hy as [<- | Hy]; [vm_compute; tauto|]). destruct Hy. }
  rewrite Hk. cbn [negb]. now rewrite andb_false_r.
Qed.

(** A reserved word in the place of the table ends every statement of
    the parser with a syntax error. *)
Lemma run_reserved_table (d : database) (q : sql) (params : list value)
  (w : string) (rest : list string) :
  interpolated_tables q = w :: rest -> reserved w = true ->
  run d q params = Raise (syntax_error_near w).
Proof.
  intros E Hr. unfold run. rewrite E. cbn [app List.find].
  rewrite (reserved_not_plain w Hr). cbn [negb]. now rewrite Hr.
Qed.

Lemma fill_row_dict_complete (columns : list string) (row : list value) :
  forall (d : gmap string value) (idx : nat),
  (idx + length columns <= length row)%nat ->
  fill_row_dict d idx columns row = Ok (row_dict_from d idx columns row).
Proof.
  induction columns as [|c cs IH]; intros d idx Hlen; simpl; [reflexivity|].
  simpl in Hlen.
  destruct (nth_error row idx) as [v|] eqn:E.
  - rewrite (nth_error_nth _ _ Null E). apply IH. lia.
  - apply nth_error_None in E. lia.
Qed.

Lemma rows_to_dicts_complete (columns : list string)
  (rows : list (list value)) :
  Forall (fun row => (length columns <= length row)%nat) rows ->
  rows_to_dicts columns rows = Ok (map (row_dict columns) rows).
Proof.
  induction 1 as [|row rows Hrow _ IH]; simpl; [reflexivity|].
  rewrite fill_row_dict_complete by (simpl; lia). simpl.
  now rewrite IH.
Qed.

(** Reading the rows of [PRAGMA table_info] gives the columns back. *)
Lemma column_row_names (cols : list column_info) :
  map name
    (map (fun row =>
            {| cid := as_int (nth 0 row Null);
               name := as_str (nth 1 row Null);
               type := as_str (nth 2 row Null);
               notnull := as_int (nth 3 row Null);
               dflt_value := nth 4 row Null;
               pk := as_int (nth 5 row Null) |}) (map column_row cols))
  = map name cols.
Proof. rewrite !map_map. apply map_ext. now intros []. Qed.

Lemma user_tables_rows (d : database) :
  map (fun row => as_str (nth 0 row Null))
    (map (fun n => [Text n]) (user_tables d))
  = user_tables d.
Proof. rewrite map_map. simpl. apply map_id. Qed.

(** [_validate_table_name] returns whether the name is in the cache, which
    it fills from [sqlite_master] when it is empty; it sends no statement
    with a name in it. *)
Lemma validate_outcome (self : parser) (table_name : string) :
  exists tables self',
    _validate_table_name table_name self
    = (Ok (Search.in_list table_name tables), self')
    /\ db self' = db self
    /\ _valid_tables self' = Some tables
    /\ match _valid_tables self with
       | Some tables0 => tables = tables0 /\ executed self' = executed self
       | None =>
           tables = user_tables (db self)
           /\ executed self' = executed self ++ [(SelectTableNames, [])]
       end.
Proof.
  unfold _validate_table_name, get_tables. run_G.
  destruct self as [d [tables0|] ex]; simpl.
  - exists tables0. eexists. repeat split; reflexivity.
  - exists (user_tables d). eexists. rewrite user_tables_rows.
    repeat split; reflexivity.
Qed.

Lemma validate_valid (self : parser) (table_name : string) :
  valid_name self table_name ->
  exists tables self',
    _validate_table_name table_name self = (Ok true, self')
    /\ db self' = db self
    /\ _valid_tables self' = Some tables
    /\ Search.in_list table_name tables = true
    /\ (executed self' = executed self
        \/ executed self' = executed self ++ [(SelectTableNames, [])]).
Proof.
  intros Hv.
  destruct (validate_outcome self table_name)
    as (tables & self' & E & Hdb & Hc & Hm).
  assert (Hin : Search.in_list table_name tables = true).
  { unfold valid_name in Hv. destruct (_valid_tables self).
    - destruct Hm as [-> _]. exact Hv.
    - destruct Hm as [-> _]. exact Hv. }
  exists tables, self'. rewrite Hin in E. repeat split; try assumption.
  destruct (_valid_tables self); destruct Hm as [_ Hex]; auto.
Qed.

Lemma get_column_names_valid (self : parser) (table_name : string)
  (t : table) :
  valid_name self table_name ->
  plain_identifier table_name = true ->
  find_table (db self) table_name = Some t ->
  exists self',
    get_column_names table_name self = (Ok (map name (t_columns t)), self')
    /\ db self' = db self
    /\ valid_name self' table_name
    /\ exists sent,
         executed self'
         = executed self ++ sent ++ [(PragmaTableInfo table_name, [])]
         /\ (sent = [] \/ sent = [(SelectTableNames, [])]).
Proof.
  intros Hv Hplain Hfind.
  destruct (validate_valid self table_name Hv)
    as (tables & self1 & E & Hdb & Hc & Hin & Hex).
  unfold get_column_names, get_table_info. run_G. rewrite E. simpl.
  rewrite run_plain_names by (simpl; now rewrite Hplain).
  cbn [run_plain]. rewrite Hdb, Hfind. simpl. rewrite column_row_names.
  eexists. split; [reflexivity|]. simpl.
  split; [reflexivity|]. split.
  - unfold valid_name. simpl. now rewrite Hc.
  - destruct Hex as [-> | ->].
    + exists []. split; [reflexivity | now left].
    + exists [(SelectTableNames, [])].
      split; [now rewrite <- app_assoc | now right].
Qed.

Lemma append_nil_r (s : string) : s +:+ "" = s.
Proof.
  induction s as [|c s IH]; [reflexivity|].
  change (String c (s +:+ "") = String c s). now f_equal.
Qed.

Lemma max_0_not_negative (n : Z) : (Z.max 0 n <? 0) = false.
Proof. apply Z.ltb_ge. lia. Qed.


(** *** Which statements carry a checked name *)

Lemma sent_validated_by (self self' : parser) (tables : list string)
  (table_name : string) (sent : list (sql * list value)) :
  executed self' = executed self ++ sent ->
  _valid_tables self' = Some tables ->
  Search.in_list table_name tables = true ->
  Forall (fun qp => forall x, In x (interpolated_tables qp.1) -> x = table_name)
    sent ->
  sent_validated self self'.
Proof.
  intros He Hc Hin Hall. exists sent. split; [exact He|].
  intros q params x Hq Hx. exists tables. split; [exact Hc|].
  rewrite Forall_forall in Hall.
  apply list_elem_of_In in Hq.
  now rewrite (Hall _ Hq x Hx).
Qed.

Lemma sent_validated_nameless (self self' : parser)
  (sent : list (sql * list value)) :
  executed self' = executed self ++ sent ->
  Forall (fun qp => interpolated_tables qp.1 = []) sent ->
  sent_validated self self'.
Proof.
  intros He Hall. exists sent. split; [exact He|].
  intros q params x Hq Hx. rewrite Forall_forall in Hall.
  apply list_elem_of_In in Hq.
  specialize (Hall _ Hq). simpl in Hall. rewrite Hall in Hx. destruct Hx.
Qed.

Ltac sent_list :=
  simpl; rewrite <- ?app_assoc; simpl;
  first [ reflexivity | symmetry; apply app_nil_r ].

Ltac names_checked :=
  solve [ repeat (constructor;
                    [simpl; intros x Hx; intuition congruence|]);
          constructor ].

Ltac settle Hin :=
  first
    [ eapply sent_validated_nameless;
      [sent_list | solve [repeat constructor]]
    | eapply sent_validated_by;
      [sent_list | reflexivity | exact Hin | names_checked] ].

Ltac open_parser self :=
  destruct self as [d cache ex];
  unfold get_table_data, get_row_count, search_table, get_column_names,
    get_table_info, _validate_table_name, get_tables;
  run_G.

Ltac split_results :=
  repeat match goal with
         | |- context [match ?x with Ok _ => _ | Raise _ => _ end] =>
             destruct x; simpl
         end.

Lemma get_table_info_validated (self : parser) (table_name : string) :
  sent_validated self (get_table_info table_name self).2.
Proof.
  open_parser self. destruct cache as [tables|]; simpl.
  - destruct (Search.in_list table_name tables) eqn:Hin; simpl;
      split_results; settle Hin.
  - rewrite user_tables_rows.
    destruct (Search.in_list table_name (user_tables d)) eqn:Hin; simpl;
      split_results; settle Hin.
Qed.

Lemma get_row_count_validated (self : parser) (table_name : string) :
  sent_validated self (get_row_count table_name self).2.
Proof.
  open_parser self. destruct cache as [tables|]; simpl.
  - destruct (Search.in_list table_name tables) eqn:Hin; simpl;
      split_results; settle Hin.
  - rewrite user_tables_rows.
    destruct (Search.in_list table_name (user_tables d)) eqn:Hin; simpl;
      split_results; settle Hin.
Qed.

Lemma get_table_data_validated (self : parser) (table_name : string)
  (limit : option Z) (offset : Z) :
  sent_validated self (get_table_data table_name limit offset self).2.
Proof.
  open_parser self. destruct cache as [tables|]; simpl.
  - destruct (Search.in_list table_name tables) eqn:Hin;
      repeat (progress (rewrite ?Hin; simpl)); [|settle Hin].
    destruct (find_table d table_name); simpl;
      destruct limit as [l|];
      [destruct (negb (l =? 0))| |destruct (negb (l =? 0))|]; simpl;
      split_results; settle Hin.
  - rewrite user_tables_rows.
    destruct (Search.in_list table_name (user_tables d)) eqn:Hin;
      repeat (progress (rewrite ?Hin; simpl)); [|settle Hin].
    destruct (find_table d table_name); simpl;
      destruct limit as [l|];
      [destruct (negb (l =? 0))| |destruct (negb (l =? 0))|]; simpl;
      split_results; settle Hin.
Qed.

(** Without a column list [search_table] asks for the columns first, and
    that call validates the name. *)
Lemma search_table_all_columns_validated (self : parser)
  (table_name search_term : string) :
  sent_validated self (search_table table_name search_term None self).2.
Proof.
  open_parser self. destruct cache as [tables|]; simpl.
  - destruct (Search.in_list table_name tables) eqn:Hin;
      repeat (progress (rewrite ?Hin; simpl)); [|settle Hin].
    destruct (find_table d table_name); simpl;
      repeat (progress (rewrite ?Hin; simpl));
      split_results; repeat (progress (rewrite ?Hin; simpl));
      split_results; settle Hin.
  - rewrite user_tables_rows.
    destruct (Search.in_list table_name (user_tables d)) eqn:Hin;
      repeat (progress (rewrite ?Hin; simpl)); [|settle Hin].
    destruct (find_table d table_name); simpl;
      repeat (progress (rewrite ?Hin; simpl));
      split_results; repeat (progress (rewrite ?Hin; simpl));
      split_results; settle Hin.
Qed.

(** With a column list the first statement [search_table] sends is the
    search itself, built from the table name and the column names as they
    were given. *)
Lemma search_table_columns_sent_first (self : parser)
  (table_name search_term : string) (columns : list string) :
  exists rest,
    executed (search_table table_name search_term (Some columns) self).2
    = executed self
      ++ (SelectLike table_name columns,
          map (fun _ => Text ("%" +:+ search_term +:+ "%")) columns) :: rest.
Proof.
  pose proof get_table_info_validated as Hinfo.
  unfold search_table, get_column_names.
  cbv [mbind G_bind gbind gret graise lift execute].
  match goal with
  | |- context [run ?a ?b ?c] => destruct (run a b c)
  end; simpl; [|now exists []].
  match goal with
  | |- context [get_table_info table_name ?s] =>
      destruct (Hinfo s table_name) as (sent & Hsent & _);
      destruct (get_table_info table_name s) as [[cols|e] self2]
  end; simpl in *.
  - exists sent. now rewrite Hsent, <- app_assoc.
  - exists sent. now rewrite Hsent, <- app_assoc.
Qed.

End WithExternals.

(** C1 fails on the code for [search_table] called with a column list:
    the statement goes out before any validation.  On the sample
    database, with the internal table [sqlite_sequence] and the column
    [name], the search is sent and answered, and only then the call
    raises; a column text is written into the statement as it is. *)
Theorem search_table_sends_unvalidated_names :
  (search_table (H := plain_externals) "sqlite_sequence" "urls"
     (Some ["name"]) fresh_parser).1
  = Raise (ValueError "Invalid table name: sqlite_sequence")
  /\ executed
       (search_table (H := plain_externals) "sqlite_sequence" "urls"
          (Some ["name"]) fresh_parser).2
     = [(SelectLike "sqlite_sequence" ["name"], [Text "%urls%"]);
        (SelectTableNames, [])]
  /\ sql_text (SelectLike "sqlite_sequence" ["name"])
     = "SELECT * FROM sqlite_sequence WHERE name LIKE ?"
  /\ run (H := plain_externals) sample_db
       (SelectLike "sqlite_sequence" ["name"]) [Text "%urls%"]
     = Ok [[Text "urls"; Integer 3]]
  /\ user_tables sample_db = ["urls"]
  /\ head (executed
             (search_table (H := plain_externals) "urls" "x"
                (Some ["1=1 OR url"]) fresh_parser).2)
     = Some (SelectLike "urls" ["1=1 OR url"], [Text "%x%"])
  /\ sql_text (SelectLike "urls" ["1=1 OR url"])
     = "SELECT * FROM urls WHERE 1=1 OR url LIKE ?".
Proof. repeat split; vm_compute; reflexivity. Qed.



End GenericProps.

(** ** Sorting, composing filters, tokens *)

Module SortProps.

Import Models SortOptions PyList SortPreds.

(** *** Insertion sort *)

Section Insertion.
Context {A : Type} (before : A -> A -> bool).

Lemma insert_sorted_perm (x : A) (l : list A) :
  Permutation (x :: l) (insert_sorted before x l).
Proof.
  induction l as [|y l IH]; simpl; [reflexivity|].
  destruct (before x y); [reflexivity|].
  rewrite perm_swap. now constructor.
Qed.

Lemma sorted_perm (l : list A) : Permutation l (sorted before l).
Proof.
  induction l as [|x l IH]; simpl; [constructor|].
  rewrite <- insert_sorted_perm. now constructor.
Qed.

Lemma insert_sorted_filter (p : A -> bool) (x : A) (l : list A) :
  (forall y, p x = true -> p y = true -> before x y = true) ->
  List.filter p (insert_sorted before x l) = List.filter p (x :: l).
Proof.
  intros Hp. induction l as [|y l IH]; [reflexivity|].
  simpl. destruct (before x y) eqn:E; [reflexivity|].
  simpl in *. rewrite IH.
  destruct (p x) eqn:Ex, (p y) eqn:Ey; try reflexivity.
  rewrite (Hp y eq_refl Ey) in E. discriminate.
Qed.

Lemma sorted_filter (p : A -> bool) (l : list A) :
  (forall x y, p x = true -> p y = true -> before x y = true) ->
  List.filter p (sorted before l) = List.filter p l.
Proof.
  intros Hp. induction l as [|x l IH]; [reflexivity|].
  change (sorted before (x :: l))
    with (insert_sorted before x (sorted before l)).
  rewrite insert_sorted_filter by (intros y; apply Hp).
  simpl. now rewrite IH.
Qed.

Hypothesis total : forall x y, before x y = false -> before y x = true.
Hypothesis trans :
  forall x y z, before x y = true -> before y z = true -> before x z = true.

Lemma insert_sorted_sorted (x : A) (l : list A) :
  StronglySorted (fun a b => before a b = true) l ->
  StronglySorted (fun a b => before a b = true) (insert_sorted before x l).
Proof.
  induction 1 as [|y l Hs IH Hy]; simpl.
  - repeat constructor.
  - destruct (before x y) eqn:E.
    + constructor; [now constructor|]. constructor; [exact E|].
      eapply Forall_impl; [exact Hy|]. simpl. intros z Hz.
      now apply (trans x y z).
    + constructor; [exact IH|].
      rewrite <- insert_sorted_perm. constructor; [|exact Hy].
      now apply total.
Qed.

Lemma sorted_sorted (l : list A) :
  StronglySorted (fun a b => before a b = true) (sorted before l).
Proof.
  induction l as [|x l IH]; simpl; [constructor|].
  now apply insert_sorted_sorted.
Qed.

End Insertion.

(** *** The order on keys *)

Lemma ascii_compare_trans (a b c : ascii) (r : comparison) :
  Ascii.compare a b = r -> Ascii.compare b c = r -> Ascii.compare a c = r.
Proof.
  unfold Ascii.compare. destruct r; intros H1 H2.
  - apply N.compare_eq_iff in H1, H2. apply N.compare_eq_iff. congruence.
  - rewrite N.compare_lt_iff in *. lia.
  - rewrite N.compare_gt_iff in *. lia.
Qed.

Lemma ascii_compare_eq (a b : ascii) : Ascii.compare a b = Eq -> a = b.
Proof.
  unfold Ascii.compare. intros H. apply N.compare_eq_iff in H.
  rewrite <- (ascii_N_embedding a), <- (ascii_N_embedding b). now rewrite H.
Qed.

Lemma string_leb_trans (s t u : string) :
  String.leb s t = true -> String.leb t u = true -> String.leb s u = true.
Proof.
  unfold String.leb. revert t u.
  induction s as [|a s IH]; intros [|b t] [|c u]; simpl; try congruence.
  destruct (Ascii.compare a b) eqn:Eab; try discriminate;
    destruct (Ascii.compare b c) eqn:Ebc; try discriminate; intros H1 H2.
  - rewrite (ascii_compare_trans a b c Eq Eab Ebc). now apply (IH t u).
  - apply ascii_compare_eq in Eab. subst. now rewrite Ebc.
  - apply ascii_compare_eq in Ebc. subst. now rewrite Eab.
  - now rewrite (ascii_compare_trans a b c Lt Eab Ebc).
Qed.

Lemma string_leb_refl (s : string) : String.leb s s = true.
Proof.
  destruct (String.leb_total s s) as [H|H]; exact H.
Qed.

Lemma key_le_total (a b : key) : key_le a b = false -> key_le b a = true.
Proof.
  destruct a as [m|s], b as [n|t]; simpl; try congruence.
  - intros H. apply Z.leb_gt in H. apply Z.leb_le. lia.
  - intros H. destruct (String.leb_total s t) as [H'|H']; congruence.
Qed.

Lemma key_le_trans (a b c : key) :
  key_le a b = true -> key_le b c = true -> key_le a c = true.
Proof.
  destruct a as [m|s], b as [n|t], c as [o|u]; simpl; try congruence.
  - rewrite !Z.leb_le. lia.
  - apply string_leb_trans.
Qed.

Lemma key_eqb_le (a b : key) : key_eqb a b = true -> key_le a b = true.
Proof.
  destruct a as [m|s], b as [n|t]; simpl; try congruence.
  - rewrite Z.eqb_eq, Z.leb_le. lia.
  - intros H. apply String.eqb_eq in H. subst. apply string_leb_refl.
Qed.

Lemma key_eqb_trans_sym (a b k : key) :
  key_eqb a k = true -> key_eqb b k = true -> key_eqb a b = true.
Proof.
  destruct a as [m|s], b as [n|t], k as [o|u]; simpl; try congruence.
  - rewrite !Z.eqb_eq. lia.
  - rewrite !String.eqb_eq. congruence.
Qed.

(** X1: [SortOptions.sort] returns the entries it was given, each as often
    as before, with the keys of the chosen field rising when [ascending]
    and falling otherwise. *)
Theorem sort_is_an_ordered_permutation (entries : list HistoryEntry)
  (sort_by : string) (ascending : bool) :
  Permutation entries (sort entries sort_by ascending)
  /\ StronglySorted (in_order sort_by ascending)
       (sort entries sort_by ascending).
Proof.
  unfold sort. destruct entries as [|e es]; [split; constructor|].
  split; [apply sorted_perm|].
  unfold in_order.
  destruct ascending; simpl negb; cbv iota;
    apply (sorted_sorted (A := HistoryEntry)); intros;
    eauto using key_le_total, key_le_trans.
Qed.

(** X2: the sort is stable in both directions: the entries that share a
    key leave [SortOptions.sort] in the order they came in, also when the
    order is descending. *)
Theorem sort_is_stable (entries : list HistoryEntry) (sort_by : string)
  (ascending : bool) (k : key) :
  with_key sort_by k (sort entries sort_by ascending)
  = with_key sort_by k entries.
Proof.
  unfold sort, with_key. destruct entries as [|e es]; [reflexivity|].
  apply sorted_filter. intros x y Hx Hy.
  destruct ascending; simpl; apply key_eqb_le.
  - exact (key_eqb_trans_sym _ _ _ Hx Hy).
  - exact (key_eqb_trans_sym _ _ _ Hy Hx).
Qed.

End SortProps.

(** ** The tokenizer and the queries it feeds *)

Module TokenProps.

Import Models Search TokenPreds.

(** *** Strings *)

Lemma app_empty_r (s : string) : s +:+ "" = s.
Proof.
  induction s as [|c s IH]; [reflexivity|].
  change (String c (s +:+ "") = String c s). now f_equal.
Qed.

Lemma app_assoc (a b c : string) : (a +:+ b) +:+ c = a +:+ (b +:+ c).
Proof.
  induction a as [|x a IH]; [reflexivity|].
  change (String x ((a +:+ b) +:+ c) = String x (a +:+ (b +:+ c))).
  now f_equal.
Qed.

Lemma app_cons (c : ascii) (a b : string) :
  String c a +:+ b = String c (a +:+ b).
Proof. reflexivity. Qed.

Lemma length_app (a b : string) :
  String.length (a +:+ b) = String.length a + String.length b.
Proof.
  induction a as [|x a IH]; [reflexivity|].
  rewrite app_cons. simpl. now rewrite IH.
Qed.

Lemma visible_app (a b : string) :
  visible (a +:+ b) = visible a +:+ visible b.
Proof.
  induction a as [|x a IH]; [reflexivity|].
  rewrite app_cons. simpl. destruct (PyStr.isspace x); [exact IH|].
  rewrite app_cons. now f_equal.
Qed.

Lemma join_snoc (l : list string) (s : string) :
  PyStr.join "" (l ++ [s]) = PyStr.join "" l +:+ s.
Proof.
  unfold PyStr.join. induction l as [|a l IH]; [reflexivity|].
  destruct l as [|b l].
  - reflexivity.
  - change (a +:+ ("" +:+ String.concat "" ((b :: l) ++ [s]))
            = (a +:+ ("" +:+ String.concat "" (b :: l))) +:+ s).
    rewrite IH. change ("" +:+ ?x) with x. now rewrite app_assoc.
Qed.

(** *** The loop *)

Lemma tokenize_step_visible (st : tokenizer) (char : ascii) :
  visible (held (tokenize_step st char))
  = visible (held st +:+ str1 char).
Proof.
  unfold tokenize_step, held.
  destruct (Ascii.eqb char dquote && negb (in_regex st)); simpl;
    [now rewrite app_assoc|].
  destruct (Ascii.eqb char slash && negb (in_quotes st)); simpl;
    [now rewrite app_assoc|].
  destruct (PyStr.isspace char) eqn:Esp; simpl.
  - destruct (negb (in_quotes st) && negb (in_regex st)); simpl.
    + rewrite (visible_app _ (str1 char)). simpl. rewrite Esp. simpl.
      rewrite app_empty_r.
      destruct (String.eqb_spec (current_token st) "") as [E|E]; simpl.
      * reflexivity.
      * now rewrite join_snoc, app_empty_r.
    + now rewrite app_assoc.
  - now rewrite app_assoc.
Qed.

Lemma tokenize_loop_visible (query : string) (st : tokenizer) :
  visible (held (tokenize_loop st query)) = visible (held st +:+ query).
Proof.
  revert st. induction query as [|c q IH]; intros st; simpl.
  - now rewrite app_empty_r.
  - rewrite IH, !visible_app, tokenize_step_visible, visible_app.
    rewrite app_assoc, <- visible_app. reflexivity.
Qed.

Lemma tokenize_step_nonempty (st : tokenizer) (char : ascii) :
  Forall (fun t => t <> "") (tokens st) ->
  Forall (fun t => t <> "") (tokens (tokenize_step st char)).
Proof.
  intros H. unfold tokenize_step.
  repeat match goal with
         | |- context [if ?b then _ else _] => destruct b eqn:?; simpl
         end; try exact H.
  apply Forall_app. split; [exact H|]. constructor; [|constructor].
  intros E. rewrite E in *. discriminate.
Qed.

Lemma tokenize_loop_nonempty (query : string) (st : tokenizer) :
  Forall (fun t => t <> "") (tokens st) ->
  Forall (fun t => t <> "") (tokens (tokenize_loop st query)).
Proof.
  revert st. induction query as [|c q IH]; intros st H; simpl; [exact H|].
  apply IH. now apply tokenize_step_nonempty.
Qed.

(** X3: [_tokenize] never returns an empty token, whatever the query. *)
Theorem tokenize_gives_no_empty_token (query token : string) :
  In token (_tokenize query) -> token <> "".
Proof.
  unfold _tokenize. intros Hin.
  set (st := tokenize_loop _ query) in *.
  assert (Hst : Forall (fun t => t <> "") (tokens st))
    by (apply tokenize_loop_nonempty; constructor).
  rewrite Forall_forall in Hst.
  destruct (String.eqb_spec (current_token st) "") as [E|E].
  - apply Hst. now apply list_elem_of_In.
  - apply in_app_or in Hin. destruct Hin as [Hin|[<-|[]]]; [|exact E].
    apply Hst. now apply list_elem_of_In.
Qed.

Lemma tokenize_gives_no_empty_token_witness :
  In "b" (_tokenize " a   b ") /\ "b" <> "".
Proof.
  assert (H : In "b" (_tokenize " a   b ")) by (right; left; reflexivity).
  split; [exact H|].
  exact (tokenize_gives_no_empty_token " a   b " "b" H).
Defined.

(** X4: [_tokenize] drops white space and nothing else: the characters of
    its tokens, read in order, are the characters of the query that are
    not white space, together with the white space kept inside quotes and
    between slashes. *)
Theorem tokenize_drops_only_white_space (query : string) :
  visible (PyStr.join "" (_tokenize query)) = visible query.
Proof.
  unfold _tokenize.
  pose proof (tokenize_loop_visible query
    {| tokens := []; current_token := ""; in_quotes := false;
       in_regex := false |}) as H.
  set (st := tokenize_loop _ query) in *.
  change (visible (held st) = visible query) in H. rewrite <- H.
  unfold held.
  destruct (String.eqb_spec (current_token st) "") as [E|E].
  - now rewrite E, app_empty_r.
  - now rewrite join_snoc.
Qed.

(** *** Queries without quotes and slashes *)

Lemma free_of_cons (c d : ascii) (s : string) :
  free_of c (String d s) -> Ascii.eqb d c = false /\ free_of c s.
Proof.
  unfold free_of. simpl. destruct (Ascii.eqb d c); [discriminate|].
  intros H. now split.
Qed.

Lemma spaceless_snoc (s : string) (c : ascii) :
  spaceless s -> PyStr.isspace c = false -> spaceless (s +:+ str1 c).
Proof.
  unfold spaceless. intros Hs Hc. rewrite visible_app, Hs. simpl.
  now rewrite Hc.
Qed.

Lemma tokenize_step_plain (st : tokenizer) (char : ascii) :
  Ascii.eqb char dquote = false -> Ascii.eqb char slash = false ->
  plain st -> plain (tokenize_step st char).
Proof.
  intros Hq Hs (Hiq & Hir & Ht & Hc). unfold tokenize_step.
  rewrite Hq, Hs, Hiq, Hir. simpl. rewrite !andb_true_r.
  destruct (PyStr.isspace char) eqn:Esp.
  - destruct (String.eqb (current_token st) ""); [now repeat split|].
    repeat split; simpl; try assumption.
    apply Forall_app. split; [exact Ht|]. now constructor.
  - repeat split; simpl; try assumption. now apply spaceless_snoc.
Qed.

Lemma tokenize_loop_plain (query : string) (st : tokenizer) :
  free_of dquote query -> free_of slash query ->
  plain st -> plain (tokenize_loop st query).
Proof.
  revert st. induction query as [|c q IH]; intros st Hq Hs Hst; [exact Hst|].
  apply free_of_cons in Hq, Hs. destruct Hq as [Hq Hq'], Hs as [Hs Hs'].
  simpl. apply IH; [exact Hq' | exact Hs' |].
  now apply tokenize_step_plain.
Qed.

(** X5: on a query with no double quote and no slash, no token of
    [_tokenize] holds white space: the tokens are the words of the
    query. *)
Theorem tokenize_plain_query_gives_words (query token : string) :
  free_of dquote query -> free_of slash query ->
  In token (_tokenize query) -> spaceless token.
Proof.
  intros Hq Hs. unfold _tokenize.
  assert (Hst : plain (tokenize_loop
    {| tokens := []; current_token := ""; in_quotes := false;
       in_regex := false |} query)).
  { apply tokenize_loop_plain; [exact Hq | exact Hs |].
    repeat split. constructor. }
  set (st := tokenize_loop _ query) in *.
  destruct Hst as (_ & _ & Ht & Hc). rewrite Forall_forall in Ht.
  destruct (String.eqb (current_token st) "").
  - intros Hin. apply Ht. now apply list_elem_of_In.
  - intros Hin. apply in_app_or in Hin. destruct Hin as [Hin|[<-|[]]].
    + apply Ht. now apply list_elem_of_In.
    + exact Hc.
Qed.

Lemma tokenize_plain_query_witness :
  In "bar" (_tokenize "foo  bar") /\ spaceless "bar".
Proof.
  split; [right; left; reflexivity|].
  apply (tokenize_plain_query_gives_words "foo  bar" "bar");
    [reflexivity | reflexivity | right; left; reflexivity].
Defined.

(** *** Quoted phrases and regular expressions *)

Lemma tokenize_loop_app (a b : string) (st : tokenizer) :
  tokenize_loop st (a +:+ b) = tokenize_loop (tokenize_loop st a) b.
Proof.
  revert st. induction a as [|c a IH]; intros st; [reflexivity|].
  rewrite app_cons. simpl. apply IH.
Qed.

Lemma tokenize_loop_in_quotes (s : string) (toks : list string)
  (cur : string) :
  free_of dquote s ->
  tokenize_loop
    {| tokens := toks; current_token := cur; in_quotes := true;
       in_regex := false |} s
  = {| tokens := toks; current_token := cur +:+ s; in_quotes := true;
       in_regex := false |}.
Proof.
  revert cur. induction s as [|c s IH]; intros cur H.
  - now rewrite app_empty_r.
  - apply free_of_cons in H. destruct H as [Hc H]. simpl.
    unfold tokenize_step. simpl. rewrite Hc, !andb_false_r. simpl.
    rewrite (IH _ H), app_assoc. reflexivity.
Qed.

Lemma tokenize_loop_in_regex (s : string) (toks : list string)
  (cur : string) :
  free_of slash s ->
  tokenize_loop
    {| tokens := toks; current_token := cur; in_quotes := false;
       in_regex := true |} s
  = {| tokens := toks; current_token := cur +:+ s; in_quotes := false;
       in_regex := true |}.
Proof.
  revert cur. induction s as [|c s IH]; intros cur H.
  - now rewrite app_empty_r.
  - apply free_of_cons in H. destruct H as [Hc H]. simpl.
    unfold tokenize_step. simpl. rewrite Hc, !andb_false_r. simpl.
    rewrite (IH _ H), app_assoc. reflexivity.
Qed.

Lemma between_not_empty (d : ascii) (s : string) :
  String.eqb (between d s) "" = false.
Proof. reflexivity. Qed.

Lemma tokenize_loop_quoted (s : string) :
  free_of dquote s ->
  tokenize_loop start (between dquote s)
  = {| tokens := []; current_token := between dquote s; in_quotes := false;
       in_regex := false |}.
Proof.
  intros H. unfold between.
  change (tokenize_loop start (String dquote (s +:+ str1 dquote)))
    with (tokenize_loop
            {| tokens := []; current_token := str1 dquote; in_quotes := true;
               in_regex := false |} (s +:+ str1 dquote)).
  rewrite tokenize_loop_app, (tokenize_loop_in_quotes s [] _ H).
  reflexivity.
Qed.

Lemma tokenize_loop_regex (s : string) :
  free_of slash s ->
  tokenize_loop start (between slash s)
  = {| tokens := []; current_token := between slash s; in_quotes := false;
       in_regex := false |}.
Proof.
  intros H. unfold between.
  change (tokenize_loop start (String slash (s +:+ str1 slash)))
    with (tokenize_loop
            {| tokens := []; current_token := str1 slash; in_quotes := false;
               in_regex := true |} (s +:+ str1 slash)).
  rewrite tokenize_loop_app, (tokenize_loop_in_regex s [] _ H).
  reflexivity.
Qed.

Lemma tokenize_quoted (s : string) :
  free_of dquote s -> _tokenize (between dquote s) = [between dquote s].
Proof.
  intros H. unfold _tokenize. fold start.
  now rewrite (tokenize_loop_quoted s H).
Qed.

Lemma tokenize_regex (s : string) :
  free_of slash s -> _tokenize (between slash s) = [between slash s].
Proof.
  intros H. unfold _tokenize. fold start.
  now rewrite (tokenize_loop_regex s H).
Qed.

Lemma rstrip_snoc (s : string) (c : ascii) :
  PyStr.isspace c = false -> PyStr.rstrip (s +:+ str1 c) = s +:+ str1 c.
Proof.
  intros Hc. induction s as [|a s IH].
  - simpl. now rewrite Hc.
  - rewrite app_cons. simpl PyStr.rstrip. rewrite IH.
    destruct s; reflexivity.
Qed.

Lemma strip_between (d : ascii) (s : string) :
  PyStr.isspace d = false -> PyStr.strip (between d s) = between d s.
Proof.
  intros Hd. unfold PyStr.strip, between. simpl PyStr.lstrip. rewrite Hd.
  change (String d (s +:+ str1 d)) with (String d s +:+ str1 d).
  now apply rstrip_snoc.
Qed.

Lemma substring_0_app (s t : string) :
  substring 0 (String.length s) (s +:+ t) = s.
Proof.
  induction s as [|c s IH]; [now destruct t|].
  rewrite app_cons. simpl. now rewrite IH.
Qed.

Lemma substring_last (s : string) (d : ascii) :
  substring (String.length s) 1 (s +:+ str1 d) = str1 d.
Proof. induction s as [|c s IH]; [reflexivity | exact IH]. Qed.

Lemma slice_between (d : ascii) (s : string) :
  PyStr.slice_1_m1 (between d s) = s.
Proof.
  unfold PyStr.slice_1_m1, between.
  replace (String.length (String d (s +:+ str1 d)) - 2) with (String.length s)
    by (simpl; rewrite length_app; simpl; lia).
  simpl. apply substring_0_app.
Qed.

Lemma endswith_between (d : ascii) (s : string) :
  PyStr.endswith (str1 d) (between d s) = true.
Proof.
  unfold PyStr.endswith, between.
  replace (String.length (String d (s +:+ str1 d)) - String.length (str1 d))
    with (S (String.length s)) by (simpl; rewrite length_app; simpl; lia).
  apply andb_true_iff. split.
  - apply Nat.leb_le. simpl. lia.
  - simpl substring. simpl String.length. rewrite substring_last.
    apply String.eqb_refl.
Qed.

Lemma startswith_between (d : ascii) (s : string) :
  PyStr.startswith (str1 d) (between d s) = true.
Proof.
  unfold PyStr.startswith, between, str1. simpl.
  destruct (ascii_dec d d) as [_|Hne]; [|contradiction].
  now destruct (s +:+ String d "").
Qed.

Section WithRe.
Context {RE : ReEngine}.

(** X6: a query that is one phrase in double quotes, with no double quote
    inside, parses to one filter: a case-sensitive literal search for the
    phrase, with its spaces and slashes. *)
Theorem parse_query_quoted_phrase (phrase : string) :
  free_of dquote phrase ->
  parse_query (between dquote phrase) = [KeywordFilter phrase true false].
Proof.
  intros H. unfold parse_query.
  rewrite (strip_between dquote phrase eq_refl), between_not_empty.
  rewrite (tokenize_quoted phrase H). simpl fold_left. unfold parse_token.
  rewrite (strip_between dquote phrase eq_refl).
  replace (PyStr.startswith "/" (between dquote phrase)) with false
    by reflexivity.
  rewrite (startswith_between dquote phrase).
  rewrite (endswith_between dquote phrase). simpl.
  unfold add_keyword_filter. now rewrite slice_between.
Qed.

(** X7: a query that is one pattern between slashes, with no slash
    inside, parses to one filter: a case-insensitive regular-expression
    search for the pattern, with its spaces and quotes. *)
Theorem parse_query_regex_pattern (pattern : string) :
  free_of slash pattern ->
  parse_query (between slash pattern) = [KeywordFilter pattern false true].
Proof.
  intros H. unfold parse_query.
  rewrite (strip_between slash pattern eq_refl), between_not_empty.
  rewrite (tokenize_regex pattern H). simpl fold_left. unfold parse_token.
  rewrite (strip_between slash pattern eq_refl).
  change "/" with (str1 slash).
  rewrite (startswith_between slash pattern).
  rewrite (endswith_between slash pattern). simpl.
  unfold add_keyword_filter. now rewrite slice_between.
Qed.

(** *** The text a regular expression sees *)

Lemma length_substring_le (s : string) (n m : nat) :
  String.length (substring n m s) <= m.
Proof.
  revert n m. induction s as [|c s IH]; intros [|n] [|m]; simpl; try lia.
  - specialize (IH 0 m). lia.
  - apply IH.
  - apply IH.
Qed.

Lemma substring_0_all (s : string) (n : nat) :
  String.length s <= n -> substring 0 n s = s.
Proof.
  revert n. induction s as [|c s IH]; intros [|n] H; simpl in *;
    try reflexivity; try lia.
  rewrite IH by lia. reflexivity.
Qed.

(** X8: [safe_regex_search] looks at the first 1,000,000 characters of a
    text and at nothing after them: the answer for a text is the answer
    for its first 1,000,000 characters. *)
Theorem safe_regex_search_sees_a_prefix (pattern : Pattern) (text : string) :
  safe_regex_search pattern text
  = safe_regex_search pattern (PyStr.take MAX_TEXT_LENGTH text).
Proof.
  unfold safe_regex_search, PyStr.take. generalize MAX_TEXT_LENGTH. intros n.
  pose proof (length_substring_le text 0 n) as Hle.
  apply Nat.ltb_ge in Hle. rewrite Hle.
  destruct (Nat.ltb_spec n (String.length text)) as [Hlt|Hge].
  - reflexivity.
  - now rewrite substring_0_all.
Qed.

(** *** Filters in sequence *)

Lemma forallb_perm {A} (p : A -> bool) (l l' : list A) :
  Permutation l l' -> forallb p l = forallb p l'.
Proof.
  induction 1; simpl; try congruence.
  destruct (p x), (p y); reflexivity.
Qed.

Lemma filter_filter {A} (p q : A -> bool) (l : list A) :
  List.filter q (List.filter p l) = List.filter (fun x => p x && q x) l.
Proof.
  induction l as [|x l IH]; simpl; [reflexivity|].
  destruct (p x); simpl; [destruct (q x)|]; now rewrite IH.
Qed.

(** X9: the order in which filters were added does not matter: two
    [SearchFilter]s holding the same filters, in any order, keep the same
    entries. *)
Theorem apply_ignores_filter_order (self other : SearchFilter)
  (entries : list HistoryEntry) :
  Permutation self other -> apply self entries = apply other entries.
Proof.
  intros H. rewrite !SearchProps.apply_filter_all.
  apply List.filter_ext. intros e. now apply forallb_perm.
Qed.

(** X10: filtering can be done in stages: applying the filters of [self]
    and then those of [other] gives what one [SearchFilter] holding both
    gives. *)
Theorem apply_in_stages (self other : SearchFilter)
  (entries : list HistoryEntry) :
  apply (self ++ other) entries = apply other (apply self entries).
Proof.
  rewrite !SearchProps.apply_filter_all, filter_filter.
  apply List.filter_ext. intros e. apply forallb_app.
Qed.

End WithRe.

Lemma parse_query_quoted_phrase_witness :
  parse_query (between dquote "a b/c") = [KeywordFilter "a b/c" true false].
Proof. apply (parse_query_quoted_phrase "a b/c"). reflexivity. Defined.

Lemma parse_query_regex_pattern_witness :
  parse_query (between slash "a b|c") = [KeywordFilter "a b|c" false true].
Proof. apply (parse_query_regex_pattern "a b|c"). reflexivity. Defined.

Lemma apply_ignores_filter_order_witness :
  apply (RE := Samples.literal_re)
    [DomainFilter ["a.example"]; BookmarkedFilter true] [Samples.sample_entry]
  = apply (RE := Samples.literal_re)
      [BookmarkedFilter true; DomainFilter ["a.example"]]
      [Samples.sample_entry].
Proof.
  apply (apply_ignores_filter_order (RE := Samples.literal_re)).
  apply perm_swap.
Defined.

End TokenProps.

(** ** Tallies and groups *)

Module DictProps.

Import PyDict TallyPreds.

Section Dict.
Context {K V : Type} `{EqDecision K}.

Lemma get_upsert_eq (k : K) (f : option V -> V) (d : dict K V) :
  get (upsert k f d) k = Some (f (get d k)).
Proof.
  induction d as [|[k' v] d IH]; simpl.
  - now rewrite decide_True.
  - destruct (decide (k' = k)) as [E|E]; simpl.
    + now rewrite decide_True.
    + now rewrite decide_False.
Qed.

Lemma get_upsert_ne (k k0 : K) (f : option V -> V) (d : dict K V) :
  k <> k0 -> get (upsert k f d) k0 = get d k0.
Proof.
  intros Hne. induction d as [|[k' v] d IH]; simpl.
  - now rewrite decide_False.
  - destruct (decide (k' = k)) as [E|E]; simpl.
    + subst. now rewrite !decide_False.
    + destruct (decide (k' = k0)); [reflexivity | exact IH].
Qed.

Lemma keys_upsert (k : K) (f : option V -> V) (d : dict K V) :
  keys (upsert k f d) = if decide (k ∈ keys d) then keys d
                        else keys d ++ [k].
Proof.
  unfold keys. induction d as [|[k' v] d IH]; cbn [upsert map fst app].
  - destruct (decide (k ∈ [])) as [Hin|_]; [|reflexivity].
    now apply not_elem_of_nil in Hin.
  - destruct (decide (k' = k)) as [E|E]; cbn [map fst].
    + subst. destruct (decide (k ∈ k :: map fst d)) as [_|Hout];
        [reflexivity|]. exfalso. apply Hout, list_elem_of_here.
    + rewrite IH. destruct (decide (k ∈ map fst d)) as [Hin|Hout];
        destruct (decide (k ∈ k' :: map fst d)) as [Hin'|Hout'];
        try reflexivity; exfalso.
      * apply Hout'. now apply list_elem_of_further.
      * apply elem_of_cons in Hin'. destruct Hin'; [congruence|contradiction].
Qed.

Lemma In_get (k : K) (v : V) (d : dict K V) :
  NoDup (keys d) -> (In (k, v) d <-> get d k = Some v).
Proof.
  unfold keys. induction d as [|[k' v'] d IH]; simpl; intros Hnd.
  - split; [tauto | discriminate].
  - apply NoDup_cons in Hnd. destruct Hnd as [Hk' Hnd].
    destruct (decide (k' = k)) as [E|E].
    + subst k'. split.
      * intros [Heq|Hin]; [congruence|]. exfalso. apply Hk'.
        apply list_elem_of_In. apply in_map_iff. now exists (k, v).
      * intros Heq. left. congruence.
    + rewrite <- (IH Hnd). split; [|tauto].
      intros [Heq|Hin]; [congruence | exact Hin].
Qed.

Lemma get_Some_keys (k : K) (d : dict K V) :
  In k (keys d) <-> is_Some (get d k).
Proof.
  unfold keys. induction d as [|[k' v'] d IH]; simpl.
  - split; [tauto | intros [x Hx]; discriminate].
  - destruct (decide (k' = k)) as [E|E].
    + split; [now eexists | now left].
    + rewrite <- IH. split; [|tauto]. intros [?|?]; [contradiction|assumption].
Qed.

End Dict.

(** *** One [upsert] per element *)

Section Collect.
Context {E K V : Type} `{EqDecision K}.
Variable key : E -> K.
Variable upd : E -> option V -> V.

Lemma get_collect (es : list E) (acc : dict K V) (k : K) :
  get (collect key upd es acc) k
  = fold_left (fun o e => Some (upd e o)) (keyed key k es) (get acc k).
Proof.
  unfold collect, keyed. revert acc.
  induction es as [|e es IH]; intros acc; simpl; [reflexivity|].
  rewrite IH. destruct (decide (key e = k)) as [E1|E1].
  - rewrite bool_decide_eq_true_2 by exact E1. simpl.
    subst k. now rewrite get_upsert_eq.
  - rewrite bool_decide_eq_false_2 by exact E1.
    now rewrite get_upsert_ne.
Qed.

Lemma keys_collect_nodup (es : list E) (acc : dict K V) :
  NoDup (keys acc) -> NoDup (keys (collect key upd es acc)).
Proof.
  unfold collect. revert acc.
  induction es as [|e es IH]; intros acc Hnd; simpl; [exact Hnd|].
  apply IH. rewrite keys_upsert.
  destruct (decide (key e ∈ keys acc)) as [Hin|Hout]; [exact Hnd|].
  apply NoDup_app. split; [exact Hnd|]. split.
  - intros x Hx Hx'. apply list_elem_of_singleton in Hx'. now subst.
  - apply NoDup_singleton.
Qed.

Lemma keys_collect_In (es : list E) (acc : dict K V) (k : K) :
  In k (keys (collect key upd es acc))
  <-> In k (keys acc) \/ In k (map key es).
Proof.
  unfold collect. revert acc.
  induction es as [|e es IH]; intros acc; simpl; [tauto|].
  rewrite IH, keys_upsert.
  destruct (decide (key e ∈ keys acc)) as [Hin|Hout].
  - apply list_elem_of_In in Hin.
    split; [tauto|]. intros [H1|[H1|H1]]; try tauto. subst. tauto.
  - rewrite in_app_iff. simpl. tauto.
Qed.

End Collect.

(** *** Counting *)

Lemma total_app (a b : list Z) : total (a ++ b) = (total a + total b)%Z.
Proof.
  unfold total. induction a as [|x a IH]; simpl; [reflexivity|].
  rewrite IH. lia.
Qed.

Lemma total_add {K} `{EqDecision K} (d : dict K Z) (k : K) (n : Z) :
  total (values (add d k n)) = (total (values d) + n)%Z.
Proof.
  unfold add, values, total.
  induction d as [|[k' v] d IH]; simpl; [lia|].
  destruct (decide (k' = k)); simpl; [lia|]. rewrite IH. lia.
Qed.

Section Tally.
Context {E K : Type} `{EqDecision K}.
Variable key : E -> K.
Variable weight : E -> Z.

Lemma weigh_from (es : list E) (a : Z) :
  fold_left (fun t e => (t + weight e)%Z) es a = (a + weigh weight es)%Z.
Proof.
  revert a. induction es as [|e es IH]; intros a; cbn [fold_left].
  - unfold weigh. cbn [fold_left]. lia.
  - rewrite IH. unfold weigh at 2. cbn [fold_left].
    rewrite (IH (0 + weight e)%Z). lia.
Qed.

Lemma weigh_cons (e : E) (es : list E) :
  weigh weight (e :: es) = (weight e + weigh weight es)%Z.
Proof.
  unfold weigh at 1. cbn [fold_left]. rewrite weigh_from. lia.
Qed.

Lemma total_tally (es : list E) (acc : dict K Z) :
  total (values (tally key weight es acc))
  = (total (values acc) + weigh weight es)%Z.
Proof.
  unfold tally. revert acc.
  induction es as [|e es IH]; intros acc; cbn [fold_left].
  - unfold weigh. simpl. lia.
  - rewrite IH, total_add, weigh_cons. lia.
Qed.

Lemma get_tally (es : list E) (k : K) :
  get (tally key weight es []) k
  = match keyed key k es with
    | [] => None
    | _ :: _ => Some (weigh weight (keyed key k es))
    end.
Proof.
  change (tally key weight es []) with
    (collect key (fun e o => (default 0 o + weight e)%Z) es []).
  rewrite get_collect. cbn [get].
  assert (G : forall l o,
    fold_left (fun o e => Some (default 0 o + weight e)%Z) l o
    = match l with
      | [] => o
      | _ :: _ => Some (default 0 o + weigh weight l)%Z
      end).
  { induction l as [|e l IHl]; intros o; [reflexivity|].
    cbn [fold_left]. rewrite IHl, weigh_cons.
    destruct l as [|e' l]; cbn [default]; apply (f_equal Some);
      [|unfold Datatypes.id; lia].
    unfold weigh. cbn [fold_left]. lia. }
  rewrite G. destruct (keyed key k es); [reflexivity|]. simpl. f_equal.
Qed.

Lemma tally_keys_nodup (es : list E) :
  NoDup (keys (tally key weight es [])).
Proof.
  change (tally key weight es []) with
    (collect key (fun e o => (default 0 o + weight e)%Z) es []).
  apply keys_collect_nodup. constructor.
Qed.

Lemma tally_keys_In (es : list E) (k : K) :
  In k (keys (tally key weight es [])) <-> In k (map key es).
Proof.
  change (tally key weight es []) with
    (collect key (fun e o => (default 0 o + weight e)%Z) es []).
  rewrite keys_collect_In. simpl. tauto.
Qed.

End Tally.

End DictProps.

(** ** Statistics over the history *)

Module StatisticsProps.

Import PyNum Models PyDict TallyPreds DictProps.
Import URLAnalyzer BrowserStatistics.
Local Open Scope Z_scope.

(** *** Lists *)

Lemma firstn_In {A} (n : nat) (l : list A) (x : A) :
  In x (firstn n l) -> In x l.
Proof.
  revert l. induction n as [|n IH]; intros [|y l]; simpl; try tauto.
  intros [H|H]; [now left | right; now apply IH].
Qed.

Lemma firstn_sorted {A} (R : A -> A -> Prop) (n : nat) (l : list A) :
  StronglySorted R l -> StronglySorted R (firstn n l).
Proof.
  intros H. revert n. induction H as [|x l Hs IH Hx]; intros [|n]; simpl;
    try constructor.
  - apply IH.
  - rewrite Forall_forall in Hx. rewrite Forall_forall. intros y Hy.
    apply Hx. apply list_elem_of_In. apply list_elem_of_In in Hy.
    now apply firstn_In in Hy.
Qed.

Lemma firstn_above_rest {A} (R : A -> A -> Prop) (n : nat) (l : list A)
  (x y : A) :
  StronglySorted R l -> In x (firstn n l) -> In y l -> ~ In y (firstn n l) ->
  R x y.
Proof.
  intros H. revert n. induction H as [|z l Hs IH Hz]; intros [|n]; simpl;
    try tauto.
  intros [Hx|Hx] [Hy|Hy] Hny; try tauto.
  - subst. rewrite Forall_forall in Hz. apply Hz. now apply list_elem_of_In.
  - apply (IH n); tauto.
Qed.

Lemma slice_to_In {A} (n : Z) (l : list A) (x : A) :
  In x (PyList.slice_to n l) -> In x l.
Proof. unfold PyList.slice_to. destruct (n <? 0); apply firstn_In. Qed.

Lemma slice_to_sorted {A} (R : A -> A -> Prop) (n : Z) (l : list A) :
  StronglySorted R l -> StronglySorted R (PyList.slice_to n l).
Proof. unfold PyList.slice_to. destruct (n <? 0); apply firstn_sorted. Qed.

Lemma map_sorted {A B} (R : B -> B -> Prop) (f : A -> B) (l : list A) :
  StronglySorted (fun x y => R (f x) (f y)) l -> StronglySorted R (map f l).
Proof.
  induction 1 as [|x l Hs IH Hx]; simpl; constructor; [exact IH|].
  rewrite Forall_forall in Hx. rewrite Forall_forall. intros y Hy.
  apply list_elem_of_In, in_map_iff in Hy. destruct Hy as (a & <- & Ha).
  apply Hx. now apply list_elem_of_In.
Qed.

Lemma sorted_impl {A} (R S : A -> A -> Prop) (l : list A) :
  (forall x y, R x y -> S x y) -> StronglySorted R l -> StronglySorted S l.
Proof.
  intros HRS. induction 1 as [|x l Hs IH Hx]; constructor; [exact IH|].
  eapply Forall_impl; [exact Hx|]. intros y. apply HRS.
Qed.

Lemma sorted_by_count {A} (count : A -> Z) (l : list A) :
  StronglySorted (fun x y => count y <= count x)
    (PyList.sorted (fun x y => count y <=? count x) l).
Proof.
  eapply sorted_impl;
    [|apply (SortProps.sorted_sorted (fun x y => count y <=? count x))].
  - intros x y H. now apply Z.leb_le.
  - intros x y H. apply Z.leb_gt in H. apply Z.leb_le. lia.
  - intros x y z. rewrite !Z.leb_le. lia.
Qed.

Lemma sorted_by_count_In {A} (count : A -> Z) (l : list A) (x : A) :
  In x (PyList.sorted (fun x y => count y <=? count x) l) <-> In x l.
Proof.
  pose proof (SortProps.sorted_perm (fun x y => count y <=? count x) l) as P.
  split; intros H.
  - eapply Permutation_in; [symmetry; exact P | exact H].
  - eapply Permutation_in; [exact P | exact H].
Qed.

Lemma count_ones {E} (es : list E) :
  weigh (fun _ => 1) es = Z.of_nat (length es).
Proof.
  induction es as [|e es IH]; [reflexivity|].
  rewrite weigh_cons, IH. simpl length. lia.
Qed.

Lemma length_keys {K V} (d : dict K V) : length (keys d) = length d.
Proof. apply length_map. Qed.

(** *** Visits per domain *)

Lemma visit_frequency_is_tally (entries : list HistoryEntry) :
  get_visit_frequency entries = tally domain visit_count entries [].
Proof. reflexivity. Qed.

Lemma unique_domains_tally (entries : list HistoryEntry) :
  length (get_visit_frequency entries) = get_unique_domains entries.
Proof.
  rewrite visit_frequency_is_tally, <- length_keys. unfold get_unique_domains.
  rewrite <- (size_list_to_set (C := gset string))
    by apply tally_keys_nodup.
  f_equal. apply set_eq. intros d. rewrite !elem_of_list_to_set.
  rewrite !list_elem_of_In. apply tally_keys_In.
Qed.

(** X11: [get_visit_frequency] gives, for a domain of the history, the
    sum of the visit counts of its entries, and has no key for a domain
    that no entry has. *)
Theorem visit_frequency_adds_up_per_domain (entries : list HistoryEntry)
  (d : string) :
  get (get_visit_frequency entries) d
  = match keyed domain d entries with
    | [] => None
    | _ :: _ => Some (get_total_visits (keyed domain d entries))
    end.
Proof. rewrite visit_frequency_is_tally. apply get_tally. Qed.

(** X12: the values of [get_visit_frequency] add up to
    [get_total_visits]: every visit is counted under one domain. *)
Theorem visit_frequency_adds_up (entries : list HistoryEntry) :
  total (values (get_visit_frequency entries)) = get_total_visits entries.
Proof.
  rewrite visit_frequency_is_tally, total_tally. reflexivity.
Qed.

(** X13: [get_visit_frequency] has one key per domain of the history:
    its length is [get_unique_domains]. *)
Theorem visit_frequency_has_each_domain_once (entries : list HistoryEntry) :
  NoDup (keys (get_visit_frequency entries))
  /\ length (get_visit_frequency entries) = get_unique_domains entries.
Proof.
  split; [apply tally_keys_nodup | apply unique_domains_tally].
Qed.

(** X14: [get_top_domains] returns the [limit] domains with the most
    visits (all of them when there are fewer, none when [limit] is not
    positive): pairs of [get_visit_frequency], counts falling, and no
    domain left out has more visits than one returned. *)
Theorem top_domains_are_the_most_visited (entries : list HistoryEntry)
  (limit : Z) :
  let top := get_top_domains entries limit in
  let frequency := get_visit_frequency entries in
  length top = Nat.min (Z.to_nat limit) (get_unique_domains entries)
  /\ StronglySorted (fun a b => snd b <= snd a) top
  /\ (forall d n, In (d, n) top -> get frequency d = Some n)
  /\ (forall d n d' n',
        In (d, n) top -> get frequency d' = Some n' -> ~ In (d', n') top ->
        n' <= n).
Proof.
  intros top frequency.
  assert (Hnd : NoDup (keys frequency)) by apply tally_keys_nodup.
  subst top. unfold get_top_domains, most_common.
  change (domain_counts entries) with frequency.
  split; [|split; [|split]].
  - rewrite length_firstn. f_equal.
    rewrite <- (Permutation_length (SortProps.sorted_perm _ frequency)).
    apply unique_domains_tally.
  - apply firstn_sorted. apply (sorted_by_count snd).
  - intros d n Hin. apply firstn_In in Hin.
    apply (proj1 (sorted_by_count_In snd _ _)) in Hin.
    exact (proj1 (In_get d n frequency Hnd) Hin).
  - intros d n d' n' Hin Hget Hout.
    apply (firstn_above_rest (fun a b => snd b <= snd a) _ _ (d, n) (d', n')
             (sorted_by_count snd frequency) Hin); [|exact Hout].
    apply (proj2 (sorted_by_count_In snd _ _)).
    exact (proj2 (In_get d' n' frequency Hnd) Hget).
Qed.

(** *** Entries per browser, hour and day *)

(** X15: [get_browser_distribution] gives, for a browser of the history,
    the number of its entries, has no key for another browser, and its
    values add up to the number of entries. *)
Theorem browser_distribution_counts_entries (entries : list HistoryEntry) :
  total (values (get_browser_distribution entries))
  = Z.of_nat (length entries)
  /\ forall b,
       get (get_browser_distribution entries) b
       = match keyed browser b entries with
         | [] => None
         | _ :: _ => Some (Z.of_nat (length (keyed browser b entries)))
         end.
Proof.
  change (get_browser_distribution entries)
    with (tally browser (fun _ => 1) entries []).
  split.
  - rewrite total_tally, count_ones. reflexivity.
  - intros b. rewrite get_tally, count_ones. reflexivity.
Qed.

(** X16: [get_activity_by_hour] counts every entry under one hour
    between [0] and [23]. *)
Theorem activity_by_hour_counts_entries (entries : list HistoryEntry) :
  total (values (get_activity_by_hour entries)) = Z.of_nat (length entries)
  /\ Forall (fun h => 0 <= h <= 23) (keys (get_activity_by_hour entries)).
Proof.
  change (get_activity_by_hour entries)
    with (tally (fun e => PyTime.hour (visit_time e)) (fun _ => 1) entries []).
  split.
  - rewrite total_tally, count_ones. reflexivity.
  - rewrite Forall_forall. intros h Hh.
    apply list_elem_of_In, tally_keys_In, in_map_iff in Hh.
    destruct Hh as (e & <- & _). unfold PyTime.hour.
    pose proof (Z.mod_pos_bound (visit_time e / 3600000000) 24). lia.
Qed.

Lemma day_name_weekday (t : datetime) :
  day_name (PyTime.weekday t)
  = Ok (nth (Z.to_nat (PyTime.weekday t)) day_names ""%string).
Proof.
  unfold PyTime.weekday.
  pose proof (Z.mod_pos_bound (t / 86400000000 + 3) 7) as Hw.
  remember ((t / 86400000000 + 3) mod 7) as w eqn:E. clear E.
  assert (C : w = 0 \/ w = 1 \/ w = 2 \/ w = 3 \/ w = 4 \/ w = 5 \/ w = 6)
    by lia.
  repeat (destruct C as [->|C]; [reflexivity|]). subst. reflexivity.
Qed.

Lemma count_days_tally (entries : list HistoryEntry)
  (acc : dict string Z) :
  count_days acc entries
  = Ok (tally
          (fun e => nth (Z.to_nat (PyTime.weekday (visit_time e))) day_names
                      ""%string)
          (fun _ => 1) entries acc).
Proof.
  revert acc. induction entries as [|e es IH]; intros acc; [reflexivity|].
  cbn [count_days]. rewrite day_name_weekday. apply IH.
Qed.

(** X17: [get_activity_by_day_of_week] never raises, and counts every
    entry under one of the seven day names. *)
Theorem activity_by_day_counts_entries (entries : list HistoryEntry) :
  exists day_counts,
    get_activity_by_day_of_week entries = Ok day_counts
    /\ total (values day_counts) = Z.of_nat (length entries)
    /\ Forall (fun name => In name day_names) (keys day_counts).
Proof.
  unfold get_activity_by_day_of_week. rewrite count_days_tally.
  eexists. split; [reflexivity|]. split.
  - rewrite total_tally, count_ones. reflexivity.
  - rewrite Forall_forall. intros name Hn.
    apply list_elem_of_In, tally_keys_In, in_map_iff in Hn.
    destruct Hn as (e & <- & _). apply nth_In.
    pose proof (Z.mod_pos_bound (visit_time e / 86400000000 + 3) 7).
    unfold PyTime.weekday. simpl length. lia.
Qed.

(** *** The first and the last visit *)

Lemma min_of_spec (d : datetime) (rest : list datetime) :
  In (min_of d rest) (d :: rest)
  /\ Forall (fun t => min_of d rest <= t) (d :: rest).
Proof.
  unfold min_of. revert d. induction rest as [|x rest IH]; intros d.
  - split; [now left|].
    apply List.Forall_cons; [simpl; lia | apply List.Forall_nil].
  - cbn [fold_left]. destruct (IH (Z.min d x)) as [Hin Hall].
    apply Forall_cons in Hall. destruct Hall as [Hm Hall]. split.
    + destruct Hin as [Hin|Hin]; [|right; now right].
      rewrite <- Hin. destruct (Z.min_spec d x) as [[_ ->]|[_ ->]];
        [now left | right; now left].
    + apply List.Forall_cons; [lia|].
      apply List.Forall_cons; [lia | exact Hall].
Qed.

Lemma max_of_spec (d : datetime) (rest : list datetime) :
  In (max_of d rest) (d :: rest)
  /\ Forall (fun t => t <= max_of d rest) (d :: rest).
Proof.
  unfold max_of. revert d. induction rest as [|x rest IH]; intros d.
  - split; [now left|].
    apply List.Forall_cons; [simpl; lia | apply List.Forall_nil].
  - cbn [fold_left]. destruct (IH (Z.max d x)) as [Hin Hall].
    apply Forall_cons in Hall. destruct Hall as [Hm Hall]. split.
    + destruct Hin as [Hin|Hin]; [|right; now right].
      rewrite <- Hin. destruct (Z.max_spec d x) as [[_ ->]|[_ ->]];
        [right; now left | now left].
    + apply List.Forall_cons; [lia|].
      apply List.Forall_cons; [lia | exact Hall].
Qed.

(** X18: [get_date_range] returns [(None, None)] for an empty history and
    otherwise the earliest and the latest visit time: both are visit
    times of the history and every visit lies between them. *)
Theorem date_range_spans_the_history (entries : list HistoryEntry) :
  match get_date_range entries with
  | (Some lo, Some hi) => entries <> [] /\ spans lo hi entries
  | (None, None) => entries = []
  | _ => False
  end.
Proof.
  destruct entries as [|e es]; [reflexivity|].
  cbn [get_date_range map].
  destruct (min_of_spec (visit_time e) (map visit_time es)) as [Hlo Hlo'].
  destruct (max_of_spec (visit_time e) (map visit_time es)) as [Hhi Hhi'].
  split; [discriminate|]. split; [exact Hlo|]. split; [exact Hhi|].
  change (visit_time e :: map visit_time es) with (map visit_time (e :: es))
    in Hlo', Hhi'.
  rewrite Forall_forall in Hlo', Hhi'. rewrite Forall_forall. intros x Hx.
  assert (Hin : visit_time x ∈ map visit_time (e :: es)).
  { apply list_elem_of_In, in_map. now apply list_elem_of_In. }
  split; [now apply Hlo' | now apply Hhi'].
Qed.

(** *** Groups per URL *)

Lemma fold_append {E} (l : list E) (o : option (list E)) :
  fold_left (fun o e => Some (default [] o ++ [e])) l o
  = match l with
    | [] => o
    | _ :: _ => Some (default [] o ++ l)
    end.
Proof.
  revert o. induction l as [|e l IH]; intros o; [reflexivity|].
  cbn [fold_left]. rewrite IH. destruct l as [|e' l]; [reflexivity|].
  cbn [default]. unfold Datatypes.id. now rewrite <- List.app_assoc.
Qed.

Lemma get_url_groups (entries : list HistoryEntry) (u : string) :
  get (url_groups entries) u
  = match keyed url u entries with
    | [] => None
    | _ :: _ => Some (keyed url u entries)
    end.
Proof.
  change (url_groups entries)
    with (collect url (fun e o => default [] o ++ [e]) entries []).
  rewrite get_collect, fold_append. reflexivity.
Qed.

Lemma url_groups_nodup (entries : list HistoryEntry) :
  NoDup (keys (url_groups entries)).
Proof.
  change (url_groups entries)
    with (collect url (fun e o => default [] o ++ [e]) entries []).
  apply keys_collect_nodup. constructor.
Qed.

(** X19: [identify_duplicate_entries] returns the groups of entries that
    share a URL with another entry: a list is returned exactly when it
    holds all entries of one URL, in their order, and they are two or
    more. *)
Theorem duplicate_groups_are_repeated_urls (entries : list HistoryEntry)
  (group : list HistoryEntry) :
  In group (identify_duplicate_entries entries)
  <-> exists u, group = keyed url u entries /\ (2 <= length group)%nat.
Proof.
  unfold identify_duplicate_entries, values.
  rewrite filter_In, in_map_iff, Nat.ltb_lt.
  pose proof (url_groups_nodup entries) as Hnd. split.
  - intros [([u g] & <- & Hin) Hlen]. exists u. split; [|exact Hlen].
    apply (proj1 (In_get u g _ Hnd)) in Hin. rewrite get_url_groups in Hin.
    cbn [snd]. destruct (keyed url u entries); [discriminate|].
    now inversion Hin.
  - intros (u & -> & Hlen). split; [|exact Hlen].
    exists (u, keyed url u entries). split; [reflexivity|].
    apply (proj2 (In_get _ _ _ Hnd)). rewrite get_url_groups.
    destruct (keyed url u entries); [simpl in Hlen; lia | reflexivity].
Qed.

(** *** The most visited URLs *)

Lemma fold_count_url (l : list HistoryEntry) (r : url_record) :
  fold_left
    (fun o e =>
       Some match o with
            | None => {| r_title := title e; r_visits := visit_count e |}
            | Some data =>
                {| r_title := r_title data;
                   r_visits := r_visits data + visit_count e |}
            end) l (Some r)
  = Some {| r_title := r_title r;
            r_visits := r_visits r + weigh visit_count l |}.
Proof.
  revert r. induction l as [|e l IH]; intros r; cbn [fold_left].
  - unfold weigh. cbn [fold_left]. destruct r. simpl. do 2 f_equal. lia.
  - rewrite IH, weigh_cons. simpl. do 2 f_equal. lia.
Qed.

Lemma get_url_data (entries : list HistoryEntry) (u : string) :
  get (fold_left count_url entries []) u
  = match keyed url u entries with
    | [] => None
    | first :: rest =>
        Some {| r_title := title first;
                r_visits := get_total_visits (first :: rest) |}
    end.
Proof.
  pose proof (get_collect url
    (fun e o =>
       match o with
       | None => {| r_title := title e; r_visits := visit_count e |}
       | Some data =>
           {| r_title := r_title data;
              r_visits := r_visits data + visit_count e |}
       end) entries [] u) as G.
  unfold collect in G. unfold count_url. rewrite G. cbn [get].
  destruct (keyed url u entries) as [|first rest]; [reflexivity|].
  cbn [fold_left]. rewrite fold_count_url. cbn [r_title r_visits].
  change (get_total_visits (first :: rest))
    with (weigh visit_count (first :: rest)).
  now rewrite weigh_cons.
Qed.

(** X20: [get_most_visited_urls] returns URLs with their visits falling;
    the visits of a URL are the sum over all its entries and its title is
    the title of its first entry. *)
Theorem most_visited_urls_add_up (entries : list HistoryEntry) (limit : Z) :
  StronglySorted (fun a b => snd b <= snd a)
    (get_most_visited_urls entries limit)
  /\ forall u t n,
       In (u, t, n) (get_most_visited_urls entries limit) ->
       exists first rest,
         keyed url u entries = first :: rest
         /\ t = title first
         /\ n = get_total_visits (first :: rest).
Proof.
  unfold get_most_visited_urls. split.
  - apply map_sorted. apply slice_to_sorted.
    eapply sorted_impl;
      [|apply (sorted_by_count (fun x => r_visits (snd x)))].
    intros [u [t n]] [u' [t' n']] H. exact H.
  - intros u t n Hin. apply in_map_iff in Hin.
    destruct Hin as ([u' data] & Heq & Hin). inversion Heq; subst. clear Heq.
    apply slice_to_In in Hin.
    apply (proj1 (sorted_by_count_In (fun x => r_visits (snd x)) _ _))
      in Hin.
    assert (Hnd : NoDup (keys (fold_left count_url entries []))).
    { apply (keys_collect_nodup url). constructor. }
    apply (proj1 (In_get _ _ _ Hnd)) in Hin. rewrite get_url_data in Hin.
    destruct (keyed url u entries) as [|first rest]; [discriminate|].
    exists first, rest. inversion Hin. repeat split.
Qed.

End StatisticsProps.

(** ** The Unix conversion on whole seconds *)

Module UnixTimeProps.

Import PyNum TimezoneConverter.
Local Open Scope Z_scope.

(** X21: on an [int], [unix_timestamp_to_datetime] is exact between
    0001-01-01 and 9999-12-31: the result is that many seconds after the
    epoch; on every other [int] that fits [time_t] it returns the epoch,
    the value it also returns for a missing timestamp. *)
Theorem unix_timestamp_exact_or_epoch (n : Z) :
  (MIN_SECONDS <= n <= MAX_SECONDS ->
   unix_timestamp_to_datetime (PyInt n) = Ok (n * 1000000))
  /\ (TIME_T_MIN <= n < MIN_SECONDS \/ MAX_SECONDS < n <= TIME_T_MAX ->
      unix_timestamp_to_datetime (PyInt n) = Ok 0).
Proof.
  unfold unix_timestamp_to_datetime, num_is_zero, fromtimestamp,
    try_except_ValueError_OSError, epoch_sentinel, fromtimestamp,
    from_timet_and_us.
  change (0 <? TIME_T_MIN) with false. change (TIME_T_MAX <? 0) with false.
  change (0 <? GMTIME_MIN) with false. change (GMTIME_MAX <? 0) with false.
  change (0 <? MIN_SECONDS) with false. change (MAX_SECONDS <? 0) with false.
  cbn [orb]. change (0 * 1000000 + 0) with 0.
  unfold TIME_T_MIN, TIME_T_MAX, GMTIME_MIN, GMTIME_MAX, MIN_SECONDS,
    MAX_SECONDS.
  split; intros Hn.
  - destruct (Z.eqb_spec n 0) as [->|_]; [reflexivity|].
    repeat match goal with
           | |- context [?a <? ?b] => destruct (Z.ltb_spec a b); try lia
           end.
    cbn [orb]. f_equal. lia.
  - destruct (Z.eqb_spec n 0) as [->|_]; [reflexivity|].
    repeat match goal with
           | |- context [?a <? ?b] =>
               destruct (Z.ltb_spec a b); try lia; cbn [orb]
           end; reflexivity.
Qed.

Lemma unix_timestamp_exact_or_epoch_witness :
  unix_timestamp_to_datetime (PyInt 1700000000) = Ok 1700000000000000
  /\ unix_timestamp_to_datetime (PyInt (10 ^ 12)) = Ok 0.
Proof.
  split.
  - apply (unix_timestamp_exact_or_epoch 1700000000). vm_compute.
    split; discriminate.
  - apply (unix_timestamp_exact_or_epoch (10 ^ 12)). right. vm_compute.
    split; [reflexivity | discriminate].
Defined.

End UnixTimeProps.

(** ** The temporary copy *)

Module TempCopyProps.

Import Files Security Hashing BaseParser Preds TempPreds.
Local Open Scope Z_scope.

(** X22: when reading the database fails (a file held locked), [connect]
    raises [RuntimeError] after the temporary file was made: the empty
    file stays behind, the parser does not know its name, and [close] does
    not remove it. *)
Theorem failed_copy_leaves_temp_file (self : parser) (w : world)
  (n : node) (e : pyexc) (file : string) :
  _conn self = None -> temp_db_path self = None ->
  files w !! db_path self = Some n ->
  n_kind n = Regular -> n_readable n = true -> n_read_error n = Some e ->
  temp_dir_ready w -> next_temp w file ->
  exists w1 w2,
    connect self w
    = (Ok (self,
           Raise (RuntimeError "Failed to create temporary database copy")),
       w1)
    /\ close self w1 = (Ok self, w2)
    /\ files w2 = <[file := empty_file 384]> (files w).
Proof.
  intros Hc Ht Hdb Hk Hr He (d & Hd & Hdk & Hdm) (rest & Hfree).
  pose proof (FilesProps.first_free_is_free _ _ _ _ _ _ _ Hfree) as Hnone.
  assert (Hne : file <> db_path self) by (intros ->; congruence).
  destruct n as [nk nm nd nr nre]. destruct d as [dk dm dd dr dre].
  simpl in Hk, Hr, He, Hdk, Hdm. subst.
  unfold temp_dir_of in *.
  unfold connect, close. rewrite Hc, Ht.
  unfold _create_temp_copy, try_except, NamedTemporaryFile, draw_name,
    create_exclusive, read_file, gettempdir, exists_, st_mode, mkdir, chmod,
    lookup_node, emit, put_node, raise, ret.
  cbv [mbind M_bind bindM mret M_ret ret].
  cbn [files set_files log tmpdir names trace].
  repeat (progress (rewrite ?Hd, ?Hfree, ?Hnone, ?Hdb; simpl)).
  rewrite lookup_insert_ne by exact Hne.
  repeat (progress (rewrite ?Hd, ?Hfree, ?Hnone, ?Hdb; simpl)).
  eexists. eexists. split; [reflexivity|]. split; reflexivity.
Qed.

Lemma failed_copy_leaves_temp_file_witness :
  exists w1 w2,
    connect WorldSamples.history_parser WorldSamples.locked_world_again
    = (Ok (WorldSamples.history_parser,
           Raise (RuntimeError "Failed to create temporary database copy")),
       w1)
    /\ close WorldSamples.history_parser w1
       = (Ok WorldSamples.history_parser, w2)
    /\ files w2
       = <["/tmp/BrowserHunter/bhh_a1b2c3d4.db" := empty_file 384]>
           (files WorldSamples.locked_world_again).
Proof.
  apply (failed_copy_leaves_temp_file WorldSamples.history_parser
           WorldSamples.locked_world_again
           {| n_kind := Regular; n_mode := 420; n_data := [];
              n_readable := true;
              n_read_error :=
                Some (PermissionError Samples.locked_message) |}
           (PermissionError Samples.locked_message)
           "/tmp/BrowserHunter/bhh_a1b2c3d4.db");
    try reflexivity.
  - exists WorldSamples.secure_dir. repeat split; reflexivity.
  - exists []. reflexivity.
Defined.

(** *** A cycle on a readable database *)

Lemma first_free_name fs dir prefix suffix candidates file rest :
  first_free fs dir prefix suffix candidates = (Some file, rest) ->
  exists name, file = dir +:+ "/" +:+ prefix +:+ name +:+ suffix.
Proof.
  induction candidates as [|name cs IH]; simpl; [discriminate|].
  destruct (fs !! (dir +:+ "/" +:+ prefix +:+ name +:+ suffix)).
  - exact IH.
  - intros H. inversion H; subst. now exists name.
Qed.

Lemma temp_file_tail (dir name : string) :
  last_char (dir +:+ "/" +:+ "bhh_" +:+ name +:+ ".db") = Some "b"%char.
Proof.
  rewrite FilesProps.last_char_app by discriminate.
  change ("/" +:+ "bhh_" +:+ name +:+ ".db")
    with ("/bhh_" +:+ name +:+ ".db").
  rewrite FilesProps.last_char_app by (destruct name; discriminate).
  rewrite FilesProps.last_char_app by discriminate. reflexivity.
Qed.

Lemma temp_file_not_sidecar (dir name x ext : string) :
  ext = "-wal" \/ ext = "-shm" ->
  dir +:+ "/" +:+ "bhh_" +:+ name +:+ ".db" <> x +:+ ext.
Proof.
  intros Hext E. pose proof (temp_file_tail dir name) as Hl.
  rewrite E in Hl.
  destruct Hext as [-> | ->];
    rewrite FilesProps.last_char_app in Hl by discriminate; discriminate.
Qed.



End TempCopyProps.

(** ** File names and HTML text *)

Module SecurityTextProps.

Import SecurityText TokenPreds NamePreds.

(** *** Characters that do not occur *)

Lemma count_app (c : ascii) (a b : string) :
  PyStr.count c (a +:+ b) = PyStr.count c a + PyStr.count c b.
Proof.
  induction a as [|x a IH]; [reflexivity|].
  rewrite TokenProps.app_cons. simpl. rewrite IH. lia.
Qed.

Lemma free_of_app (c : ascii) (a b : string) :
  free_of c a -> free_of c b -> free_of c (a +:+ b).
Proof. unfold free_of. rewrite count_app. lia. Qed.

Lemma free_of_tail (c d : ascii) (s : string) :
  free_of c (String d s) -> free_of c s.
Proof. intros H. now apply TokenProps.free_of_cons in H. Qed.

Lemma free_of_substring (c : ascii) (s : string) (n m : nat) :
  free_of c s -> free_of c (substring n m s).
Proof.
  revert n m. induction s as [|d s IH]; intros n m H.
  - now destruct n, m.
  - destruct (TokenProps.free_of_cons _ _ _ H) as [Hd Hs].
    destruct n, m; simpl; try reflexivity.
    + unfold free_of. simpl. rewrite Hd. now apply IH.
    + now apply IH.
    + now apply IH.
Qed.

Lemma free_of_slice_to (c : ascii) (s : string) (n : Z) :
  free_of c s -> free_of c (slice_to n s).
Proof.
  intros H. unfold slice_to, PyStr.take.
  destruct (n <? 0)%Z; now apply free_of_substring.
Qed.

Lemma replace_from_keeps (c : ascii) (old new : string) (k : nat)
  (s : string) :
  free_of c new -> free_of c s -> free_of c (replace_from old new k s).
Proof.
  intros Hnew. revert k. induction s as [|d s IH]; intros k H; [exact H|].
  destruct (TokenProps.free_of_cons _ _ _ H) as [Hd Hs].
  cbn [replace_from]. destruct k as [|k]; [|now apply IH].
  destruct (String.prefix old (String d s)).
  - apply free_of_app; [exact Hnew | now apply IH].
  - unfold free_of. simpl. rewrite Hd. now apply IH.
Qed.

Lemma replace_keeps (c : ascii) (old new s : string) :
  free_of c new -> free_of c s -> free_of c (replace old new s).
Proof. apply replace_from_keeps. Qed.

Lemma prefix_one (c d : ascii) (s : string) :
  String.prefix (String c "") (String d s) = Ascii.eqb d c.
Proof.
  simpl. destruct (ascii_dec c d) as [->|Hne].
  - rewrite Ascii.eqb_refl. now destruct s.
  - symmetry. apply Ascii.eqb_neq. congruence.
Qed.

Lemma replace_removes (c : ascii) (new s : string) :
  free_of c new -> free_of c (replace (String c "") new s).
Proof.
  intros Hnew. unfold replace. induction s as [|d s IH]; [reflexivity|].
  cbn [replace_from]. rewrite prefix_one.
  destruct (Ascii.eqb d c) eqn:E.
  - apply free_of_app; [exact Hnew | exact IH].
  - unfold free_of. simpl. rewrite E. exact IH.
Qed.

(** A character that one of the replacements removes and the later ones
    do not bring back. *)
Ltac gone :=
  repeat first
    [ apply replace_removes; reflexivity
    | apply replace_keeps; [reflexivity|] ].

Lemma rsplit_dot_parts (s name ext : string) :
  rsplit_dot s = Some (name, ext) -> s = name +:+ "." +:+ ext.
Proof.
  revert name. induction s as [|c s IH]; intros name; simpl; [discriminate|].
  destruct (rsplit_dot s) as [[n e]|].
  - intros H. inversion H; subst. rewrite TokenProps.app_cons.
    f_equal. now apply IH.
  - destruct (Ascii.eqb_spec c ".") as [->|_]; [|discriminate].
    intros H. now inversion H.
Qed.

Lemma free_of_parts (c : ascii) (a b : string) :
  free_of c (a +:+ b) -> free_of c a /\ free_of c b.
Proof. unfold free_of. rewrite count_app. lia. Qed.

Lemma sanitize_filename_keeps (c : ascii) (filename : string) :
  free_of c "." -> free_of c (replace_dangerous filename) ->
  free_of c (sanitize_filename filename).
Proof.
  intros Hdot H. unfold sanitize_filename.
  destruct (MAX_FILENAME_LENGTH <? _); [|exact H].
  destruct (rsplit_dot (replace_dangerous filename)) as [[name ext]|] eqn:E.
  - apply rsplit_dot_parts in E. rewrite E in H.
    apply free_of_parts in H. destruct H as [Hn H].
    apply free_of_parts in H. destruct H as [_ He].
    apply free_of_app; [now apply free_of_slice_to|].
    now apply free_of_app.
  - now apply free_of_substring.
Qed.

(** X24: whatever the name, the result of [sanitize_filename] has no
    slash, no backslash, no NUL, no line feed, no carriage return and no
    tab. *)
Theorem sanitize_filename_has_no_separator (filename : string) :
  Forall (fun c => free_of c (sanitize_filename filename))
    ["/"%char; ascii_of_nat 92; ascii_of_nat 0; ascii_of_nat 10;
     ascii_of_nat 13; ascii_of_nat 9].
Proof.
  repeat apply List.Forall_cons; try apply List.Forall_nil;
    (apply sanitize_filename_keeps; [reflexivity|]);
    unfold replace_dangerous, dangerous_chars, backslash, nul, newline,
      carriage_return, tab; cbn [fold_left]; gone.
Qed.

(** X25: [escape_html] returns the empty string for [None] and otherwise
    a text without [<], [>], double quote and single quote. *)
Theorem escape_html_has_no_markup (text : option string) :
  escape_html None = ""
  /\ Forall (fun c => free_of c (escape_html text))
       ["<"%char; ">"%char; ascii_of_nat 34; ascii_of_nat 39].
Proof.
  split; [reflexivity|]. destruct text as [text|].
  - repeat apply List.Forall_cons; try apply List.Forall_nil;
      unfold escape_html, html_escape, double_quote, single_quote; gone.
  - repeat apply List.Forall_cons; try apply List.Forall_nil; reflexivity.
Qed.

(** *** The length of the result *)

Lemma length_take_le (n : nat) (s : string) :
  String.length (PyStr.take n s) <= n.
Proof. apply TokenProps.length_substring_le. Qed.

Lemma length_take (n : nat) (s : string) :
  n <= String.length s -> String.length (PyStr.take n s) = n.
Proof.
  unfold PyStr.take. revert n. induction s as [|c s IH]; intros [|n] H;
    simpl in *; try reflexivity; try lia.
  rewrite IH by lia. reflexivity.
Qed.

(** X26: the result of [sanitize_filename] has at most 255 characters
    exactly when what follows the last dot of the cleaned name has fewer
    than 255: a longer extension is kept whole, and the result is longer
    than the limit. *)
Theorem sanitize_filename_length (filename : string) :
  String.length (sanitize_filename filename) <= 255
  <-> (forall name ext,
         rsplit_dot (replace_dangerous filename) = Some (name, ext) ->
         String.length ext < 255).
Proof.
  unfold sanitize_filename, MAX_FILENAME_LENGTH.
  destruct (Nat.ltb_spec 255 (String.length (replace_dangerous filename)))
    as [Hlong|Hshort].
  - destruct (rsplit_dot (replace_dangerous filename)) as [[name ext]|] eqn:E.
    + pose proof (rsplit_dot_parts _ _ _ E) as Hs. rewrite Hs in Hlong.
      rewrite !TokenProps.length_app in Hlong. simpl in Hlong.
      rewrite !TokenProps.length_app. simpl String.length.
      unfold slice_to. split.
      * intros Hlen name' ext' H. inversion H; subst. lia.
      * intros H. specialize (H name ext eq_refl).
        destruct (Z.ltb_spec
                    (Z.of_nat 255 - Z.of_nat (String.length ext) - 1) 0);
          [lia|].
        pose proof (length_take_le
          (Z.to_nat (Z.of_nat 255 - Z.of_nat (String.length ext) - 1)) name).
        lia.
    + split; [discriminate|]. intros _. apply length_take_le.
  - split; [|intros _; exact Hshort].
    intros _ name ext E. apply rsplit_dot_parts in E. rewrite E in Hshort.
    rewrite !TokenProps.length_app in Hshort. simpl in Hshort. lia.
Qed.

(** *** Two dots in a row *)

Lemma prefix_nil (s : string) : String.prefix "" s = true.
Proof. now destruct s. Qed.

Lemma prefix_cons (a b : ascii) (s t : string) :
  String.prefix (String a s) (String b t)
  = Ascii.eqb b a && String.prefix s t.
Proof.
  cbn [String.prefix]. destruct (ascii_dec a b) as [->|Hne].
  - now rewrite Ascii.eqb_refl.
  - assert (E : Ascii.eqb b a = false) by (apply Ascii.eqb_neq; congruence).
    now rewrite E.
Qed.

Lemma prefix_dotdot (c : ascii) (s : string) :
  String.prefix ".." (String c s) = Ascii.eqb c "." && starts_with_dot s.
Proof.
  rewrite prefix_cons. f_equal. destruct s as [|d s]; [reflexivity|].
  rewrite prefix_cons, prefix_nil. apply andb_true_r.
Qed.

Lemma contains_dotdot_cons (c : ascii) (s : string) :
  PyStr.contains ".." (String c s)
  = (Ascii.eqb c "." && starts_with_dot s) || PyStr.contains ".." s.
Proof. cbn [PyStr.contains]. now rewrite prefix_dotdot. Qed.

(** After [replace("..", "_")] no two dots are in a row, and the result
    starts with a dot only when the text did. *)
Lemma replace_dotdot_from (s : string) (k : nat) :
  PyStr.contains ".." (replace_from ".." "_" k s) = false
  /\ (k = 0 -> starts_with_dot (replace_from ".." "_" k s) = true ->
      starts_with_dot s = true /\ String.prefix ".." s = false).
Proof.
  revert k. induction s as [|c s IH]; intros k.
  - split; [reflexivity | discriminate].
  - cbn [replace_from]. destruct k as [|k].
    + rewrite prefix_dotdot.
      destruct (Ascii.eqb c "." && starts_with_dot s) eqn:E.
      * destruct (IH 1) as [H1 _]. split; [|discriminate].
        change ("_" +:+ ?x) with (String "_" x).
        rewrite contains_dotdot_cons. exact H1.
      * destruct (IH 0) as [H0 Hs]. split.
        -- rewrite contains_dotdot_cons, H0, orb_false_r.
           destruct (Ascii.eqb c "."); [|reflexivity]. simpl in E |- *.
           destruct (starts_with_dot (replace_from ".." "_" 0 s)) eqn:Er;
             [|reflexivity].
           destruct (Hs eq_refl eq_refl) as [Hd _]. congruence.
        -- intros _ Hc. simpl in Hc. split; [exact Hc | reflexivity].
    + destruct (IH k) as [Hk _]. split; [exact Hk | discriminate].
Qed.

(** Replacing another character by an underscore makes no two dots. *)
Lemma replace_char_dotdot (c : ascii) (s : string) :
  PyStr.contains ".." s = false ->
  PyStr.contains ".." (replace (String c "") "_" s) = false
  /\ (starts_with_dot (replace (String c "") "_" s) = true ->
      starts_with_dot s = true).
Proof.
  unfold replace. induction s as [|d s IH]; intros H.
  - split; [reflexivity | discriminate].
  - rewrite contains_dotdot_cons in H. apply orb_false_iff in H.
    destruct H as [Hd Hs]. destruct (IH Hs) as [H1 H2].
    cbn [replace_from]. rewrite prefix_one.
    destruct (Ascii.eqb d c) eqn:E.
    + change ("_" +:+ ?x) with (String "_" x). split; [|discriminate].
      rewrite contains_dotdot_cons. exact H1.
    + split; [|intros Hc; exact Hc].
      rewrite contains_dotdot_cons, H1, orb_false_r.
      destruct (Ascii.eqb d "."); [|reflexivity]. simpl in Hd |- *.
      destruct (starts_with_dot (replace_from (String c "") "_" 0 s));
        [|reflexivity].
      now rewrite (H2 eq_refl) in Hd.
Qed.

Lemma replace_dangerous_dotdot (filename : string) :
  PyStr.contains ".." (replace_dangerous filename) = false.
Proof.
  unfold replace_dangerous, dangerous_chars, backslash, nul, newline,
    carriage_return, tab. cbn [fold_left].
  repeat apply replace_char_dotdot.
  apply (replace_dotdot_from _ 0).
Qed.

Lemma length_replace_from (old : string) (k : nat) (s : string) :
  String.length (replace_from old "_" k s) <= String.length s.
Proof.
  revert k. induction s as [|c s IH]; intros k; [reflexivity|].
  cbn [replace_from]. destruct k as [|k].
  - destruct (String.prefix old (String c s)).
    + change ("_" +:+ ?x) with (String "_" x). simpl.
      specialize (IH (String.length old - 1)). lia.
    + simpl. specialize (IH 0). lia.
  - simpl. specialize (IH k). lia.
Qed.

Lemma length_replace_dangerous (filename : string) :
  String.length (replace_dangerous filename) <= String.length filename.
Proof.
  unfold replace_dangerous, dangerous_chars, replace. cbn [fold_left].
  repeat (etransitivity; [apply length_replace_from|]). reflexivity.
Qed.

(** X27: on a name of at most 255 characters the result of
    [sanitize_filename] has no two dots in a row. *)
Theorem sanitize_filename_short_has_no_dotdot (filename : string) :
  String.length filename <= 255 ->
  PyStr.contains ".." (sanitize_filename filename) = false.
Proof.
  intros Hlen. pose proof (length_replace_dangerous filename) as Hle.
  unfold sanitize_filename, MAX_FILENAME_LENGTH.
  destruct (Nat.ltb_spec 255 (String.length (replace_dangerous filename)));
    [lia|].
  apply replace_dangerous_dotdot.
Qed.

Lemma sanitize_filename_short_witness :
  String.length "../../etc/passwd" <= 255
  /\ PyStr.contains ".." (sanitize_filename "../../etc/passwd") = false.
Proof.
  assert (H : String.length "../../etc/passwd" <= 255) by (simpl; lia).
  split; [exact H|].
  exact (sanitize_filename_short_has_no_dotdot "../../etc/passwd" H).
Defined.

(** *** Long names *)

Lemma contains_false_replace (old new s : string) :
  PyStr.contains old s = false -> replace old new s = s.
Proof.
  unfold replace. induction s as [|c s IH]; [reflexivity|].
  cbn [PyStr.contains replace_from]. intros H.
  apply orb_false_iff in H. destruct H as [Hp Hc].
  rewrite Hp. f_equal. now apply IH.
Qed.

Lemma free_of_contains (c : ascii) (s : string) :
  free_of c s -> PyStr.contains (String c "") s = false.
Proof.
  induction s as [|d s IH]; intros H; [reflexivity|].
  destruct (TokenProps.free_of_cons _ _ _ H) as [Hd Hs].
  cbn [PyStr.contains]. now rewrite prefix_one, Hd, IH.
Qed.

Lemma dot_free_start (s : string) :
  free_of "." s -> starts_with_dot s = false.
Proof.
  destruct s as [|c s]; [reflexivity|]. intros H.
  now destruct (TokenProps.free_of_cons _ _ _ H).
Qed.

Lemma dot_free_dotdot (s : string) :
  free_of "." s -> PyStr.contains ".." s = false.
Proof.
  induction s as [|c s IH]; intros H; [reflexivity|].
  destruct (TokenProps.free_of_cons _ _ _ H) as [Hc Hs].
  now rewrite contains_dotdot_cons, Hc, IH.
Qed.

Lemma dotdot_across (x y : string) :
  free_of "." x -> starts_with_dot y = false ->
  PyStr.contains ".." y = false ->
  PyStr.contains ".." (x +:+ "." +:+ y) = false.
Proof.
  intros Hx Hy Hc. induction x as [|c x IH].
  - change ("" +:+ "." +:+ y) with (String "." y).
    now rewrite contains_dotdot_cons, Hy, Hc.
  - destruct (TokenProps.free_of_cons _ _ _ Hx) as [Hd Hx'].
    rewrite TokenProps.app_cons, contains_dotdot_cons, Hd, (IH Hx').
    reflexivity.
Qed.

Lemma rsplit_dot_none (s : string) : free_of "." s -> rsplit_dot s = None.
Proof.
  induction s as [|c s IH]; intros H; [reflexivity|].
  destruct (TokenProps.free_of_cons _ _ _ H) as [Hc Hs].
  simpl. now rewrite (IH Hs), Hc.
Qed.

Lemma rsplit_dot_last (x ext : string) :
  free_of "." ext -> rsplit_dot (x +:+ "." +:+ ext) = Some (x, ext).
Proof.
  intros He. induction x as [|c x IH].
  - change ("" +:+ "." +:+ ext) with (String "." ext). simpl.
    now rewrite (rsplit_dot_none _ He).
  - rewrite TokenProps.app_cons. simpl. now rewrite IH.
Qed.

Lemma harmless_free (s : string) (c : ascii) :
  harmless s -> In c special -> free_of c s.
Proof.
  unfold harmless. rewrite Forall_forall. intros H Hin.
  apply H. now apply list_elem_of_In.
Qed.

Lemma harmless_app (a b : string) :
  harmless a -> harmless b -> harmless (a +:+ b).
Proof.
  unfold harmless. rewrite !Forall_forall. intros Ha Hb c Hc.
  apply free_of_app; auto.
Qed.

(** A text that is harmless but for its dots, which never come two in a
    row, is left as it is by the seven replacements. *)
Lemma replace_dangerous_id (s : string) :
  Forall (fun c => free_of c s)
    ["/"%char; ascii_of_nat 92; ascii_of_nat 0; ascii_of_nat 10;
     ascii_of_nat 13; ascii_of_nat 9] ->
  PyStr.contains ".." s = false ->
  replace_dangerous s = s.
Proof.
  intros H Hdd. rewrite Forall_forall in H.
  unfold replace_dangerous, dangerous_chars, backslash, nul, newline,
    carriage_return, tab. cbn [fold_left].
  rewrite (contains_false_replace "/" "_" s)
    by (apply free_of_contains, H; set_solver).
  rewrite (contains_false_replace _ "_" s)
    by (apply free_of_contains, H; set_solver).
  rewrite (contains_false_replace ".." "_" s) by exact Hdd.
  rewrite (contains_false_replace _ "_" s)
    by (apply free_of_contains, H; set_solver).
  rewrite (contains_false_replace _ "_" s)
    by (apply free_of_contains, H; set_solver).
  rewrite (contains_false_replace _ "_" s)
    by (apply free_of_contains, H; set_solver).
  apply contains_false_replace, free_of_contains, H. set_solver.
Qed.

(** X28: on a longer name two dots in a row can come back: when the cut
    falls right behind a dot of the name, the dot before the extension is
    set next to it.  For harmless texts [stem], [middle] and [ext] with
    [stem] and [ext] of 253 characters together, the result for
    [stem.middle.ext] is [stem..ext]. *)
Theorem sanitize_filename_long_name_gets_dotdot (stem middle ext : string) :
  harmless stem -> harmless middle -> harmless ext ->
  middle <> "" ->
  String.length stem + String.length ext = 253 ->
  sanitize_filename (stem +:+ "." +:+ middle +:+ "." +:+ ext)
  = stem +:+ ".." +:+ ext.
Proof.
  intros Hs Hm He Hne Hlen.
  assert (Hdot : forall s, harmless s -> free_of "." s)
    by (intros s H; apply (harmless_free s "." H); set_solver).
  unfold sanitize_filename. rewrite replace_dangerous_id.
  - replace (stem +:+ "." +:+ middle +:+ "." +:+ ext)
      with ((stem +:+ "." +:+ middle) +:+ "." +:+ ext)
      by (now rewrite !TokenProps.app_assoc).
    rewrite (rsplit_dot_last _ ext (Hdot _ He)).
    assert (Hlong : (MAX_FILENAME_LENGTH
                     <? String.length
                          ((stem +:+ "." +:+ middle) +:+ "." +:+ ext)) = true).
    { apply Nat.ltb_lt. unfold MAX_FILENAME_LENGTH.
      rewrite !TokenProps.length_app. simpl String.length.
      destruct middle; [contradiction | simpl; lia]. }
    rewrite Hlong. unfold slice_to, MAX_FILENAME_LENGTH, PyStr.take.
    destruct (Z.ltb_spec (Z.of_nat 255 - Z.of_nat (String.length ext) - 1) 0);
      [lia|].
    replace (Z.to_nat (Z.of_nat 255 - Z.of_nat (String.length ext) - 1))
      with (String.length (stem +:+ "."))
      by (rewrite TokenProps.length_app; simpl; lia).
    replace (stem +:+ "." +:+ middle) with ((stem +:+ ".") +:+ middle)
      by (now rewrite TokenProps.app_assoc).
    rewrite TokenProps.substring_0_app.
    now rewrite !TokenProps.app_assoc.
  - rewrite Forall_forall. intros c Hc. apply list_elem_of_In in Hc.
    assert (Hin : In c special) by (unfold special; simpl in *; tauto).
    assert (Hd : free_of c ".").
    { simpl in Hc. repeat (destruct Hc as [<-|Hc]; [reflexivity|]).
      contradiction. }
    repeat apply free_of_app; try exact Hd; now apply harmless_free.
  - apply dotdot_across; [now apply Hdot | |].
    + destruct middle as [|c m]; [contradiction|].
      pose proof (Hdot _ Hm) as Hd.
      now destruct (TokenProps.free_of_cons _ _ _ Hd).
    + apply dotdot_across; [now apply Hdot | |].
      * now apply dot_free_start, Hdot.
      * now apply dot_free_dotdot, Hdot.
Qed.

Lemma sanitize_filename_long_name_witness :
  sanitize_filename
    (Samples.parens 250 +:+ "." +:+ "b" +:+ "." +:+ "txt")
  = Samples.parens 250 +:+ ".." +:+ "txt".
Proof.
  apply (sanitize_filename_long_name_gets_dotdot (Samples.parens 250) "b"
           "txt");
    try discriminate; try reflexivity;
    unfold harmless, special; repeat apply List.Forall_cons;
    try apply List.Forall_nil; vm_compute; reflexivity.
Defined.

End SecurityTextProps.

(** ** Refused names and searches *)

Module GenericMoreProps.

Import PyNum GenericSQLiteParser Preds SearchPreds Samples.
Local Open Scope Z_scope.

Section WithExternals.
Context `{Externals}.

Ltac run_G :=
  cbv [mbind G_bind gbind gret graise lift execute set_valid_tables
       get_valid_tables]; simpl.

(** X29: for a table name that does not pass the validation,
    [get_table_info], [get_row_count] and [get_table_data] raise
    [ValueError], and the only statement they may have sent is the one
    that lists the tables. *)
Theorem unknown_table_is_refused (self : parser) (table_name : string)
  (limit : option Z) (offset : Z) :
  ~ valid_name self table_name ->
  exists self',
    get_table_info table_name self
    = (Raise (ValueError ("Invalid table name: " +:+ table_name)), self')
    /\ get_row_count table_name self
       = (Raise (ValueError ("Invalid table name: " +:+ table_name)), self')
    /\ get_table_data table_name limit offset self
       = (Raise (ValueError ("Invalid table name: " +:+ table_name)), self')
    /\ db self' = db self
    /\ (executed self' = executed self
        \/ executed self' = executed self ++ [(SelectTableNames, [])]).
Proof.
  intros Hv.
  destruct (GenericProps.validate_outcome self table_name)
    as (tables & self' & E & Hdb & Hc & Hm).
  assert (Hin : Search.in_list table_name tables = false).
  { apply not_true_is_false. intros Hin. apply Hv. unfold valid_name.
    destruct (_valid_tables self); destruct Hm as [-> _]; exact Hin. }
  rewrite Hin in E. exists self'.
  unfold get_table_info, get_row_count, get_table_data. run_G.
  rewrite E. simpl. repeat split; try assumption.
  destruct (_valid_tables self); destruct Hm as [_ ->]; auto.
Qed.

(** *** Searching every column *)

Lemma column_index_member (cols : list column_info) (c : column_info) :
  In c cols -> is_Some (column_index cols (name c)).
Proof.
  induction cols as [|c0 cols IH]; intros Hin; [destruct Hin|].
  simpl. destruct (String.eqb_spec (name c0) (name c)) as [_|Hne];
    [now eexists|].
  destruct Hin as [->|Hin]; [contradiction|].
  destruct (IH Hin) as [i ->]. now eexists.
Qed.

Lemma any_like_exists (t : table) (row : list value) (pattern : string)
  (names : list string) :
  Forall (fun c => is_Some (column_index (t_columns t) c)) names ->
  any_like t row (combine names (map (fun _ => Text pattern) names))
  = Ok (existsb (fun c => sql_like (value_at t row c) pattern) names).
Proof.
  induction 1 as [|c names [i Hi] _ IH]; [reflexivity|].
  cbn [map combine any_like existsb]. unfold like_condition, value_at.
  rewrite Hi. cbn [bind].
  destruct (sql_like (nth i row Null) pattern); [reflexivity | exact IH].
Qed.

Lemma select_like_filter (t : table) (rows : list (list value))
  (pattern : string) (names : list string) :
  Forall (fun c => is_Some (column_index (t_columns t) c)) names ->
  select_like t rows (combine names (map (fun _ => Text pattern) names))
  = Ok (List.filter
          (fun row =>
             existsb (fun c => sql_like (value_at t row c) pattern) names)
          rows).
Proof.
  intros Hn. induction rows as [|row rows IH]; [reflexivity|].
  cbn [select_like List.filter]. rewrite (any_like_exists _ _ _ _ Hn), IH.
  reflexivity.
Qed.

Lemma existsb_map {A B} (f : B -> bool) (g : A -> B) (l : list A) :
  existsb f (map g l) = existsb (fun a => f (g a)) l.
Proof.
  induction l as [|a l IH]; [reflexivity|]. simpl. now rewrite IH.
Qed.

Lemma Forall_filter_keeps {A} (P : A -> Prop) (f : A -> bool) (l : list A) :
  Forall P l -> Forall P (List.filter f l).
Proof.
  induction 1 as [|a l Ha _ IH]; simpl; [constructor|].
  destruct (f a); [now constructor | exact IH].
Qed.


End WithExternals.


Lemma unknown_table_is_refused_witness :
  exists self',
    get_table_info (H := plain_externals) "sqlite_sequence" fresh_parser
    = (Raise (ValueError "Invalid table name: sqlite_sequence"), self')
    /\ get_row_count (H := plain_externals) "sqlite_sequence" fresh_parser
       = (Raise (ValueError "Invalid table name: sqlite_sequence"), self')
    /\ get_table_data (H := plain_externals) "sqlite_sequence" None 0
         fresh_parser
       = (Raise (ValueError "Invalid table name: sqlite_sequence"), self')
    /\ db self' = db fresh_parser
    /\ (executed self' = executed fresh_parser
        \/ executed self'
           = executed fresh_parser ++ [(SelectTableNames, [])]).
Proof.
  apply (unknown_table_is_refused (H := plain_externals) fresh_parser
           "sqlite_sequence" None 0).
  unfold valid_name. simpl. discriminate.
Defined.

End GenericMoreProps.
